(** * trnpy.misc: the scikit-optimize ask/tell loop [skopt_optimize] and
      the range-product expansion [convert_user_next_ranges]; then
      [DataExplorer_mark_index], [DataExplorer_open],
      [df_set_filtered_to_NaN] and [df_to_excel]

    A shallow embedding of [src/trnpy/misc.py], lines 648-934, and of its
    lines 49-194 and 587-645 further down.  Python
    values are an inductive type, exceptions are an error monad, the
    optimizer object, the control file and the pickle file are threaded
    through the loop as an explicit world, and every call that leaves the
    function (engine, evaluation routine, pandas, files, plots, logger)
    appends an event to a trace. *)

From Stdlib Require Import ZArith List String Bool Lia PrimFloat.
From Stdlib Require Import DecimalString.
Import ListNotations.
Open Scope string_scope.
Open Scope list_scope.
Open Scope Z_scope.

(** ** Python values and exceptions *)

(** The values a YAML document (loaded with [yaml.FullLoader]) and the
    arguments of the loop range over.  Mapping keys are strings: the loop
    only ever looks up string keys. *)
#[warnings="-register-all"]
Inductive pyval : Type :=
| PNone
| PBool (b : bool)
| PInt (z : Z)
| PFloat (f : float)
| PStr (s : string)
| PList (l : list pyval)
| PDict (d : list (string * pyval)).

(** A Python [dict] as an insertion-ordered association list. *)
Definition dict := list (string * pyval).

Inductive exn : Type :=
| ValueError
| TypeError
| AttributeError
| IndexError
| UnboundLocalError
| OSError
| YAMLError
| OtherError (tag : string).

(** Is the exception an instance of [Exception] that [isinstance(ex, cls)]
    accepts?  Only the two handlers of the loop that name a class need it. *)
Definition is_ValueError (e : exn) : bool :=
  match e with ValueError => true | _ => false end.

Definition is_IndexError (e : exn) : bool :=
  match e with IndexError => true | _ => false end.

(** Result of an expression that may raise. *)
Inductive res (A : Type) : Type :=
| Ret (a : A)
| Raise (e : exn).
Arguments Ret {A} a.
Arguments Raise {A} e.

Definition res_bind {A B} (m : res A) (k : A -> res B) : res B :=
  match m with
  | Ret a => k a
  | Raise e => Raise e
  end.

Declare Scope res_scope.
Delimit Scope res_scope with res.
Notation "x <- m ;; k" := (res_bind m (fun x => k))
  (at level 61, m at next level, right associativity) : res_scope.

(** A list comprehension whose element expression may raise: the first
    exception, in list order, ends the comprehension. *)
Fixpoint comprehension {A B} (f : A -> res B) (l : list A) : res (list B) :=
  match l with
  | [] => Ret []
  | a :: l' =>
      (b <- f a ;;
       bs <- comprehension f l' ;;
       Ret (b :: bs))%res
  end.

(** [len] of a list, as a Python int. *)
Definition len {A} (l : list A) : Z := Z.of_nat (List.length l).

(** Truth value of an object ([if v:]). *)
Definition truthy (v : pyval) : bool :=
  match v with
  | PNone => false
  | PBool b => b
  | PInt z => negb (z =? 0)
  | PFloat f => negb (PrimFloat.eqb f 0%float)
  | PStr s => negb (String.eqb s "")
  | PList l => match l with [] => false | _ => true end
  | PDict d => match d with [] => false | _ => true end
  end.

(** ** [dict] operations used by the loop *)

Fixpoint dict_get (k : string) (d : dict) : option pyval :=
  match d with
  | [] => None
  | (k', v) :: d' => if String.eqb k k' then Some v else dict_get k d'
  end.

(** [d[k] = v]: overwrite in place when the key exists, append otherwise. *)
Fixpoint dict_set (k : string) (v : pyval) (d : dict) : dict :=
  match d with
  | [] => [(k, v)]
  | (k', v') :: d' =>
      if String.eqb k k' then (k', v) :: d' else (k', v') :: dict_set k v d'
  end.

(** [d.setdefault(k, default)]: the value returned and the dict after. *)
Definition setdefault (k : string) (default : pyval) (d : dict)
  : pyval * dict :=
  match dict_get k d with
  | Some v => (v, d)
  | None => (default, dict_set k default d)
  end.

(** ** [range] and [itertools.product] *)

(** Number of elements of [range(lo, hi, step)], [step <> 0]. *)
Definition range_length (lo hi step : Z) : Z :=
  if 0 <? step then
    if lo <? hi then (hi - lo - 1) / step + 1 else 0
  else
    if hi <? lo then (lo - hi - 1) / (- step) + 1 else 0.

(** The elements of [range(start, stop, step)], in iteration order. *)
Definition range_elements (start stop step : Z) : list Z :=
  map (fun i => start + Z.of_nat i * step)
      (seq 0 (Z.to_nat (range_length start stop step))).

(** [range] applied to the unpacked [items], a list of ints: one to three
    arguments, a zero
    step is a [ValueError], any other arity a [TypeError]. *)
Definition range (items : list Z) : res (list Z) :=
  match items with
  | [stop] => Ret (range_elements 0 stop 1)
  | [start; stop] => Ret (range_elements start stop 1)
  | [start; stop; step] =>
      if step =? 0 then Raise ValueError
      else Ret (range_elements start stop step)
  | _ => Raise TypeError
  end.

(** [itertools.product] applied to the unpacked [pools], after the equivalent code of the Python
    documentation:
    [result = [[]]; for pool in pools: result = [x+[y] for x in result for y in pool]]. *)
Definition product {A} (pools : list (list A)) : list (list A) :=
  fold_left
    (fun result pool => flat_map (fun x => map (fun y => x ++ [y]) pool) result)
    pools [[]].

(** Python's dynamic checks on the YAML value handed to
    [convert_user_next_ranges]: [len], iteration, and the conversion of a
    [range] argument to an integer ([bool] is a subclass of [int]). *)
Definition py_len (v : pyval) : res Z :=
  match v with
  | PList l => Ret (len l)
  | PStr s => Ret (Z.of_nat (String.length s))
  | PDict d => Ret (len d)
  | _ => Raise TypeError
  end.

Definition py_iter (v : pyval) : res (list pyval) :=
  match v with
  | PList l => Ret l
  | PStr s => Ret (map (fun c => PStr (String c "")) (list_ascii_of_string s))
  | PDict d => Ret (map (fun kv => PStr (fst kv)) d)
  | _ => Raise TypeError
  end.

Definition as_index (v : pyval) : res Z :=
  match v with
  | PInt z => Ret z
  | PBool b => Ret (if b then 1 else 0)
  | _ => Raise TypeError
  end.

(** [range] applied to the unpacked [items]. *)
Definition range_star (items : pyval) : res (list Z) :=
  (xs <- py_iter items ;;
   ints <- comprehension as_index xs ;;
   range ints)%res.

(** [convert_user_next_ranges] (misc.py 917-934). *)
Definition convert_user_next_ranges (args_list : pyval)
  : res (list (list Z)) :=
  (n <- py_len args_list ;;
   if 0 <? n then
     items <- py_iter args_list ;;
     ranges <- comprehension range_star items ;;
     Ret (product ranges)
   else Ret [])%res.

(** The Cartesian product in the words of the specification: row-major, the
    leftmost dimension varying slowest.  Every value of the first dimension,
    in order, is followed by all the combinations of the remaining ones. *)
Fixpoint cartesian {A} (dims : list (list A)) : list (list A) :=
  match dims with
  | [] => [[]]
  | d :: ds => flat_map (fun x => map (cons x) (cartesian ds)) d
  end.

(** A (start, stop, step) triple as the YAML list of one dimension. *)
Definition triple_items (t : Z * Z * Z) : pyval :=
  let '(start, stop, step) := t in PList [PInt start; PInt stop; PInt step].

Definition triple_range (t : Z * Z * Z) : list Z :=
  let '(start, stop, step) := t in range_elements start stop step.

Definition triple_step (t : Z * Z * Z) : Z := snd t.

(** ** The optimizer engine and the other collaborators *)

(** A candidate point: one value per dimension. *)
Definition point := list pyval.

(** The parameter table: a [pandas.DataFrame] built from records. *)
Record DataFrame : Type := {
  columns : list string;
  records : list point
}.

(** The scikit-optimize engine, a black box.  [optimizer] is the state of a
    [skopt.Optimizer] object; [ask] and [tell] return the state they leave
    the object in, or the exception they raise.  [tell] yields the [fun] and
    [x] of the result object it creates.  The constructor takes
    [random_state] as the caller gave it and, last, the state of numpy's
    global generator, which [random_state=None] stands for. *)
Record Engine : Type := {
  optimizer : Type;
  dimension : Type;
  engine_kwargs : Type;
  Optimizer : list dimension -> option Z -> engine_kwargs -> Z
              -> res optimizer;
  set_dimension_name : nat -> string -> optimizer -> optimizer;
  Xi : optimizer -> list point;
  dimension_names : optimizer -> list string;
  ask : pyval -> optimizer -> res (list point * optimizer);
  tell : list point -> list float -> optimizer
         -> res (float * point * optimizer)
}.

(** The [OptimizeResult] returned by [tell]: [r_self] is
    [result.specs['args']['self']], the optimizer the result belongs to;
    [r_nit] and [r_success] are the attributes the loop adds. *)
Record OptimizeResult (O : Type) : Type := {
  r_fun : float;
  r_x : point;
  r_nit : option Z;
  r_success : option bool;
  r_self : O
}.
Arguments r_fun {O} _.
Arguments r_x {O} _.
Arguments r_nit {O} _.
Arguments r_success {O} _.
Arguments r_self {O} _.

(** Everything else the loop calls.  [eval_func] is the caller's evaluation
    routine; it and the plotting functions may be impure, so they take the
    current value of [round_] as the index of the call.  [records_accepted]
    is the check of [pandas.DataFrame.from_records] on its records and
    column names.  [entropy] is the state of numpy's global generator when
    the function is entered.  [cfg_dump] is the
    [yaml.dump(opt_dict, open(opt_cfg, 'w'))] of a round, given what the
    file holds: [None] when the document is written, else the exception
    raised and what is left in the file (its old content when the [open] is
    refused). *)
Record Env (O : Type) : Type := {
  cpu_count : Z;
  entropy : Z;
  cfg_dump : Z -> dict -> option pyval -> option (exn * option pyval);
  eval_func : Z -> DataFrame -> dict -> res (list float);
  records_accepted : list point -> list string -> bool;
  plot_evaluations : Z -> OptimizeResult O -> res unit;
  plot_objective : Z -> OptimizeResult O -> res unit;
  abspath : string -> string;
  path_join : string -> string -> string
}.
Arguments cpu_count {O} _.
Arguments entropy {O} _.
Arguments cfg_dump {O} _ _ _ _.
Arguments eval_func {O} _ _ _ _.
Arguments records_accepted {O} _ _ _.
Arguments plot_evaluations {O} _ _ _.
Arguments plot_objective {O} _ _ _.
Arguments abspath {O} _ _.
Arguments path_join {O} _ _ _.

(** What leaves the function, in program order. *)
Inductive event : Type :=
| EvLoaded (path : string)
| EvStart (round_ count n_calls : Z)
| EvUserBatch (next_x : list point)
| EvAsk (n_points : pyval) (r : res (list point))
| EvLogException (e : exn)
| EvTable (t : option DataFrame)
| EvEval (t : DataFrame) (kwargs : dict) (r : res (list float))
| EvTell (next_x : list point) (next_y : list float) (r : res (float * point))
| EvMakedirs (dir : string)
| EvDump (path : string)
| EvPlotEvaluations (r : res unit)
| EvPlotObjective (r : res unit)
| EvSavefig (path : string)
| EvRead (doc : option pyval)
| EvWrite (doc : dict)
| EvWriteFailed (doc : dict) (e : exn)
| EvKilled
| EvBest (count : Z) (best : float) (x : point)
| EvShow.

(** How the loop was left. *)
Inductive status : Type := Converged | Exhausted | Killed.

Section Loop.

Variable eng : Engine.
Variable env : Env (optimizer eng).

(** The operator: what the control file holds when the loop opens it while
    [round_] has the given value, from what the loop last left there.
    [None] is a file that cannot be opened or parsed. *)
Variable operator : Z -> option pyval -> option pyval.

Local Abbreviation Result := (OptimizeResult (optimizer eng)).

(** The arguments of [skopt_optimize]. *)
Record args : Type := {
  opt_dimensions : list (string * dimension eng);
  n_calls : Z;
  n_cores0 : Z;
  tol : float;
  random_state : option Z;
  plots_show : bool;
  plots_dir0 : option string;
  optimizer_pickle : option string;
  skopt_kwargs : engine_kwargs eng
}.

(** The local variables of the loop. *)
Record locals : Type := {
  round_ : Z;
  count : Z;
  n_cores : pyval;
  user_next_x : list (list Z);
  user_ask : pyval;
  eval_func_kwargs : pyval;
  plots_dir : option string;
  result : option Result;
  sk_optimizer : optimizer eng
}.

(** The files: the control document at [opt_cfg], the pickles by path, the
    directories that exist.  Writing a file replaces its content. *)
Record world : Type := {
  w_cfg : option pyval;
  w_pickles : list (string * Result);
  w_dirs : list string
}.

Definition set_sk_optimizer (o : optimizer eng) (l : locals) : locals :=
  {| round_ := round_ l; count := count l; n_cores := n_cores l;
     user_next_x := user_next_x l; user_ask := user_ask l;
     eval_func_kwargs := eval_func_kwargs l; plots_dir := plots_dir l;
     result := result l; sk_optimizer := o |}.

Definition set_result (r : option Result) (l : locals) : locals :=
  {| round_ := round_ l; count := count l; n_cores := n_cores l;
     user_next_x := user_next_x l; user_ask := user_ask l;
     eval_func_kwargs := eval_func_kwargs l; plots_dir := plots_dir l;
     result := r; sk_optimizer := sk_optimizer l |}.

Definition set_plots_dir (d : option string) (l : locals) : locals :=
  {| round_ := round_ l; count := count l; n_cores := n_cores l;
     user_next_x := user_next_x l; user_ask := user_ask l;
     eval_func_kwargs := eval_func_kwargs l; plots_dir := d;
     result := result l; sk_optimizer := sk_optimizer l |}.

(** [round_ += 1; count += n]. *)
Definition count_round (n : Z) (l : locals) : locals :=
  {| round_ := round_ l + 1; count := count l + n; n_cores := n_cores l;
     user_next_x := user_next_x l; user_ask := user_ask l;
     eval_func_kwargs := eval_func_kwargs l; plots_dir := plots_dir l;
     result := result l; sk_optimizer := sk_optimizer l |}.

(** The assignments of one pass through the control document. *)
Definition set_control (n : pyval) (ask_ : pyval) (xs : list (list Z))
           (kw : pyval) (l : locals) : locals :=
  {| round_ := round_ l; count := count l; n_cores := n;
     user_next_x := xs; user_ask := ask_;
     eval_func_kwargs := kw; plots_dir := plots_dir l;
     result := result l; sk_optimizer := sk_optimizer l |}.

Definition set_cfg (doc : option pyval) (w : world) : world :=
  {| w_cfg := doc; w_pickles := w_pickles w; w_dirs := w_dirs w |}.

(** *** The monad of the loop body: files, exceptions, events *)

Definition M (A : Type) : Type := world -> res A * world * list event.

Definition ret {A} (a : A) : M A := fun w => (Ret a, w, []).

Definition raise {A} (e : exn) : M A := fun w => (Raise e, w, []).

Definition bind {A B} (m : M A) (k : A -> M B) : M B :=
  fun w =>
    match m w with
    | (Ret a, w1, evs1) =>
        match k a w1 with
        | (r, w2, evs2) => (r, w2, evs1 ++ evs2)
        end
    | (Raise e, w1, evs1) => (Raise e, w1, evs1)
    end.

Definition emit (e : event) : M unit := fun w => (Ret tt, w, [e]).

(** [try: m except Exception as e: h e]. *)
Definition catch {A} (m : M A) (h : exn -> M A) : M A :=
  fun w =>
    match m w with
    | (Ret a, w1, evs1) => (Ret a, w1, evs1)
    | (Raise e, w1, evs1) =>
        match h e w1 with
        | (r, w2, evs2) => (r, w2, evs1 ++ evs2)
        end
    end.

Definition lift {A} (r : res A) : M A := fun w => (r, w, []).

Declare Scope M_scope.
Delimit Scope M_scope with M.
Notation "x <- m ;; k" := (bind m (fun x => k))
  (at level 61, m at next level, right associativity) : M_scope.
Notation "m ;; k" := (bind m (fun _ => k))
  (at level 61, right associativity) : M_scope.
Local Open Scope M_scope.

(** *** Files *)

Definition path_exists (p : string) (w : world) : bool :=
  existsb (String.eqb (abspath env p)) (w_dirs w).

(** [if not os.path.exists(d): os.makedirs(d)]. *)
Definition makedirs_if_missing (d : string) : M unit :=
  fun w =>
    if path_exists d w then (Ret tt, w, [])
    else (Ret tt,
          {| w_cfg := w_cfg w; w_pickles := w_pickles w;
             w_dirs := abspath env d :: w_dirs w |},
          [EvMakedirs d]).

(** [skopt.utils.dump(result, path, store_objective=True)]. *)
Definition dump (r : Result) (path : string) : M unit :=
  fun w =>
    (Ret tt,
     {| w_cfg := w_cfg w; w_pickles := (path, r) :: w_pickles w;
        w_dirs := w_dirs w |},
     [EvDump path]).

Fixpoint lookup_pickle (path : string) (ps : list (string * Result))
  : option Result :=
  match ps with
  | [] => None
  | (p, r) :: ps' => if String.eqb path p then Some r else lookup_pickle path ps'
  end.

(** [skopt.utils.load(path)]. *)
Definition load (path : string) : M Result :=
  fun w =>
    match lookup_pickle path (w_pickles w) with
    | Some r => (Ret r, w, [])
    | None => (Raise OSError, w, [])
    end.

(** [yaml.load(open(opt_cfg, 'r'), Loader=yaml.FullLoader)]: [None] when
    the [open] or the parser raises. *)
Definition read_cfg (round_now : Z) : M (option pyval) :=
  fun w =>
    let doc := operator round_now (w_cfg w) in
    (Ret doc, set_cfg doc w, [EvRead doc]).

(** [yaml.dump(opt_dict, open(opt_cfg, 'w'), default_flow_style=None)]. *)
Definition write_cfg (round_now : Z) (opt_dict : dict) : M unit :=
  fun w =>
    match cfg_dump env round_now opt_dict (w_cfg w) with
    | None =>
        (Ret tt, set_cfg (Some (PDict opt_dict)) w, [EvWrite opt_dict])
    | Some (e, rest) =>
        (Raise e, set_cfg rest w, [EvWriteFailed opt_dict e])
    end.

(** [result.space.n_dims]: one dimension per name of the space. *)
Definition n_dims (r : Result) : Z := len (dimension_names eng (r_self r)).

(** *** Initialisation (misc.py 760-788) *)

Definition enumerate {A} (l : list A) : list (nat * A) :=
  combine (seq 0 (List.length l)) l.

(** [for i, name in enumerate(opt_dimensions.keys()):
       sk_optimizer.space.dimensions[i].name = name]. *)
Definition name_dimensions (names : list string) (o : optimizer eng)
  : optimizer eng :=
  fold_left (fun o' ix => set_dimension_name eng (fst ix) (snd ix) o')
            (enumerate names) o.

Definition init (a : args) : M locals :=
  let n := if n_cores0 a =? 0 then cpu_count env - 1 else n_cores0 a in
  match optimizer_pickle a with
  | None =>
      o <- lift (Optimizer eng (map snd (opt_dimensions a))
                           (random_state a) (skopt_kwargs a)
                           (entropy env)) ;;
      let o' := name_dimensions (map fst (opt_dimensions a)) o in
      ret {| round_ := 1; count := len (Xi eng o'); n_cores := PInt n;
             user_next_x := []; user_ask := PBool false;
             eval_func_kwargs := PDict []; plots_dir := plots_dir0 a;
             result := None; sk_optimizer := o' |}
  | Some path =>
      r <- load path ;;
      emit (EvLoaded path) ;;
      ret {| round_ := 1; count := len (Xi eng (r_self r)); n_cores := PInt n;
             user_next_x := []; user_ask := PBool false;
             eval_func_kwargs := PDict []; plots_dir := plots_dir0 a;
             result := Some r; sk_optimizer := r_self r |}
  end.

(** *** One round of the loop (misc.py 791-901) *)

(** Lines 794-805: the user's batch, or [ask]. *)
Definition propose (l : locals) : M (list point * locals) :=
  if truthy (user_ask l) && (0 <? len (user_next_x l)) then
    let next_x := map (map PInt) (user_next_x l) in
    emit (EvUserBatch next_x) ;;
    ret (next_x, l)
  else
    match ask eng (n_cores l) (sk_optimizer l) with
    | Ret (next_x, o) =>
        emit (EvAsk (n_cores l) (Ret next_x)) ;;
        ret (next_x, set_sk_optimizer o l)
    | Raise e =>
        emit (EvAsk (n_cores l) (Raise e)) ;;
        (if is_ValueError e then emit (EvLogException e) else ret tt) ;;
        raise e
    end.

(** Lines 807-812: the parameter table; [None] is the handler's
    [continue]. *)
Definition build_table (next_x : list point) (l : locals)
  : M (option DataFrame) :=
  let names := dimension_names eng (sk_optimizer l) in
  if records_accepted env next_x names then
    let param_table := {| columns := names; records := next_x |} in
    emit (EvTable (Some param_table)) ;;
    ret (Some param_table)
  else
    emit (EvTable None) ;;
    emit (EvLogException (OtherError "from_records")) ;;
    ret None.

(** Line 817: [eval_func(param_table, **eval_func_kwargs)]; unpacking
    anything but a mapping is a [TypeError] before the call. *)
Definition call_eval (round_now : Z) (param_table : DataFrame)
           (kwargs : pyval) : M (list float) :=
  match kwargs with
  | PDict kw =>
      let next_y := eval_func env round_now param_table kw in
      emit (EvEval param_table kw next_y) ;;
      lift next_y
  | _ => raise TypeError
  end.

(** Lines 814-819: count, evaluate, tell. *)
Definition evaluate_and_tell (next_x : list point) (param_table : DataFrame)
           (l : locals) : M (Result * locals) :=
  let l1 := count_round (len next_x) l in
  next_y <- call_eval (round_ l1) param_table (eval_func_kwargs l1) ;;
  match tell eng next_x next_y (sk_optimizer l1) with
  | Ret (best, x, o) =>
      emit (EvTell next_x next_y (Ret (best, x))) ;;
      let r := {| r_fun := best; r_x := x; r_nit := Some (count l1);
                  r_success := None; r_self := o |} in
      ret (r, set_result (Some r) (set_sk_optimizer o l1))
  | Raise e =>
      emit (EvTell next_x next_y (Raise e)) ;;
      raise e
  end.

Definition with_success (b : bool) (r : Result) : Result :=
  {| r_fun := r_fun r; r_x := r_x r; r_nit := r_nit r;
     r_success := Some b; r_self := r_self r |}.

(** Lines 827-832: the pickle of the round. *)
Definition checkpoint (r : Result) (l : locals) : M unit :=
  match plots_dir l with
  | Some d =>
      makedirs_if_missing d ;;
      dump r (path_join env d "optimizer.pkl")
  | None => ret tt
  end.

(** Lines 834-856: the plots; [os.path.abspath(None)] is a [TypeError]. *)
Definition diagnostics (r : Result) (l : locals) : M locals :=
  if 1 <? n_dims r then
    match plots_dir l with
    | None => raise TypeError
    | Some d =>
        let d' := abspath env d in
        makedirs_if_missing d' ;;
        emit (EvPlotEvaluations (plot_evaluations env (round_ l) r)) ;;
        lift (plot_evaluations env (round_ l) r) ;;
        emit (EvSavefig (path_join env d' "skopt_evaluations.png")) ;;
        emit (EvPlotObjective (plot_objective env (round_ l) r)) ;;
        match plot_objective env (round_ l) r with
        | Ret _ => emit (EvSavefig (path_join env d' "skopt_objective.png"))
        | Raise e => if is_IndexError e then ret tt else raise e
        end ;;
        ret (set_plots_dir (Some d') l)
    end
  else ret l.

(** What the loop does next. *)
Inductive ctl : Type :=
| Next (l : locals)
| Stop (s : status) (l : locals).

Definition ctl_locals (c : ctl) : locals :=
  match c with
  | Next l => l
  | Stop _ l => l
  end.

(** Lines 870-875: the inner [try]; on an exception the previous
    [user_next_x] stays. *)
Definition read_user_ranges (args_list : pyval) (l : locals)
  : M (list (list Z)) :=
  match convert_user_next_ranges args_list with
  | Ret xs => ret xs
  | Raise e => emit (EvLogException e) ;; ret (user_next_x l)
  end.

(** Lines 880-884. *)
Definition read_kwargs (user_ask' : pyval) (opt_dict : dict) : pyval * dict :=
  if truthy user_ask' then setdefault "eval_func_kwargs" (PDict []) opt_dict
  else (PDict [], opt_dict).

(** Lines 861-901: the control document.  A file that cannot be read, and
    a document that is no mapping ([setdefault] is an [AttributeError]),
    leave through [except Exception: pass] before any assignment.  A
    write-back that raises leaves through it after the assignments and
    before [if kill: break]. *)
Definition control_channel (l : locals) : M ctl :=
  doc <- read_cfg (round_ l) ;;
  match doc with
  | Some (PDict opt_dict0) =>
      let (n_cores', opt_dict1) := setdefault "n_cores" (n_cores l) opt_dict0 in
      let (user_ask', opt_dict2) := setdefault "user_ask" (PBool false) opt_dict1 in
      let (args_list, opt_dict3) := setdefault "user_range_prod" (PList []) opt_dict2 in
      user_next_x' <- read_user_ranges args_list l ;;
      let (kwargs', opt_dict4) := read_kwargs user_ask' opt_dict3 in
      let (kill, opt_dict5) := setdefault "kill" (PBool false) opt_dict4 in
      let opt_dict6 := dict_set "user_ask" (PBool false) opt_dict5 in
      let opt_dict7 := dict_set "kill" (PBool false) opt_dict6 in
      let l' := set_control n_cores' user_ask' user_next_x' kwargs' l in
      catch (write_cfg (round_ l) opt_dict7 ;;
             if truthy kill then emit EvKilled ;; ret (Stop Killed l')
             else ret (Next l'))
            (fun _ => ret (Next l'))
  | _ => ret (Next l)
  end.

(** Lines 821-901: after [tell]. *)
Definition after_tell (a : args) (r : Result) (l : locals) : M ctl :=
  if PrimFloat.ltb (r_fun r) (tol a) then
    ret (Stop Converged (set_result (Some (with_success true r)) l))
  else
    let r' := with_success false r in
    let l' := set_result (Some r') l in
    checkpoint r' l' ;;
    l'' <- diagnostics r' l' ;;
    control_channel l''.

(** The body of the [while]. *)
Definition round_body (a : args) (l : locals) : M ctl :=
  emit (EvStart (round_ l) (count l) (n_calls a)) ;;
  xl <- propose l ;;
  t <- build_table (fst xl) (snd xl) ;;
  match t with
  | None => ret (Next (snd xl))
  | Some param_table =>
      rl <- evaluate_and_tell (fst xl) param_table (snd xl) ;;
      after_tell a (fst rl) (snd rl)
  end.

(** *** The loop and the function *)

(** How far a run got: the loop was left, an exception ended the
    function, or the loop is still running when the fuel is spent. *)
Inductive outcome : Type :=
| Finished (s : status) (l : locals)
| Raised (e : exn)
| Running (l : locals).

(** The locals of a loop that was left or is still running. *)
Definition outcome_locals (o : outcome) : option locals :=
  match o with
  | Finished _ l => Some l
  | Running l => Some l
  | Raised _ => None
  end.

Fixpoint loop (fuel : nat) (a : args) (l : locals) (w : world)
  : outcome * world * list event :=
  if count l <? n_calls a then
    match fuel with
    | O => (Running l, w, [])
    | S fuel' =>
        match round_body a l w with
        | (Ret (Next l'), w1, evs1) =>
            match loop fuel' a l' w1 with
            | (o, w2, evs2) => (o, w2, evs1 ++ evs2)
            end
        | (Ret (Stop s l'), w1, evs1) => (Finished s l', w1, evs1)
        | (Raise e, w1, evs1) => (Raised e, w1, evs1)
        end
    end
  else (Finished Exhausted l, w, []).

(** Lines 903-914: the closing log line, [plt.show], [return result].
    [result] is unbound when the loop body never ran on a fresh start. *)
Definition finish (a : args) (l : locals) : M Result :=
  match result l with
  | None => raise UnboundLocalError
  | Some r =>
      emit (EvBest (count l) (r_fun r) (r_x r)) ;;
      (if (1 <? n_dims r) && plots_show a then emit EvShow else ret tt) ;;
      ret r
  end.

(** What a call of [skopt_optimize] comes to. *)
Inductive run : Type :=
| Returned (s : status) (r : Result)
| Failed (e : exn)
| Unfinished.

Definition skopt_optimize (fuel : nat) (a : args) (w : world)
  : run * world * list event :=
  match init a w with
  | (Raise e, w0, evs0) => (Failed e, w0, evs0)
  | (Ret l0, w0, evs0) =>
      match loop fuel a l0 w0 with
      | (Finished s l, w1, evs1) =>
          match finish a l w1 with
          | (Ret r, w2, evs2) => (Returned s r, w2, evs0 ++ evs1 ++ evs2)
          | (Raise e, w2, evs2) => (Failed e, w2, evs0 ++ evs1 ++ evs2)
          end
      | (Raised e, w1, evs1) => (Failed e, w1, evs0 ++ evs1)
      | (Running _, w1, evs1) => (Unfinished, w1, evs0 ++ evs1)
      end
  end.

(** The state at the head of the loop after [k] full passes through the
    body, and the events of those passes; [None] when the loop was left
    before. *)
Fixpoint after_rounds (k : nat) (a : args) (l : locals) (w : world)
  : option (locals * world * list event) :=
  match k with
  | O => Some (l, w, [])
  | S k' =>
      if count l <? n_calls a then
        match round_body a l w with
        | (Ret (Next l'), w1, evs1) =>
            match after_rounds k' a l' w1 with
            | Some (l2, w2, evs2) => Some (l2, w2, evs1 ++ evs2)
            | None => None
            end
        | _ => None
        end
      else None
  end.

End Loop.

Arguments opt_dimensions {eng} _.
Arguments n_calls {eng} _.
Arguments n_cores0 {eng} _.
Arguments tol {eng} _.
Arguments random_state {eng} _.
Arguments plots_show {eng} _.
Arguments plots_dir0 {eng} _.
Arguments optimizer_pickle {eng} _.
Arguments skopt_kwargs {eng} _.
Arguments round_ {eng} _.
Arguments count {eng} _.
Arguments n_cores {eng} _.
Arguments user_next_x {eng} _.
Arguments user_ask {eng} _.
Arguments eval_func_kwargs {eng} _.
Arguments plots_dir {eng} _.
Arguments result {eng} _.
Arguments sk_optimizer {eng} _.
Arguments w_cfg {eng} _.
Arguments w_pickles {eng} _.
Arguments w_dirs {eng} _.
Arguments set_sk_optimizer {eng} o l.
Arguments set_result {eng} r l.
Arguments set_plots_dir {eng} d l.
Arguments count_round {eng} n l.
Arguments set_control {eng} n ask_ xs kw l.
Arguments set_cfg {eng} doc w.
Arguments n_dims {eng} r.
Arguments with_success {eng} b r.
Arguments path_exists {eng} env p w.
Arguments makedirs_if_missing {eng} env d _.
Arguments dump {eng} r path _.
Arguments lookup_pickle {eng} path ps.
Arguments load {eng} path _.
Arguments read_cfg {eng} operator round_now _.
Arguments write_cfg {eng} env round_now opt_dict _.
Arguments name_dimensions {eng} names o.
Arguments init {eng} env a _.
Arguments propose {eng} l _.
Arguments build_table {eng} env next_x l _.
Arguments call_eval {eng} env round_now param_table kwargs _.
Arguments evaluate_and_tell {eng} env next_x param_table l _.
Arguments checkpoint {eng} env r l _.
Arguments diagnostics {eng} env r l _.
Arguments read_user_ranges {eng} args_list l _.
Arguments control_channel {eng} env operator l _.
Arguments after_tell {eng} env operator a r l _.
Arguments round_body {eng} env operator a l _.
Arguments loop {eng} env operator fuel a l w.
Arguments finish {eng} a l _.
Arguments skopt_optimize {eng} env operator fuel a w.
Arguments after_rounds {eng} env operator k a l w.
Arguments Next {eng} l.
Arguments outcome_locals {eng} o.
Arguments ctl_locals {eng} c.
Arguments Stop {eng} s l.
Arguments Finished {eng} s l.
Arguments Raised {eng} e.
Arguments Running {eng} l.
Arguments Returned {eng} s r.
Arguments Failed {eng} e.
Arguments Unfinished {eng}.
Arguments ret {eng A} a _.
Arguments raise {eng A} e _.
Arguments bind {eng A B} m k _.
Arguments emit {eng} e _.
Arguments catch {eng A} m h _.
Arguments lift {eng A} r _.

(** ** What a trace says *)

(** The rows added to the counter by the tables built in a trace. *)
Fixpoint batch_total (tr : list event) : Z :=
  match tr with
  | [] => 0
  | EvTable (Some t) :: tr' => len (records t) + batch_total tr'
  | _ :: tr' => batch_total tr'
  end.

(** The tables built in a trace: the rounds the loop has counted. *)
Fixpoint rounds_counted (tr : list event) : Z :=
  match tr with
  | [] => 0
  | EvTable (Some _) :: tr' => 1 + rounds_counted tr'
  | _ :: tr' => rounds_counted tr'
  end.

(** The events that log or move the two counters. *)
Definition counts (e : event) : bool :=
  match e with
  | EvStart _ _ _ | EvTable _ => true
  | _ => false
  end.

(** A trace agrees with the counters [r] and [c] it starts from, under the
    budget [n]: every start of a round logs the counters as the tables built
    so far have moved them, and a table is only built below the budget. *)
Fixpoint counter_ok (n r c : Z) (tr : list event) : Prop :=
  match tr with
  | [] => True
  | EvStart r' c' _ :: tr' => r' = r /\ c' = c /\ c < n /\ counter_ok n r c tr'
  | EvTable (Some t) :: tr' =>
      c < n /\ counter_ok n (r + 1) (c + len (records t)) tr'
  | _ :: tr' => counter_ok n r c tr'
  end.

(** The batches proposed in a trace, by [ask] or by the user. *)
Fixpoint proposed (tr : list event) : list (list point) :=
  match tr with
  | [] => []
  | EvAsk _ (Ret next_x) :: tr' => next_x :: proposed tr'
  | EvUserBatch next_x :: tr' => next_x :: proposed tr'
  | _ :: tr' => proposed tr'
  end.

(** The events that propose a batch. *)
Definition proposes (e : event) : bool :=
  match e with
  | EvAsk _ _ | EvUserBatch _ => true
  | _ => false
  end.

(** The last control document read as a mapping in a trace. *)
Fixpoint last_document (tr : list event) (last : option dict) : option dict :=
  match tr with
  | [] => last
  | EvRead (Some (PDict d)) :: tr' => last_document tr' (Some d)
  | _ :: tr' => last_document tr' last
  end.

(** A field of the control document, with the default of [setdefault]. *)
Definition field (k : string) (default : pyval) (d : dict) : pyval :=
  match dict_get k d with
  | Some v => v
  | None => default
  end.

(** The keyword parameters the loop holds after reading [d]. *)
Definition kwargs_of_document (d : dict) : pyval :=
  if truthy (field "user_ask" (PBool false) d)
  then field "eval_func_kwargs" (PDict []) d
  else PDict [].

(** The keyword parameters in force after a trace that started with none. *)
Definition kwargs_in_force (tr : list event) : pyval :=
  match last_document tr None with
  | Some d => kwargs_of_document d
  | None => PDict []
  end.

(** The keyword parameters in force after a trace that started with [kw]. *)
Fixpoint kwargs_after (kw : pyval) (tr : list event) : pyval :=
  match tr with
  | [] => kw
  | EvRead (Some (PDict d)) :: tr' => kwargs_after (kwargs_of_document d) tr'
  | _ :: tr' => kwargs_after kw tr'
  end.

(** Every evaluation of a trace is called with the keyword parameters in
    force: [kw] at first, then those of the last mapping read. *)
Fixpoint kwargs_ok (kw : pyval) (tr : list event) : Prop :=
  match tr with
  | [] => True
  | EvEval _ k _ :: tr' => PDict k = kw /\ kwargs_ok kw tr'
  | EvRead (Some (PDict d)) :: tr' => kwargs_ok (kwargs_of_document d) tr'
  | _ :: tr' => kwargs_ok kw tr'
  end.

(** The evaluations and the reads of the control document. *)
Definition speaks (e : event) : bool :=
  match e with
  | EvEval _ _ _ | EvRead _ => true
  | _ => false
  end.

(** A read of the control document that changes nothing: no file, no
    mapping, or a mapping that asks for no user batch, no kill and the
    batch width [n] the loop already has. *)
Definition default_valued (n : pyval) (doc : option pyval) : Prop :=
  match doc with
  | Some (PDict d) =>
      field "n_cores" n d = n
      /\ truthy (field "user_ask" (PBool false) d) = false
      /\ truthy (field "kill" (PBool false) d) = false
  | _ => True
  end.

Definition reads_default_valued (n : pyval) (tr : list event) : Prop :=
  forall doc, In (EvRead doc) tr -> default_valued n doc.

(** The same as a check that computes: the batch width is an integer. *)
Definition default_valuedb (n : Z) (doc : option pyval) : bool :=
  match doc with
  | Some (PDict d) =>
      match dict_get "n_cores" d with
      | None => true
      | Some (PInt z) => z =? n
      | Some _ => false
      end
      && negb (truthy (field "user_ask" (PBool false) d))
      && negb (truthy (field "kill" (PBool false) d))
  | _ => true
  end.

Definition reads_checked (n : Z) (tr : list event) : bool :=
  forallb (fun e => match e with
                    | EvRead doc => default_valuedb n doc
                    | _ => true
                    end) tr.

(** Event classes, by the stage of the round that emits them. *)
Definition from_propose (e : event) : bool :=
  match e with
  | EvUserBatch _ | EvAsk _ _ | EvLogException _ => true
  | _ => false
  end.

Definition from_files (e : event) : bool :=
  match e with
  | EvMakedirs _ | EvDump _ | EvPlotEvaluations _ | EvPlotObjective _
  | EvSavefig _ => true
  | _ => false
  end.

(** The reads and writes of the control document. *)
Definition touches_control (e : event) : bool :=
  match e with
  | EvRead _ | EvWrite _ | EvWriteFailed _ _ | EvKilled => true
  | _ => false
  end.

Definition from_control (e : event) : bool :=
  match e with
  | EvRead _ | EvWrite _ | EvWriteFailed _ _ | EvKilled | EvLogException _ => true
  | _ => false
  end.


(** ** The shape of a round *)

Section RoundShape.

Variable eng : Engine.
Variable env : Env (optimizer eng).
Variable operator : Z -> option pyval -> option pyval.

(** The four ways [evaluate_and_tell] goes. *)
Inductive evaluated (next_x : list point) (t : DataFrame) (l : locals eng)
  : res (OptimizeResult (optimizer eng) * locals eng) -> list event -> Prop :=
| eval_unpack_failed :
    (forall kw, eval_func_kwargs l <> PDict kw) ->
    evaluated next_x t l (Raise TypeError) []
| eval_raised kw e :
    eval_func_kwargs l = PDict kw ->
    eval_func env (round_ l + 1) t kw = Raise e ->
    evaluated next_x t l (Raise e) [EvEval t kw (Raise e)]
| tell_raised kw next_y e :
    eval_func_kwargs l = PDict kw ->
    eval_func env (round_ l + 1) t kw = Ret next_y ->
    tell eng next_x next_y (sk_optimizer l) = Raise e ->
    evaluated next_x t l (Raise e)
              [EvEval t kw (Ret next_y); EvTell next_x next_y (Raise e)]
| tell_returned kw next_y best x o :
    eval_func_kwargs l = PDict kw ->
    eval_func env (round_ l + 1) t kw = Ret next_y ->
    tell eng next_x next_y (sk_optimizer l) = Ret (best, x, o) ->
    let r := {| r_fun := best; r_x := x;
                r_nit := Some (count l + len next_x);
                r_success := None; r_self := o |} in
    evaluated next_x t l
              (Ret (r, set_result (Some r)
                         (set_sk_optimizer o (count_round (len next_x) l))))
              [EvEval t kw (Ret next_y); EvTell next_x next_y (Ret (best, x))].

(** The document the loop writes back after reading the mapping [d] while
    its batch width is [n]. *)
Definition rewritten (n : pyval) (d : dict) : dict :=
  let d1 := snd (setdefault "n_cores" n d) in
  let d2 := snd (setdefault "user_ask" (PBool false) d1) in
  let d3 := snd (setdefault "user_range_prod" (PList []) d2) in
  let d4 := snd (read_kwargs (field "user_ask" (PBool false) d) d3) in
  let d5 := snd (setdefault "kill" (PBool false) d4) in
  dict_set "kill" (PBool false) (dict_set "user_ask" (PBool false) d5).

(** The ways one pass through the body of the loop goes. *)
Inductive round_case (a : args eng) (l : locals eng) (w : world eng)
  : res (ctl eng) -> world eng -> list event -> Prop :=
| rc_ask_raised e evs_p :
    propose l w = (Raise e, w, evs_p) ->
    round_case a l w (Raise e) w
               (EvStart (round_ l) (count l) (n_calls a) :: evs_p)
| rc_table_failed next_x l1 evs_p :
    propose l w = (Ret (next_x, l1), w, evs_p) ->
    records_accepted env next_x (dimension_names eng (sk_optimizer l1))
    = false ->
    round_case a l w (Ret (Next l1)) w
               (EvStart (round_ l) (count l) (n_calls a)
                :: evs_p
                ++ [EvTable None; EvLogException (OtherError "from_records")])
| rc_eval_raised next_x l1 evs_p e evs_e :
    propose l w = (Ret (next_x, l1), w, evs_p) ->
    records_accepted env next_x (dimension_names eng (sk_optimizer l1))
    = true ->
    let t := {| columns := dimension_names eng (sk_optimizer l1);
                records := next_x |} in
    evaluated next_x t l1 (Raise e) evs_e ->
    round_case a l w (Raise e) w
               (EvStart (round_ l) (count l) (n_calls a)
                :: evs_p ++ EvTable (Some t) :: evs_e)
| rc_converged next_x l1 evs_p res l2 evs_e :
    propose l w = (Ret (next_x, l1), w, evs_p) ->
    records_accepted env next_x (dimension_names eng (sk_optimizer l1))
    = true ->
    let t := {| columns := dimension_names eng (sk_optimizer l1);
                records := next_x |} in
    evaluated next_x t l1 (Ret (res, l2)) evs_e ->
    PrimFloat.ltb (r_fun res) (tol a) = true ->
    round_case a l w
               (Ret (Stop Converged
                          (set_result (Some (with_success true res)) l2)))
               w
               (EvStart (round_ l) (count l) (n_calls a)
                :: evs_p ++ EvTable (Some t) :: evs_e)
| rc_plots_raised next_x l1 evs_p res l2 evs_e w1 evs_c e w2 evs_d :
    propose l w = (Ret (next_x, l1), w, evs_p) ->
    records_accepted env next_x (dimension_names eng (sk_optimizer l1))
    = true ->
    let t := {| columns := dimension_names eng (sk_optimizer l1);
                records := next_x |} in
    evaluated next_x t l1 (Ret (res, l2)) evs_e ->
    PrimFloat.ltb (r_fun res) (tol a) = false ->
    let res' := with_success false res in
    let l3 := set_result (Some res') l2 in
    checkpoint env res' l3 w = (Ret tt, w1, evs_c) ->
    diagnostics env res' l3 w1 = (Raise e, w2, evs_d) ->
    round_case a l w (Raise e) w2
               (EvStart (round_ l) (count l) (n_calls a)
                :: evs_p ++ EvTable (Some t) :: evs_e ++ evs_c ++ evs_d)
| rc_completed next_x l1 evs_p res l2 evs_e w1 evs_c l4 w2 evs_d
               r w' evs_x :
    propose l w = (Ret (next_x, l1), w, evs_p) ->
    records_accepted env next_x (dimension_names eng (sk_optimizer l1))
    = true ->
    let t := {| columns := dimension_names eng (sk_optimizer l1);
                records := next_x |} in
    evaluated next_x t l1 (Ret (res, l2)) evs_e ->
    PrimFloat.ltb (r_fun res) (tol a) = false ->
    let res' := with_success false res in
    let l3 := set_result (Some res') l2 in
    checkpoint env res' l3 w = (Ret tt, w1, evs_c) ->
    diagnostics env res' l3 w1 = (Ret l4, w2, evs_d) ->
    control_channel env operator l4 w2 = (r, w', evs_x) ->
    round_case a l w r w'
               (EvStart (round_ l) (count l) (n_calls a)
                :: evs_p ++ EvTable (Some t) :: evs_e
                ++ evs_c ++ evs_d ++ evs_x).

(** A run without a control file: the locals with the user's batch
    forgotten, the files with the control document removed. *)
Definition forget_user (l : locals eng) : locals eng :=
  set_control (n_cores l) (PBool false) [] (eval_func_kwargs l) l.

Definition forget_cfg (w : world eng) : world eng := set_cfg None w.

Definition forget_ctl (c : ctl eng) : ctl eng :=
  match c with
  | Next l => Next (forget_user l)
  | Stop s l => Stop s (forget_user l)
  end.

Definition forget_outcome (o : outcome eng) : outcome eng :=
  match o with
  | Finished s l => Finished s (forget_user l)
  | Raised e => Raised e
  | Running l => Running (forget_user l)
  end.

(** The locals of a run no control document has changed: no user batch
    asked for, no keyword parameters, the batch width [n]. *)
Definition untouched (n : pyval) (l : locals eng) : Prop :=
  truthy (user_ask l) = false
  /\ eval_func_kwargs l = PDict []
  /\ n_cores l = n.

End RoundShape.

(** The operator of a run without a control file. *)
Definition no_control_file (_ : Z) (_ : option pyval) : option pyval := None.

(** Two runs have the same collaborators: the same machine, evaluation
    routine, table check, plots and paths.  The state of the global
    generator and the fate of the writes of the control document may
    differ. *)
Definition same_collaborators {O : Type} (e1 e2 : Env O) : Prop :=
  cpu_count e1 = cpu_count e2
  /\ (forall i t kw, eval_func e1 i t kw = eval_func e2 i t kw)
  /\ (forall xs ns, records_accepted e1 xs ns = records_accepted e2 xs ns)
  /\ (forall i r, plot_evaluations e1 i r = plot_evaluations e2 i r)
  /\ (forall i r, plot_objective e1 i r = plot_objective e2 i r)
  /\ (forall p, abspath e1 p = abspath e2 p)
  /\ (forall d f, path_join e1 d f = path_join e2 d f).

Arguments forget_user {eng} l.
Arguments untouched {eng} n l.
Arguments forget_cfg {eng} w.
Arguments forget_ctl {eng} c.
Arguments forget_outcome {eng} o.

Arguments evaluated {eng} env next_x t l _ _.
Arguments round_case {eng} env operator a l w _ _ _.

(** ** A small engine and environment to run the loop on

    A grid engine over integer dimensions.  [ask n] proposes the [n] points
    after the ones already told.  [tell] extends the history of points and
    the history of values, without comparing their lengths, and reports the
    smallest value told so far with the point at its index. *)
Module Toy.

Record state : Type := {
  names : list string;
  points : list point;
  values : list float;
  origin : Z
}.

Definition new (dims : list (Z * Z)) (seed : option Z) (_ : unit)
           (global_state : Z) : res state :=
  match dims with
  | [] => Raise ValueError
  | (lo, _) :: _ =>
      Ret {| names := map (fun _ => "") dims; points := []; values := [];
             origin := match seed with
                       | Some s => lo + s
                       | None => lo + global_state
                       end |}
  end.

Fixpoint rename (i : nat) (name : string) (l : list string) : list string :=
  match l, i with
  | [], _ => []
  | _ :: l', O => name :: l'
  | n :: l', S i' => n :: rename i' name l'
  end.

Definition set_name (i : nat) (name : string) (s : state) : state :=
  {| names := rename i name (names s); points := points s;
     values := values s; origin := origin s |}.

Definition grid_point (s : state) (k : nat) : point :=
  map (fun _ => PInt (origin s + len (points s) + Z.of_nat k)) (names s).

Definition grid_ask (n_points : pyval) (s : state)
  : res (list point * state) :=
  match n_points with
  | PInt n =>
      if 0 <? n then Ret (map (grid_point s) (seq 0 (Z.to_nat n)), s)
      else Raise ValueError
  | _ => Raise ValueError
  end.

(** The index and the value of the first minimum of [ys], from the best
    found so far. *)
Fixpoint argmin (ys : list float) (i best_i : nat) (best : float)
  : nat * float :=
  match ys with
  | [] => (best_i, best)
  | y :: ys' =>
      if PrimFloat.ltb y best then argmin ys' (S i) i y
      else argmin ys' (S i) best_i best
  end.

Definition grid_tell (xs : list point) (ys : list float) (s : state)
  : res (float * point * state) :=
  let s' := {| names := names s; points := points s ++ xs;
               values := values s ++ ys; origin := origin s |} in
  match values s' with
  | [] => Raise ValueError
  | y :: rest =>
      let b := argmin rest 1 0 y in
      match nth_error (points s') (fst b) with
      | Some x => Ret (snd b, x, s')
      | None => Raise IndexError
      end
  end.

Definition engine : Engine :=
  {| optimizer := state; dimension := (Z * Z)%type; engine_kwargs := unit;
     Optimizer := new; set_dimension_name := set_name;
     Xi := points; dimension_names := names;
     ask := grid_ask; tell := grid_tell |}.

(** The objective: the distance of the first coordinate from 3, on the
    integers near it. *)
Definition objective (p : point) : float :=
  match p with
  | PInt 3 :: _ => 0%float
  | PInt 2 :: _ => 1%float
  | PInt 4 :: _ => 1%float
  | _ => 2%float
  end.

Definition evaluate (_ : Z) (t : DataFrame) (_ : dict) : res (list float) :=
  Ret (map objective (records t)).

(** An evaluation routine that drops the last value of every batch. *)
Definition evaluate_short (_ : Z) (t : DataFrame) (_ : dict)
  : res (list float) :=
  Ret (removelast (map objective (records t))).

Definition rows_fit (next_x : list point) (cols : list string) : bool :=
  forallb (fun p => Nat.eqb (List.length p) (List.length cols)) next_x.

Definition env_with (f : Z -> DataFrame -> dict -> res (list float))
  : Env (optimizer engine) :=
  {| cpu_count := 3; entropy := 0; cfg_dump := fun _ _ _ => None;
     eval_func := f; records_accepted := rows_fit;
     plot_evaluations := fun _ _ => Ret tt;
     plot_objective := fun _ r =>
       if Nat.ltb (List.length (values (r_self r))) 4 then Raise IndexError
       else Ret tt;
     abspath := fun p => p;
     path_join := fun d f => String.append d (String.append "/" f) |}.

Definition env : Env (optimizer engine) := env_with evaluate.

(** The same on a machine with one core: [cpu_count() - 1] is 0. *)
Definition env_single_core : Env (optimizer engine) :=
  {| cpu_count := 1; entropy := 0; cfg_dump := fun _ _ _ => None;
     eval_func := evaluate; records_accepted := rows_fit;
     plot_evaluations := fun _ _ => Ret tt;
     plot_objective := fun _ _ => Ret tt;
     abspath := fun p => p;
     path_join := fun d f => String.append d (String.append "/" f) |}.

(** The operator leaves the file alone. *)
Definition idle_operator (_ : Z) (doc : option pyval) : option pyval := doc.

Definition empty_world : world engine :=
  {| w_cfg := None; w_pickles := []; w_dirs := [] |}.

Definition world_with (doc : pyval) : world engine :=
  {| w_cfg := Some doc; w_pickles := []; w_dirs := [] |}.

(** The default tolerance, [tol=0.001], rounded to binary64 as Python
    rounds it. *)
#[warnings="-inexact-float"]
Definition tol_default : float := 0.001%float.

Definition args_x (budget : Z) (dir : option string) : args engine :=
  Build_args engine [("x", (0, 10))] budget 2 tol_default (Some 0) false
             dir None tt.

(** [n_cores=0]: as many points a round as there are cores but one. *)
Definition args_auto (budget : Z) : args engine :=
  Build_args engine [("x", (0, 10))] budget 0 tol_default (Some 0) false
             None None tt.

(** A search space whose first grid point is the optimum. *)
Definition args_near (budget : Z) : args engine :=
  Build_args engine [("x", (3, 10))] budget 2 tol_default (Some 0) false
             (Some "out") None tt.

(** The locals at the start of the loop, for a one-dimensional space whose
    grid starts at [lo]. *)
Definition start (lo : Z) : locals engine :=
  Build_locals engine 1 0 (PInt 2) [] (PBool false) (PDict []) (Some "out")
               None
               {| names := ["x"]; points := []; values := []; origin := lo |}.

(** The table of the first batch of [start 0]. *)
Definition first_table : DataFrame :=
  {| columns := ["x"]; records := [[PInt 0]; [PInt 1]] |}.

(** A control document that asks to stop, with a field of the operator's
    own. *)
Definition kill_document : dict :=
  [("kill", PBool true); ("note", PStr "keep me")].

(** A control document with an override of the keyword parameters that
    [user_ask] does not switch on, and a grid for the user's batch. *)
Definition idle_document : dict :=
  [("user_ask", PBool false);
   ("user_range_prod", PList [PList [PInt 0; PInt 3; PInt 1]]);
   ("eval_func_kwargs", PDict [("mode", PStr "fast")])].

(** A control document that asks for a user batch, with keyword
    parameters for the evaluation routine. *)
Definition override_document : dict :=
  [("user_ask", PBool true);
   ("user_range_prod", PList [PList [PInt 5; PInt 7; PInt 1]]);
   ("eval_func_kwargs", PDict [("mode", PStr "fast")])].

Definition args_xy (budget : Z) (dir : option string) : args engine :=
  Build_args engine [("x", (0, 10)); ("y", (0, 10))] budget 2 tol_default
             (Some 0) false dir None tt.

End Toy.


(** ** The grid of a list of triples *)

(** The number of elements of the range of a triple. *)
Definition triple_count (t : Z * Z * Z) : Z :=
  let '(start, stop, step) := t in range_length start stop step.

(** [x] is an element of the range of a triple: reached from [start] in
    whole steps, and not yet at [stop]. *)
Definition in_range (x : Z) (t : Z * Z * Z) : Prop :=
  let '(start, stop, step) := t in
  exists k, 0 <= k /\ x = start + k * step
            /\ if 0 <? step then x < stop else stop < x.

(** The range of a triple has no element: [stop] is at [start] or on the
    wrong side of it. *)
Definition triple_empty (t : Z * Z * Z) : Prop :=
  let '(start, stop, step) := t in
  (0 < step /\ stop <= start) \/ (step < 0 /\ start <= stop).

(** ** Rounds that make no progress *)

(** A parameter table that pandas refused. *)
Definition table_failed (e : event) : bool :=
  match e with
  | EvTable None => true
  | _ => false
  end.

(** An [ask] that returned no point. *)
Definition asks_nothing (e : event) : bool :=
  match e with
  | EvAsk _ (Ret []) => true
  | _ => false
  end.

(** The events of a round that takes the user's batch [xs] and fails to
    build its table. *)
Definition rejected_round (r c n : Z) (xs : list (list Z)) : list event :=
  [EvStart r c n; EvUserBatch (map (map PInt) xs); EvTable None;
   EvLogException (OtherError "from_records")].

(** [result.success] as the way the loop was left sets it. *)
Definition converged (s : status) : bool :=
  match s with
  | Converged => true
  | _ => false
  end.

(** ** [DataExplorer_mark_index] and [DataExplorer_open] (misc.py 587-645) *)

(** [str] of an int. *)
Definition str_int (z : Z) : string := NilZero.string_of_int (Z.to_int z).

Definition time_names : list string := ["TIME"; "Time"; "time"].

(** One pass of the loop over [df.index.names]: ['!'+name], or the name
    itself when it is one of the time names.  A name that is no string is in
    none of them, and concatenating it to a string is a [TypeError]. *)
Definition mark_name (name : pyval) : res string :=
  match name with
  | PStr s =>
      if existsb (String.eqb s) time_names then Ret s
      else Ret (String.append "!" s)
  | _ => Raise TypeError
  end.

(** The loop, with the list it appends to. *)
Fixpoint mark_names (names : list pyval) (idx_cols_rename : list string)
  : res (list string) :=
  match names with
  | [] => Ret idx_cols_rename
  | name :: names' =>
      (marked <- mark_name name ;;
       mark_names names' (idx_cols_rename ++ [marked]))%res
  end.

(** [SystemExit], the exception [bokeh]'s [main] leaves with. *)
Definition SystemExit : exn := OtherError "SystemExit".

Definition is_SystemExit (e : exn) : bool :=
  match e with
  | OtherError tag => String.eqb tag "SystemExit"
  | _ => false
  end.

(** What [DataExplorer_open] does, in program order. *)
Inductive de_event : Type :=
| DeInfo (msg : string)
| DePrintHead
| DeToExcel (path : string) (r : res unit)
| DeMain (call_list : list string) (r : res unit).

(** The command lines handed to [main] in a trace. *)
Fixpoint served (tr : list de_event) : list (list string) :=
  match tr with
  | [] => []
  | DeMain call_list _ :: tr' => call_list :: served tr'
  | _ :: tr' => served tr'
  end.

Section DataExplorer.

(** A [pandas.DataFrame], with what the two functions use of it:
    [df.index.names], [df.index = df.index.rename(names)] and
    [df.to_excel(path, merge_cells=False)]. *)
Variable frame : Type.
Variable index_names : frame -> list pyval.
Variable index_rename : pyval -> frame -> res frame.
Variable to_excel : frame -> string -> res unit.

(** [os.path.join] of three parts, [bokeh]'s [main], and whether the
    logger is enabled for [INFO]. *)
Variable path_join3 : string -> string -> string -> string.
Variable main : list string -> res unit.
Variable info_enabled : bool.

(** [DataExplorer_mark_index] (misc.py 587-602): a single name is handed
    to [rename] as it is, several as a list. *)
Definition DataExplorer_mark_index (df : frame) : res frame :=
  (idx_cols_rename <- mark_names (index_names df) [] ;;
   index_rename (match idx_cols_rename with
                 | [name] => PStr name
                 | _ => PList (map PStr idx_cols_rename)
                 end) df)%res.

(** Lines 632-638. *)
Definition call_list (bokeh_app : string) (port : Z) (show : bool)
           (data_name data_file output_backend : string) : list string :=
  ["bokeh"; "serve"; bokeh_app; "--port"; str_int port]
  ++ (if show then ["--show"] else [])
  ++ ["--args"; "--name"; data_name; "--file"; data_file;
      "--bokeh_output_backend"; output_backend].

(** Lines 630-645: the loop over the ports; [None] when the fuel is spent
    with the port still blocked. *)
Fixpoint serve (fuel : nat) (bokeh_app : string) (port : Z) (show : bool)
         (data_name data_file output_backend : string)
  : option (res unit) * list de_event :=
  match fuel with
  | O => (None, [])
  | S fuel' =>
      let cl := call_list bokeh_app port show data_name data_file
                          output_backend in
      match main cl with
      | Ret _ => (Some (Ret tt), [DeMain cl (Ret tt)])
      | Raise e =>
          if is_SystemExit e then
            let (o, tr) := serve fuel' bokeh_app (port + 1) show data_name
                                 data_file output_backend in
            (o, DeMain cl (Raise e) :: tr)
          else (Some (Raise e), [DeMain cl (Raise e)])
      end
  end.

(** [DataExplorer_open] (misc.py 605-645). *)
Definition DataExplorer_open (fuel : nat) (DatEx_df : frame)
           (data_name : string) (port : Z) (bokeh_app : string)
           (show : bool) (output_backend : string) (mark_index : bool)
  : option (res unit) * list de_event :=
  match (if mark_index then DataExplorer_mark_index DatEx_df
         else Ret DatEx_df) with
  | Raise e => (Some (Raise e), [])
  | Ret df =>
      let data_file :=
        path_join3 bokeh_app "upload" (String.append data_name ".xlsx") in
      let saving :=
        [DeInfo "Saving file for DataExplorer... "; DeInfo data_file]
        ++ (if info_enabled then [DePrintHead] else []) in
      match to_excel df data_file with
      | Raise e => (Some (Raise e), saving ++ [DeToExcel data_file (Raise e)])
      | Ret _ =>
          let (o, tr) := serve fuel bokeh_app port show data_name data_file
                               output_backend in
          (o, saving ++ DeToExcel data_file (Ret tt)
                 :: DeInfo "Starting DataExplorer..." :: tr)
      end
  end.

End DataExplorer.

(** The name the loop gives to an index level called [s]. *)
Definition marked (s : string) : string :=
  if existsb (String.eqb s) time_names then s else String.append "!" s.

(** ** [df_set_filtered_to_NaN] (misc.py 180-194) *)

(** A column label: a string, a tuple of strings (the columns are a
    [MultiIndex]) or an integer. *)
Inductive label : Type :=
| LStr (s : string)
| LTuple (parts : list string)
| LInt (z : Z).

(** [f in c] for two strings: [f] occurs in [c]. *)
Fixpoint occurs (f c : string) : bool :=
  prefix f c
  || match c with
     | EmptyString => false
     | String _ c' => occurs f c'
     end.

(** [filter_ in column_ or filter_ == column_] for a string [filter_]:
    substring in a string, membership in a tuple, a [TypeError] on an
    integer. *)
Definition filter_matches (filter_ : string) (column_ : label) : res bool :=
  match column_ with
  | LStr c => Ret (occurs filter_ c || String.eqb filter_ c)
  | LTuple parts => Ret (existsb (String.eqb filter_) parts || false)
  | LInt _ => Raise TypeError
  end.

(** The inner loop up to its [break]: is there a filter that matches? *)
Fixpoint first_match (filters : list string) (column_ : label) : res bool :=
  match filters with
  | [] => Ret false
  | filter_ :: filters' =>
      (m <- filter_matches filter_ column_ ;;
       if m then Ret true else first_match filters' column_)%res
  end.

Section SetFiltered.

(** The frame, with [df.columns] and [df[column_][mask] = value]. *)
Variables frame mask value : Type.
Variable frame_columns : frame -> list label.
Variable set_masked : label -> mask -> value -> frame -> res frame.

(** The outer loop: how it ended, the frame as it left it, and the columns
    it assigned to, in order. *)
Fixpoint set_columns (cols : list label) (filters : list string)
         (m : mask) (v : value) (df : frame)
  : res unit * frame * list label :=
  match cols with
  | [] => (Ret tt, df, [])
  | column_ :: cols' =>
      match first_match filters column_ with
      | Raise e => (Raise e, df, [])
      | Ret false => set_columns cols' filters m v df
      | Ret true =>
          match set_masked column_ m v df with
          | Raise e => (Raise e, df, [column_])
          | Ret df' =>
              let '(r, df'', tr) := set_columns cols' filters m v df' in
              (r, df'', column_ :: tr)
          end
      end
  end.

Definition df_set_filtered_to_NaN (df : frame) (filters : list string)
           (m : mask) (v : value) : res unit * frame * list label :=
  set_columns (frame_columns df) filters m v df.

End SetFiltered.

(** A filter that occurs in the label [c], as the loop decides it. *)
Definition filtered (filters : list string) (c : string) : bool :=
  existsb (fun f => occurs f c) filters.

(** A label the loop assigns to: a string some filter occurs in, or a
    tuple one of whose parts is a filter. *)
Definition selected (filters : list string) (c : label) : bool :=
  match c with
  | LStr s => filtered filters s
  | LTuple parts => existsb (fun f => existsb (String.eqb f) parts) filters
  | LInt _ => false
  end.

Definition is_LInt (c : label) : bool :=
  match c with
  | LInt _ => true
  | _ => false
  end.

(** [main] leaves with [SystemExit]: the port is taken. *)
Definition blocked (r : res unit) : bool :=
  match r with
  | Raise e => is_SystemExit e
  | Ret _ => false
  end.

(** The ports from [port] on, [k] of them. *)
Fixpoint ports_from (port : Z) (k : nat) : list Z :=
  match k with
  | O => []
  | S k' => port :: ports_from (port + 1) k'
  end.

(** ** [df_to_excel] (misc.py 49-177) *)

Module Excel.

(** The exceptions of the file system, and the one Python raises when the
    recursion goes too deep. *)
Definition PermissionError : exn := OtherError "PermissionError".
Definition FileNotFoundError : exn := OtherError "FileNotFoundError".
Definition RecursionError : exn := OtherError "RecursionError".

Definition is_PermissionError (e : exn) : bool :=
  match e with
  | OtherError tag => String.eqb tag "PermissionError"
  | _ => false
  end.

(** An entry of [sheet_names]: a string or an integer, and its [str]. *)
Inductive sheet_label : Type :=
| SheetStr (s : string)
| SheetInt (z : Z).

Definition str_label (n : sheet_label) : string :=
  match n with
  | SheetStr s => s
  | SheetInt z => str_int z
  end.

(** [del d[k]] for a key that is there: no binding of [k] is left. *)
Fixpoint dict_del (k : string) (d : dict) : dict :=
  match d with
  | [] => []
  | (k', v) :: d' =>
      if String.eqb k k' then dict_del k d' else (k', v) :: dict_del k d'
  end.

(** pandas and the operating system, as far as the function calls them.
    [to_excel df path into_writer merge_cells kwargs] is
    [df.to_excel(path, merge_cells=merge_cells, **kwargs)], where [path] is a
    file path or, when [into_writer] holds, the path of an [ExcelWriter];
    [set_styles styles i sheet] is the body of the [try] of lines 142-156;
    [strftime n] is the time stamp at the [n]-th look at the clock. *)
Record Pandas : Type := {
  frame : Type;
  index_names : frame -> list pyval;
  columns_names : frame -> list pyval;
  dirname : string -> string;
  splitext : string -> string * string;
  strftime : nat -> string;
  ExcelWriter : string -> res unit;
  to_excel : frame -> string -> bool -> bool -> dict -> res unit;
  set_styles : list pyval -> nat -> string -> res unit;
  save : string -> res unit
}.

(** The argument [df]: one frame, or a sequence of frames. *)
Inductive frames (F : Type) : Type :=
| One (df : F)
| Several (dfs : list F).
Arguments One {F} df.
Arguments Several {F} dfs.

(** The argument [path]: a file path, or the [ExcelWriter] opened on one. *)
Inductive target : Type :=
| ToPath (p : string)
| ToWriter (p : string).

Definition target_path (t : target) : string :=
  match t with
  | ToPath p => p
  | ToWriter p => p
  end.

Definition into_writer (t : target) : bool :=
  match t with
  | ToPath _ => false
  | ToWriter _ => true
  end.

(** What leaves the function, in program order. *)
Inductive xl_event (F : Type) : Type :=
| LogCritical (e : exn)
| LogInstead (path_time : string)
| Makedirs (d : string) (r : res unit)
| Writer (p : string) (r : res unit)
| ToExcel (df : F) (t : target) (merge_cells : bool) (kwargs : dict)
          (r : res unit)
| Styles (i : nat) (sheet : string) (r : res unit)
| Save (p : string) (r : res unit).
Arguments LogCritical {F} e.
Arguments LogInstead {F} path_time.
Arguments Makedirs {F} d r.
Arguments Writer {F} p r.
Arguments ToExcel {F} df t merge_cells kwargs r.
Arguments Styles {F} i sheet r.
Arguments Save {F} p r.

(** The directories that exist, and how often the clock was read. *)
Record files : Type := {
  dirs : list string;
  clock : nat
}.

(** [os.path.exists] of a directory: the empty path never exists. *)
Definition path_exists (d : string) (w : files) : bool :=
  negb (String.eqb d "") && existsb (String.eqb d) (dirs w).

Definition tick (w : files) : files :=
  {| dirs := dirs w; clock := S (clock w) |}.

Section Code.

Variable P : Pandas.

Local Abbreviation F := (frame P).

Definition X (A : Type) : Type := files -> res A * files * list (xl_event F).

Definition xret {A} (a : A) : X A := fun w => (Ret a, w, []).

Definition xraise {A} (e : exn) : X A := fun w => (Raise e, w, []).

Definition xbind {A B} (m : X A) (k : A -> X B) : X B :=
  fun w =>
    match m w with
    | (Ret a, w1, tr1) =>
        match k a w1 with
        | (r, w2, tr2) => (r, w2, tr1 ++ tr2)
        end
    | (Raise e, w1, tr1) => (Raise e, w1, tr1)
    end.

(** A call of the library: its event and its outcome. *)
Definition call (ev : res unit -> xl_event F) (r : res unit) : X unit :=
  fun w => (r, w, [ev r]).

(** Lines 122-124; [os.makedirs('')] is a [FileNotFoundError]. *)
Definition ensure_dir (d : string) : X unit :=
  fun w =>
    if path_exists d w then (Ret tt, w, [])
    else if String.eqb d "" then
      (Raise FileNotFoundError, w, [Makedirs d (Raise FileNotFoundError)])
    else
      (Ret tt, {| dirs := d :: dirs w; clock := clock w |},
       [Makedirs d (Ret tt)]).

(** Lines 165-174: the panes to freeze. *)
Definition freeze (df : F) (merge_cells : bool) (kwargs : dict) : dict :=
  let freeze_rows :=
    if merge_cells then len (columns_names P df) + 1 else 1 in
  let default :=
    PList [PInt freeze_rows; PInt (len (index_names P df))] in
  match dict_get "freeze_panes" kwargs with
  | None => dict_set "freeze_panes" default kwargs
  | Some (PBool true) => dict_set "freeze_panes" default kwargs
  | Some (PBool false) => dict_del "freeze_panes" kwargs
  | Some _ => kwargs
  end.

(** Lines 130-133: [str(sheet_names[i])], or [str(i)] on an
    [IndexError]. *)
Definition sheet_for (sheet_names : list sheet_label) (i : nat) : string :=
  match nth_error sheet_names i with
  | Some n => str_label n
  | None => str_int (Z.of_nat i)
  end.

(** Lines 141-159: the styles of a sheet; an exception is logged and
    dropped. *)
Definition try_styles (styles : list pyval) (i : nat) (sheet : string)
  : X unit :=
  match styles with
  | [] => xret tt
  | _ => fun w => (Ret tt, w, [Styles i sheet (set_styles P styles i sheet)])
  end.

(** A [for] loop over an enumerated list. *)
Fixpoint for_each {A} (body : nat -> A -> X unit) (i : nat) (l : list A)
  : X unit :=
  match l with
  | [] => xret tt
  | a :: l' => xbind (body i a) (fun _ => for_each body (S i) l')
  end.

(** The time-stamped path of lines 112-115. *)
Definition path_time (p ts : string) : string :=
  String.append (fst (splitext P p))
                (String.append "_" (String.append ts (snd (splitext P p)))).

(** [df_to_excel]; [fuel] is the depth of recursion Python has left, and a
    call beyond it is a [RecursionError]. *)
Fixpoint df_to_excel (fuel : nat) (df : frames F) (path : target)
         (sheet_names : list sheet_label) (styles : list pyval)
         (merge_cells check_permission : bool) (kwargs : dict) {struct fuel}
  : X unit :=
  match fuel with
  | O => xraise RecursionError
  | S fuel' =>
      if check_permission then
        fun w =>
          match df_to_excel fuel' df path sheet_names styles merge_cells
                            false kwargs w with
          | (Ret _, w1, tr1) => (Ret tt, w1, tr1)
          | (Raise e, w1, tr1) =>
              if is_PermissionError e then
                let p := path_time (target_path path)
                                   (strftime P (clock w1)) in
                match df_to_excel fuel' df (ToPath p) sheet_names styles
                                  merge_cells true kwargs (tick w1) with
                | (r, w2, tr2) =>
                    (r, w2, tr1 ++ LogCritical e :: LogInstead p :: tr2)
                end
              else (Raise e, w1, tr1)
          end
      else
        xbind (ensure_dir (dirname P (target_path path))) (fun _ =>
        match df with
        | Several dfs =>
            let p := target_path path in
            xbind (call (Writer p) (ExcelWriter P p)) (fun _ =>
            xbind (for_each
                     (fun i df_ =>
                        let sheet := sheet_for sheet_names i in
                        xbind
                          (match dict_get "sheet_name" kwargs with
                           | Some _ => xraise TypeError
                           | None =>
                               df_to_excel fuel' (One df_) (ToWriter p) [] []
                                           merge_cells true
                                           (("sheet_name", PStr sheet)
                                            :: kwargs)
                           end)
                          (fun _ => try_styles styles i sheet))
                     O dfs) (fun _ =>
            call (Save p) (save P p)))
        | One df1 =>
            let kwargs' := freeze df1 merge_cells kwargs in
            call (ToExcel df1 path merge_cells kwargs')
                 (to_excel P df1 (target_path path) (into_writer path)
                           merge_cells kwargs')
        end)
  end.

End Code.

(** The sheets a trace has written: the [sheet_name] of every [to_excel]
    that returned. *)
Fixpoint sheets_written {F} (tr : list (xl_event F)) : list (option pyval) :=
  match tr with
  | [] => []
  | ToExcel _ _ _ kwargs (Ret _) :: tr' =>
      dict_get "sheet_name" kwargs :: sheets_written tr'
  | _ :: tr' => sheets_written tr'
  end.

(** The same with the target every sheet went to: the writer of a
    workbook, or a file of its own. *)
Fixpoint sheets_placed {F} (tr : list (xl_event F))
  : list (target * option pyval) :=
  match tr with
  | [] => []
  | ToExcel _ t _ kwargs (Ret _) :: tr' =>
      (t, dict_get "sheet_name" kwargs) :: sheets_placed tr'
  | _ :: tr' => sheets_placed tr'
  end.

(** The events that save a workbook. *)
Definition saves {F} (e : xl_event F) : bool :=
  match e with
  | Save _ (Ret _) => true
  | _ => false
  end.

End Excel.

(** ** Small instances for the functions above *)

Module Samples.

(** Locals that hold a user batch of two coordinates, for the space of one
    dimension of [Toy.start]. *)
Definition wide_batch : locals Toy.engine :=
  set_control (PInt 2) (PBool true) [[1; 2]] (PDict []) (Toy.start 0).

(** Locals that still hold the grid of an earlier document. *)
Definition earlier_batch : locals Toy.engine :=
  set_control (PInt 2) (PBool false) [[7]] (PDict []) (Toy.start 0).

(** A control document that asks for a user batch with a zero step. *)
Definition zero_step_document : dict :=
  [("user_ask", PBool true);
   ("user_range_prod", PList [PList [PInt 0; PInt 3; PInt 0]])].

(** A control document that widens the batch. *)
Definition width_document : dict := [("n_cores", PInt 3)].

(** The locals at the start of the loop for a space of two dimensions and
    no directory for the plots. *)
Definition start_xy : locals Toy.engine :=
  Build_locals Toy.engine 1 0 (PInt 2) [] (PBool false) (PDict []) None None
               {| Toy.names := ["x"; "y"]; Toy.points := [];
                  Toy.values := []; Toy.origin := 0 |}.

(** A restart from the pickle of [Toy.start]. *)
Definition args_restart : args Toy.engine :=
  Build_args Toy.engine [("x", (0, 10))] 10 2 Toy.tol_default (Some 0) false
             (Some "out") (Some "out/optimizer.pkl") tt.

(** The machine of [Toy.env] with a control file that can be read but
    not written, and the global generator in another state. *)
Definition env_read_only : Env (optimizer Toy.engine) :=
  {| cpu_count := cpu_count Toy.env; entropy := 5;
     cfg_dump := fun _ _ old => Some (OSError, old);
     eval_func := eval_func Toy.env;
     records_accepted := records_accepted Toy.env;
     plot_evaluations := plot_evaluations Toy.env;
     plot_objective := plot_objective Toy.env;
     abspath := abspath Toy.env;
     path_join := path_join Toy.env |}.

(** A fresh start without a seed. *)
Definition args_unseeded (budget : Z) : args Toy.engine :=
  Build_args Toy.engine [("x", (0, 10))] budget 2 Toy.tol_default None false
             None None tt.

(** A control document that asks for a user batch of a hundred points. *)
Definition hundred_document : dict :=
  [("user_ask", PBool true);
   ("user_range_prod", PList [PList [PInt 0; PInt 100; PInt 1]])].

(** The files an earlier run has left: the directory of the plots, and a
    control document that asks for nothing. *)
Definition used_world : world Toy.engine :=
  {| w_cfg := Some (PDict Toy.idle_document); w_pickles := [];
     w_dirs := ["out"] |}.

(** A frame reduced to its index names. *)
Definition index_only : Type := list pyval.

Definition rename_to (names : pyval) (_ : index_only) : res index_only :=
  match names with
  | PList l => Ret l
  | _ => Ret [names]
  end.

Definition join3 (a b c : string) : string :=
  String.append a (String.append "/" (String.append b (String.append "/" c))).

(** [main] on a machine where the ports 80 and 81 are taken. *)
Definition main_busy (call_list : list string) : res unit :=
  match nth_error call_list 4 with
  | Some "80" => Raise SystemExit
  | Some "81" => Raise SystemExit
  | _ => Ret tt
  end.

(** [main] on a machine where every port is taken. *)
Definition main_never (_ : list string) : res unit := Raise SystemExit.

(** A frame reduced to its columns and the columns assigned to. *)
Definition column_log : Type := (list label * list label)%type.

Definition log_assignment (c : label) (_ _ : unit) (df : column_log)
  : res column_log :=
  Ret (fst df, snd df ++ [c]).

(** pandas on a disk where [out/results.xlsx] is open in another
    program. *)
Definition pandas : Excel.Pandas :=
  {| Excel.frame := string;
     Excel.index_names := fun _ => [PStr "hash"; PStr "TIME"];
     Excel.columns_names := fun _ => [PNone];
     Excel.dirname := fun p => if String.eqb p "results.xlsx" then "" else "out";
     Excel.splitext := fun p =>
       if String.eqb p "out/results.xlsx" then ("out/results", ".xlsx")
       else (p, "");
     Excel.strftime := fun _ => "2020-01-01_00-00-00";
     Excel.ExcelWriter := fun _ => Ret tt;
     Excel.to_excel := fun _ p _ _ _ =>
       if String.eqb p "out/results.xlsx" then Raise Excel.PermissionError
       else Ret tt;
     Excel.set_styles := fun _ _ _ => Ret tt;
     Excel.save := fun _ => Ret tt |}.

Definition disk : Excel.files := {| Excel.dirs := ["out"]; Excel.clock := 0 |}.

(** pandas in a directory nothing can be written to. *)
Definition pandas_read_only : Excel.Pandas :=
  {| Excel.frame := string;
     Excel.index_names := fun _ => [PNone];
     Excel.columns_names := fun _ => [PNone];
     Excel.dirname := fun _ => "out";
     Excel.splitext := fun p => (p, "");
     Excel.strftime := fun _ => "2020-01-01_00-00-00";
     Excel.ExcelWriter := fun _ => Ret tt;
     Excel.to_excel := fun _ _ _ _ _ => Raise Excel.PermissionError;
     Excel.set_styles := fun _ _ _ => Ret tt;
     Excel.save := fun _ => Ret tt |}.

End Samples.

(** ** The definitions on small inputs *)

Example range_up : range [0; 3; 1] = Ret [0; 1; 2].
Proof. reflexivity. Qed.

Example range_down : range [5; 0; -2] = Ret [5; 3; 1].
Proof. reflexivity. Qed.

Example range_empty : range [3; 3; 1] = Ret [].
Proof. reflexivity. Qed.

Example range_one_argument : range [3] = Ret [0; 1; 2].
Proof. reflexivity. Qed.

Example range_no_argument : range [] = Raise TypeError.
Proof. reflexivity. Qed.

Example product_of_none : product (A := Z) [] = [[]].
Proof. reflexivity. Qed.

Example convert_not_a_list : convert_user_next_ranges (PInt 3) = Raise TypeError.
Proof. reflexivity. Qed.

Example convert_float_bound :
  convert_user_next_ranges (PList [PList [PInt 0; PFloat 3; PInt 1]])
  = Raise TypeError.
Proof. reflexivity. Qed.

Example setdefault_present :
  setdefault "kill" (PBool false) [("kill", PBool true)]
  = (PBool true, [("kill", PBool true)]).
Proof. reflexivity. Qed.

Example setdefault_missing :
  setdefault "kill" (PBool false) [("n_cores", PInt 4)]
  = (PBool false, [("n_cores", PInt 4); ("kill", PBool false)]).
Proof. reflexivity. Qed.

(** The grid engine finds the optimum 3 of [Toy.objective] in the second
    round of two points. *)
Example grid_run_converges :
  exists r w tr,
    skopt_optimize Toy.env no_control_file 10 (Toy.args_x 10 (Some "out"))
                   Toy.empty_world
    = (Returned Converged r, w, tr)
    /\ r_fun r = 0%float /\ r_x r = [PInt 3] /\ r_nit r = Some 4
    /\ proposed tr = [[[PInt 0]; [PInt 1]]; [[PInt 2]; [PInt 3]]].
Proof. eexists _, _, _. vm_compute. repeat split. Qed.

(** In two dimensions the plots are made; the objective plot fails for want
    of data in the first round and the round goes on to the control file. *)
Example grid_run_plots :
  let tr := snd (skopt_optimize Toy.env no_control_file 10
                                (Toy.args_xy 5 (Some "out")) Toy.empty_world) in
  firstn 6 (skipn 5 tr)
  = [EvMakedirs "out"; EvDump "out/optimizer.pkl";
     EvPlotEvaluations (Ret tt); EvSavefig "out/skopt_evaluations.png";
     EvPlotObjective (Raise IndexError); EvRead None].
Proof. vm_compute. reflexivity. Qed.

(** Without a directory the plots of a space of two dimensions end the run:
    [os.path.abspath(None)]. *)
Example grid_run_no_directory :
  fst (fst (skopt_optimize Toy.env no_control_file 10 (Toy.args_xy 5 None)
                           Toy.empty_world))
  = Failed TypeError.
Proof. vm_compute. reflexivity. Qed.

(** A budget of 0 on a fresh start: [result] is unbound after the loop. *)
Example grid_run_no_budget :
  fst (fst (skopt_optimize Toy.env no_control_file 10 (Toy.args_x 0 None)
                           Toy.empty_world))
  = Failed UnboundLocalError.
Proof. vm_compute. reflexivity. Qed.

(** A user batch is a pulse: the round after the document asked for it
    takes the user's grid and the keyword parameters, the next one asks the
    engine again. *)
Example grid_run_user_batch :
  proposed (snd (loop Toy.env Toy.idle_operator 10 (Toy.args_x 6 (Some "out"))
                      (Toy.start 0)
                      (Toy.world_with (PDict Toy.override_document))))
  = [[[PInt 0]; [PInt 1]]; [[PInt 5]; [PInt 6]]; [[PInt 4]; [PInt 5]]].
Proof. vm_compute. reflexivity. Qed.

(** ** Range-product expansion: proofs *)

Section RangeProduct.

Lemma flat_map_map_app {A} (xs : list (list A)) :
  flat_map (fun p => map (app p) [[]]) xs = map (fun p => p ++ []) xs.
Proof.
  induction xs as [|x xs IH]; [reflexivity|].
  change (flat_map (fun p => map (app p) [[]]) (x :: xs))
    with ((x ++ []) :: flat_map (fun p => map (app p) [[]]) xs).
  now rewrite IH.
Qed.

Lemma product_step_cartesian {A} (pool : list A) (rest : list (list A))
      (acc : list (list A)) :
  flat_map (fun p => map (app p) (cartesian (pool :: rest))) acc
  = flat_map (fun p => map (app p) (cartesian rest))
             (flat_map (fun x => map (fun y => x ++ [y]) pool) acc).
Proof.
  induction acc as [|p acc IH]; simpl; [reflexivity|].
  rewrite flat_map_app, <- IH. f_equal.
  clear IH. induction pool as [|y pool IHp]; simpl; [reflexivity|].
  rewrite map_app, IHp. f_equal.
  rewrite map_map. apply map_ext. intros c.
  now rewrite <- app_assoc.
Qed.

Lemma fold_product_cartesian {A} (pools : list (list A)) :
  forall acc,
    fold_left
      (fun result pool =>
         flat_map (fun x => map (fun y => x ++ [y]) pool) result)
      pools acc
    = flat_map (fun p => map (app p) (cartesian pools)) acc.
Proof.
  induction pools as [|pool rest IH]; intros acc.
  - cbn [fold_left cartesian]. rewrite flat_map_map_app.
    induction acc as [|p acc IHa]; simpl; [reflexivity|].
    now rewrite app_nil_r, <- IHa.
  - cbn [fold_left]. rewrite IH. symmetry. apply product_step_cartesian.
Qed.

(** [itertools.product] enumerates the row-major Cartesian product. *)
Lemma product_cartesian {A} (pools : list (list A)) :
  product pools = cartesian pools.
Proof.
  unfold product. rewrite fold_product_cartesian. simpl.
  rewrite app_nil_r. rewrite map_id. reflexivity.
Qed.

Lemma comprehension_range_triples (ts : list (Z * Z * Z)) :
  Forall (fun t => triple_step t <> 0) ts ->
  comprehension range_star (map triple_items ts) = Ret (map triple_range ts).
Proof.
  induction 1 as [|[[a b] c] ts Hc _ IH]; [reflexivity|].
  cbn [map comprehension]. rewrite IH.
  unfold range_star, triple_items, triple_range.
  cbn [py_iter comprehension as_index res_bind range].
  unfold triple_step in Hc; simpl in Hc.
  destruct (Z.eqb_spec c 0) as [->|_]; [contradiction|].
  reflexivity.
Qed.

(** A zero step is rejected, as [range] does. *)
Lemma convert_user_next_ranges_zero_step (start stop : Z) :
  convert_user_next_ranges (PList [triple_items (start, stop, 0)])
  = Raise ValueError.
Proof. reflexivity. Qed.

End RangeProduct.

(** C5: for every non-empty list of (start, stop, step) triples with
    non-zero steps, [convert_user_next_ranges] returns the Cartesian product
    of the ranges in row-major order, the leftmost dimension slowest;
    [[0,3,1],[10,12,1]] gives (0,10),(0,11),(1,10),(1,11),(2,10),(2,11); the
    empty list gives the empty list. *)
Theorem convert_user_next_ranges_cartesian :
  (forall ts : list (Z * Z * Z),
      ts <> [] ->
      Forall (fun t => triple_step t <> 0) ts ->
      convert_user_next_ranges (PList (map triple_items ts))
      = Ret (cartesian (map triple_range ts)))
  /\ convert_user_next_ranges
       (PList [PList [PInt 0; PInt 3; PInt 1]; PList [PInt 10; PInt 12; PInt 1]])
     = Ret [[0; 10]; [0; 11]; [1; 10]; [1; 11]; [2; 10]; [2; 11]]
  /\ convert_user_next_ranges (PList []) = Ret [].
Proof.
  split; [|split; reflexivity].
  intros ts Hne Hstep. unfold convert_user_next_ranges.
  destruct ts as [|t ts]; [contradiction|].
  cbn [py_len py_iter res_bind].
  replace (0 <? len (map triple_items (t :: ts))) with true
    by (unfold len; simpl List.length; symmetry; apply Z.ltb_lt; lia).
  rewrite comprehension_range_triples by assumption.
  cbn [res_bind]. now rewrite product_cartesian.
Qed.

Lemma convert_user_next_ranges_cartesian_witness :
  convert_user_next_ranges (PList (map triple_items [(0, 4, 2); (5, 3, -1)]))
  = Ret (cartesian (map triple_range [(0, 4, 2); (5, 3, -1)])).
Proof.
  apply (proj1 convert_user_next_ranges_cartesian).
  - discriminate.
  - repeat constructor; unfold triple_step; simpl; lia.
Defined.

(** ** Dictionaries *)

Section DictFacts.

Lemma dict_get_set_same (k : string) (v : pyval) (d : dict) :
  dict_get k (dict_set k v d) = Some v.
Proof.
  induction d as [|[k' v'] d IH]; simpl.
  - now rewrite String.eqb_refl.
  - destruct (String.eqb k k') eqn:E; simpl; rewrite E; auto.
Qed.

Lemma dict_get_set_other (k k' : string) (v : pyval) (d : dict) :
  k <> k' -> dict_get k (dict_set k' v d) = dict_get k d.
Proof.
  intros Hne. induction d as [|[k0 v0] d IH]; simpl.
  - destruct (String.eqb_spec k k'); [contradiction|reflexivity].
  - destruct (String.eqb_spec k' k0) as [->|Hk0]; simpl.
    + destruct (String.eqb_spec k k0); [contradiction|reflexivity].
    + destruct (String.eqb k k0); auto.
Qed.

Lemma setdefault_value (k : string) (v : pyval) (d : dict) :
  fst (setdefault k v d) = field k v d.
Proof. unfold setdefault, field. destruct (dict_get k d); reflexivity. Qed.

(** [setdefault] never changes a key that is present. *)
Lemma setdefault_keeps (k k' : string) (v v' : pyval) (d : dict) :
  dict_get k d = Some v ->
  dict_get k (snd (setdefault k' v' d)) = Some v.
Proof.
  intros Hk. unfold setdefault.
  destruct (dict_get k' d) eqn:Hk'; simpl; [assumption|].
  rewrite dict_get_set_other; [assumption|].
  intros ->. congruence.
Qed.

Lemma setdefault_other (k k' : string) (v' : pyval) (d : dict) :
  k <> k' ->
  dict_get k (snd (setdefault k' v' d)) = dict_get k d.
Proof.
  intros Hne. unfold setdefault.
  destruct (dict_get k' d); simpl; [reflexivity|].
  now apply dict_get_set_other.
Qed.

Lemma field_setdefault_other (k k' : string) (v v' : pyval) (d : dict) :
  k <> k' ->
  field k v (snd (setdefault k' v' d)) = field k v d.
Proof. intros Hne. unfold field. now rewrite setdefault_other. Qed.

Lemma read_kwargs_keeps (k : string) (v ua : pyval) (d : dict) :
  dict_get k d = Some v ->
  dict_get k (snd (read_kwargs ua d)) = Some v.
Proof.
  intros H. unfold read_kwargs.
  destruct (truthy ua); [now apply setdefault_keeps | assumption].
Qed.

(** The document written back: the two flags are off, every field that
    was present is as it was. *)
Lemma rewritten_flags (n : pyval) (d : dict) :
  dict_get "user_ask" (rewritten n d) = Some (PBool false)
  /\ dict_get "kill" (rewritten n d) = Some (PBool false).
Proof.
  unfold rewritten. split.
  - rewrite dict_get_set_other by discriminate. apply dict_get_set_same.
  - apply dict_get_set_same.
Qed.

Lemma rewritten_keeps (n : pyval) (d : dict) (k : string) (v : pyval) :
  k <> "user_ask" -> k <> "kill" ->
  dict_get k d = Some v ->
  dict_get k (rewritten n d) = Some v.
Proof.
  intros Hu Hk Hget. unfold rewritten.
  rewrite !dict_get_set_other by assumption.
  apply setdefault_keeps, read_kwargs_keeps.
  now repeat apply setdefault_keeps.
Qed.

End DictFacts.

(** ** Traces *)

Section TraceFacts.

Lemma batch_total_app (tr1 tr2 : list event) :
  batch_total (tr1 ++ tr2) = batch_total tr1 + batch_total tr2.
Proof.
  induction tr1 as [|e tr1 IH]; simpl; [reflexivity|].
  destruct e; try assumption.
  destruct t; [rewrite IH; lia | assumption].
Qed.

Lemma batch_total_nonneg (tr : list event) : 0 <= batch_total tr.
Proof.
  induction tr as [|e tr IH]; simpl; [lia|].
  destruct e; try assumption.
  destruct t; [unfold len; lia | assumption].
Qed.

Lemma proposed_app (tr1 tr2 : list event) :
  proposed (tr1 ++ tr2) = proposed tr1 ++ proposed tr2.
Proof.
  induction tr1 as [|e tr1 IH]; simpl; [reflexivity|].
  destruct e; try assumption.
  - now rewrite IH.
  - destruct r; [now rewrite IH | assumption].
Qed.

Lemma last_document_app (tr1 tr2 : list event) (d : option dict) :
  last_document (tr1 ++ tr2) d = last_document tr2 (last_document tr1 d).
Proof.
  revert d. induction tr1 as [|e tr1 IH]; intros d; simpl; [reflexivity|].
  destruct e; try apply IH.
  destruct doc as [[]|]; apply IH.
Qed.

Lemma Forall_class_In (P : event -> bool) (evs : list event) (e : event) :
  Forall (fun x => P x = true) evs -> In e evs -> P e = true.
Proof. intros HF Hin. rewrite Forall_forall in HF. now apply HF. Qed.

Lemma rounds_counted_app (tr1 tr2 : list event) :
  rounds_counted (tr1 ++ tr2) = rounds_counted tr1 + rounds_counted tr2.
Proof.
  induction tr1 as [|e tr1 IH]; cbn [rounds_counted app]; [reflexivity|].
  destruct e; try assumption.
  destruct t; [rewrite IH; lia | assumption].
Qed.

Lemma counter_ok_app (n : Z) (tr1 tr2 : list event) :
  forall r c,
    counter_ok n r c (tr1 ++ tr2)
    <-> counter_ok n r c tr1
        /\ counter_ok n (r + rounds_counted tr1) (c + batch_total tr1) tr2.
Proof.
  induction tr1 as [|e tr1 IH]; intros r c;
    cbn [counter_ok rounds_counted batch_total app].
  - rewrite !Z.add_0_r. tauto.
  - destruct e; try apply IH.
    + rewrite IH. tauto.
    + destruct t; [|apply IH].
      rewrite IH.
      replace (r + 1 + rounds_counted tr1)
        with (r + (1 + rounds_counted tr1)) by lia.
      replace (c + len (records d) + batch_total tr1)
        with (c + (len (records d) + batch_total tr1)) by lia.
      tauto.
Qed.

(** Events that do not count leave the counters alone. *)
Lemma quiet_trace (tr : list event) :
  Forall (fun e => counts e = false) tr ->
  batch_total tr = 0 /\ rounds_counted tr = 0
  /\ forall n r c, counter_ok n r c tr.
Proof.
  induction 1 as [|e tr He _ (IHb & IHr & IHc)];
    cbn [counter_ok rounds_counted batch_total]; [auto|].
  destruct e; try discriminate He; auto.
Qed.

Lemma quiet_class (P : event -> bool) (tr : list event) :
  (forall e, P e = true -> counts e = false) ->
  Forall (fun e => P e = true) tr ->
  Forall (fun e => counts e = false) tr.
Proof. intros HP. apply Forall_impl. exact HP. Qed.

Lemma from_propose_quiet e : from_propose e = true -> counts e = false.
Proof. destruct e; simpl; congruence. Qed.

Lemma from_files_quiet e : from_files e = true -> counts e = false.
Proof. destruct e; simpl; congruence. Qed.

Lemma from_control_quiet e : from_control e = true -> counts e = false.
Proof. destruct e; simpl; congruence. Qed.

(** What the log line at the start of a round says, and what a table
    finds, in a trace that agrees with its counters. *)
Lemma counter_ok_start (n : Z) (pre post : list event) r' c' n' :
  forall r c,
    counter_ok n r c (pre ++ EvStart r' c' n' :: post) ->
    r' = r + rounds_counted pre /\ c' = c + batch_total pre /\ c' < n.
Proof.
  intros r c H. apply counter_ok_app in H. destruct H as (_ & H).
  cbn [counter_ok] in H. lia.
Qed.

Lemma counter_ok_table (n : Z) (pre post : list event) t :
  forall r c,
    counter_ok n r c (pre ++ EvTable (Some t) :: post) ->
    c + batch_total pre < n.
Proof.
  intros r c H. apply counter_ok_app in H. destruct H as (_ & H).
  cbn [counter_ok] in H. lia.
Qed.

Lemma kwargs_after_last_document (tr : list event) :
  forall kw last,
    kwargs_after (match last with
                  | Some d => kwargs_of_document d
                  | None => kw
                  end) tr
    = match last_document tr last with
      | Some d => kwargs_of_document d
      | None => kw
      end.
Proof.
  induction tr as [|e tr IH]; intros kw last; simpl; [reflexivity|].
  destruct e; try apply IH.
  destruct doc as [[| | | | | |d]|]; try apply IH.
  apply (IH kw (Some d)).
Qed.

Lemma kwargs_after_app (tr1 tr2 : list event) :
  forall kw, kwargs_after kw (tr1 ++ tr2)
             = kwargs_after (kwargs_after kw tr1) tr2.
Proof.
  induction tr1 as [|e tr1 IH]; intros kw; simpl; [reflexivity|].
  destruct e; try apply IH.
  destruct doc as [[| | | | | |d]|]; apply IH.
Qed.

Lemma kwargs_ok_app (tr1 tr2 : list event) :
  forall kw,
    kwargs_ok kw (tr1 ++ tr2)
    <-> kwargs_ok kw tr1 /\ kwargs_ok (kwargs_after kw tr1) tr2.
Proof.
  induction tr1 as [|e tr1 IH]; intros kw; simpl; [tauto|].
  destruct e; try apply IH.
  - rewrite IH. tauto.
  - destruct doc as [[| | | | | |d]|]; apply IH.
Qed.

(** Events that neither evaluate nor read leave the keyword parameters
    in force. *)
Lemma silent_trace (tr : list event) :
  Forall (fun e => speaks e = false) tr ->
  forall kw, kwargs_ok kw tr /\ kwargs_after kw tr = kw.
Proof.
  induction 1 as [|e tr He _ IH]; intros kw; simpl; [auto|].
  destruct e; try discriminate He; apply IH.
Qed.

Lemma from_propose_silent e : from_propose e = true -> speaks e = false.
Proof. destruct e; simpl; congruence. Qed.

Lemma from_files_silent e : from_files e = true -> speaks e = false.
Proof. destruct e; simpl; congruence. Qed.

(** What an evaluation finds in a trace that keeps to the keyword
    parameters in force. *)
Lemma kwargs_ok_eval (pre post : list event) t k ry :
  forall kw,
    kwargs_ok kw (pre ++ EvEval t k ry :: post) ->
    PDict k = kwargs_after kw pre.
Proof.
  intros kw H. apply kwargs_ok_app in H. destruct H as (_ & H).
  simpl in H. tauto.
Qed.

(** Events that propose nothing. *)
Lemma no_proposals (tr : list event) :
  Forall (fun e => proposes e = false) tr -> proposed tr = [].
Proof.
  induction 1 as [|e tr He _ IH]; simpl; [reflexivity|].
  destruct e; try discriminate He; assumption.
Qed.

Lemma from_files_no_proposals e : from_files e = true -> proposes e = false.
Proof. destruct e; simpl; congruence. Qed.

Lemma from_control_no_proposals e :
  from_control e = true -> proposes e = false.
Proof. destruct e; simpl; congruence. Qed.

Lemma default_valuedb_sound (n : Z) (doc : option pyval) :
  default_valuedb n doc = true -> default_valued (PInt n) doc.
Proof.
  destruct doc as [[| | | | | |d]|]; simpl; auto.
  intros H. apply andb_prop in H. destruct H as (H & Hkill).
  apply andb_prop in H. destruct H as (Hn & Hask).
  apply negb_true_iff in Hkill, Hask.
  split; [|split; assumption].
  unfold field. destruct (dict_get "n_cores" d) as [[| |z| | | |]|];
    try discriminate Hn; [|reflexivity].
  apply Z.eqb_eq in Hn. now subst.
Qed.

Lemma reads_checked_sound (n : Z) (tr : list event) :
  reads_checked n tr = true -> reads_default_valued (PInt n) tr.
Proof.
  unfold reads_checked. intros H doc Hin.
  rewrite forallb_forall in H. apply default_valuedb_sound.
  exact (H _ Hin).
Qed.

End TraceFacts.

(** ** The stages of a round *)

(** Case analysis on the next [match] or [if] of a hypothesis. *)
Ltac break_in H :=
  match type of H with
  | context [match ?x with _ => _ end] =>
      lazymatch x with
      | context [match _ with _ => _ end] => fail
      | _ => destruct x eqn:?
      end
  end.

Ltac unfold_M H := unfold bind, ret, raise, emit, lift in H.

Ltac run_stage H :=
  unfold_M H; simpl in H; repeat (break_in H; simpl in H);
  inversion H; subst; clear H.

(** Membership in a trace given as conses and appends. *)
Ltac in_cases H :=
  match type of H with
  | In _ [] => destruct H
  | In _ (_ :: _) =>
      apply in_inv in H; destruct H as [H|H];
      [try discriminate H | in_cases H]
  | In _ (_ ++ _) =>
      apply in_app_or in H; destruct H as [H|H]; in_cases H
  | _ => idtac
  end.

(** Membership that follows from the memberships at hand. *)
Ltac in_solve := repeat (progress (simpl; rewrite ?in_app_iff)); tauto.

(** An event of the wrong class for the stage it is said to come from. *)
Ltac class_out H :=
  match type of H with
  | In _ ?evs =>
      match goal with
      | HF : Forall (fun e => _ = true) evs |- _ =>
          apply (Forall_class_In _ _ _ HF) in H; discriminate H
      end
  end.

Section StageFacts.

Variable eng : Engine.
Variable env : Env (optimizer eng).
Variable operator : Z -> option pyval -> option pyval.

(** [propose] touches no file, changes no local but the optimizer, and
    emits its own events only. *)
Lemma propose_inv (l : locals eng) (w : world eng) r w' evs :
  propose l w = (r, w', evs) ->
  w' = w
  /\ Forall (fun e => from_propose e = true) evs
  /\ forall next_x l1,
      r = Ret (next_x, l1) ->
      l1 = set_sk_optimizer (sk_optimizer l1) l /\ proposed evs = [next_x].
Proof.
  unfold propose. intros H. run_stage H; simpl;
    (split; [reflexivity|]; split; [repeat constructor|]);
    intros ? ? E; inversion E; subst;
    (split; [|reflexivity]);
    match goal with
    | |- context [set_sk_optimizer _ ?y] => destruct y; reflexivity
    end.
Qed.

Lemma build_table_inv next_x (l : locals eng) (w : world eng) r w' evs :
  build_table env next_x l w = (r, w', evs) ->
  w' = w
  /\ ((records_accepted env next_x (dimension_names eng (sk_optimizer l)) = true
       /\ r = Ret (Some {| columns := dimension_names eng (sk_optimizer l);
                           records := next_x |})
       /\ evs = [EvTable (Some {| columns := dimension_names eng (sk_optimizer l);
                                  records := next_x |})])
      \/ (records_accepted env next_x (dimension_names eng (sk_optimizer l)) = false
          /\ r = Ret None
          /\ evs = [EvTable None; EvLogException (OtherError "from_records")])).
Proof.
  unfold build_table. intros H. run_stage H; auto.
Qed.

Lemma evaluate_and_tell_inv next_x t (l : locals eng) (w : world eng)
      r w' evs :
  evaluate_and_tell env next_x t l w = (r, w', evs) ->
  w' = w /\ evaluated env next_x t l r evs.
Proof.
  unfold evaluate_and_tell, call_eval. intros H.
  destruct (eval_func_kwargs (count_round (len next_x) l)) eqn:Ekw;
    simpl in Ekw.
  7: {
    unfold_M H. simpl in H.
    destruct (eval_func env (round_ l + 1) t d) as [next_y|e] eqn:Eev.
    - destruct (tell eng next_x next_y (sk_optimizer l))
        as [[[best x] o]|e] eqn:Etell; inversion H; subst; split; auto.
      + eapply tell_returned; eauto.
      + eapply tell_raised; eauto.
    - inversion H; subst. split; auto. eapply eval_raised; eauto. }
  all: unfold_M H; inversion H; subst; split; auto;
    apply eval_unpack_failed; intros kw; congruence.
Qed.

Lemma makedirs_if_missing_inv d (w : world eng) r w' evs :
  makedirs_if_missing env d w = (r, w', evs) ->
  r = Ret tt /\ w_cfg w' = w_cfg w /\ w_pickles w' = w_pickles w
  /\ Forall (fun e => from_files e = true) evs.
Proof.
  unfold makedirs_if_missing. intros H. run_stage H; simpl;
    repeat split; repeat constructor.
Qed.

(** The checkpoint never raises and leaves the control file alone; with a
    directory it dumps the result it is given. *)
Lemma checkpoint_inv res (l : locals eng) (w : world eng) r w' evs :
  checkpoint env res l w = (r, w', evs) ->
  r = Ret tt /\ w_cfg w' = w_cfg w
  /\ Forall (fun e => from_files e = true) evs
  /\ (forall d, plots_dir l = Some d ->
                In (EvDump (path_join env d "optimizer.pkl")) evs
                /\ w_pickles w'
                   = (path_join env d "optimizer.pkl", res) :: w_pickles w).
Proof.
  unfold checkpoint. intros H.
  destruct (plots_dir l) as [d|] eqn:Ed.
  - unfold bind in H.
    destruct (makedirs_if_missing env d w) as [[rm wm] em] eqn:Em.
    apply makedirs_if_missing_inv in Em. destruct Em as (-> & Hc & Hp & Hf).
    unfold dump in H. inversion H; subst; clear H. simpl.
    repeat split; auto.
    + apply Forall_app. split; [assumption|repeat constructor].
    + inversion H; subst. apply in_or_app. right. now left.
    + inversion H; subst. now rewrite Hp.
  - unfold ret in H. inversion H; subst.
    repeat split; auto. all: discriminate.
Qed.

(** The plots leave the control file and the pickles alone; when they
    return, only [plots_dir] has changed. *)
Lemma diagnostics_inv res (l : locals eng) (w : world eng) r w' evs :
  diagnostics env res l w = (r, w', evs) ->
  w_cfg w' = w_cfg w /\ w_pickles w' = w_pickles w
  /\ Forall (fun e => from_files e = true) evs
  /\ (forall l', r = Ret l' ->
                 l' = set_plots_dir (plots_dir l') l
                 /\ (1 < n_dims res ->
                     In (EvPlotEvaluations (Ret tt)) evs
                     /\ exists ro, In (EvPlotObjective ro) evs)).
Proof.
  unfold diagnostics. intros H.
  destruct (1 <? n_dims res) eqn:En.
  - destruct (plots_dir l) as [d|] eqn:Ed.
    + unfold bind at 1 in H.
      destruct (makedirs_if_missing env (abspath env d) w)
        as [[rm wm] em] eqn:Em.
      apply makedirs_if_missing_inv in Em. destruct Em as (-> & Hc & Hp & Hf).
      run_stage H; simpl; rewrite ?Hc, ?Hp;
        repeat match goal with u : unit |- _ => destruct u end;
        (split; [reflexivity|]; split; [reflexivity|]; split;
         [apply Forall_app; split; [assumption|repeat constructor]|]);
        intros l' E; inversion E; subst;
        (split; [destruct l; reflexivity|]);
        intros _; (split; [|eexists]); apply in_or_app; right; simpl;
        eauto 10.
    + unfold raise in H. inversion H; subst.
      repeat split; auto. all: discriminate.
  - unfold ret in H. inversion H; subst.
    split; [reflexivity|]. split; [reflexivity|]. split; [constructor|].
    intros l' E. inversion E; subst.
    split; [destruct l'; reflexivity|].
    apply Z.ltb_ge in En. lia.
Qed.

(** The plots raise in three ways: no directory to plot into,
    [plot_evaluations], or [plot_objective] with anything but an
    [IndexError]. *)
Lemma diagnostics_raised res (l : locals eng) (w : world eng) e w' evs :
  diagnostics env res l w = (Raise e, w', evs) ->
  1 < n_dims res
  /\ ((plots_dir l = None /\ e = TypeError)
      \/ In (EvPlotEvaluations (Raise e)) evs
      \/ (In (EvPlotObjective (Raise e)) evs /\ is_IndexError e = false)).
Proof.
  unfold diagnostics. intros H.
  destruct (1 <? n_dims res) eqn:En; [|unfold ret in H; discriminate H].
  apply Z.ltb_lt in En. split; [assumption|].
  destruct (plots_dir l) as [d|] eqn:Ed.
  - right. unfold bind at 1 in H.
    destruct (makedirs_if_missing env (abspath env d) w)
      as [[rm wm] em] eqn:Em.
    apply makedirs_if_missing_inv in Em. destruct Em as (-> & _).
    run_stage H;
      first [ right; split; [|assumption]; apply in_or_app; right; simpl;
              now auto 10
            | left; apply in_or_app; right; simpl; now auto 10 ].
  - left. unfold raise in H. inversion H; subst. auto.
Qed.

(** What one pass through the control document comes to. *)
Lemma control_channel_inv (l : locals eng) (w : world eng) r w' evs :
  control_channel env operator l w = (r, w', evs) ->
  let doc := operator (round_ l) (w_cfg w) in
  w_pickles w' = w_pickles w /\ w_dirs w' = w_dirs w
  /\ match doc with
     | Some (PDict d) =>
         exists mid xs,
           let l' := set_control (field "n_cores" (n_cores l) d)
                                 (field "user_ask" (PBool false) d)
                                 xs (kwargs_of_document d) l in
           let d' := rewritten (n_cores l) d in
           (mid = [] \/ exists e, mid = [EvLogException e])
           /\ match cfg_dump env (round_ l) d' (Some (PDict d)) with
              | None =>
                  evs = EvRead doc :: mid
                        ++ EvWrite d'
                        :: (if truthy (field "kill" (PBool false) d)
                            then [EvKilled] else [])
                  /\ w_cfg w' = Some (PDict d')
                  /\ r = Ret (if truthy (field "kill" (PBool false) d)
                              then Stop Killed l' else Next l')
              | Some (e, rest) =>
                  evs = EvRead doc :: mid ++ [EvWriteFailed d' e]
                  /\ w_cfg w' = rest
                  /\ r = Ret (Next l')
              end
     | _ => evs = [EvRead doc] /\ w_cfg w' = doc /\ r = Ret (Next l)
     end.
Proof.
  unfold control_channel, read_cfg. intros H. cbv zeta.
  unfold bind at 1 in H.
  destruct (operator (round_ l) (w_cfg w)) as [doc|] eqn:Edoc.
  2: { unfold ret in H. inversion H; subst. simpl. auto. }
  destruct doc as [| | | | | |d].
  1-6: unfold ret in H; inversion H; subst; simpl; auto.
  rewrite (surjective_pairing (setdefault "n_cores" (n_cores l) d)) in H.
  set (d1 := snd (setdefault "n_cores" (n_cores l) d)) in *.
  rewrite (surjective_pairing (setdefault "user_ask" (PBool false) d1)) in H.
  set (d2 := snd (setdefault "user_ask" (PBool false) d1)) in *.
  rewrite (surjective_pairing (setdefault "user_range_prod" (PList []) d2))
    in H.
  set (d3 := snd (setdefault "user_range_prod" (PList []) d2)) in *.
  rewrite !setdefault_value in H.
  assert (Hua : field "user_ask" (PBool false) d1
                = field "user_ask" (PBool false) d)
    by (apply field_setdefault_other; discriminate).
  rewrite Hua in H.
  unfold bind at 1 in H.
  destruct (read_user_ranges (field "user_range_prod" (PList []) d2) l
                             (set_cfg (Some (PDict d)) w))
    as [[rx wx] ex] eqn:Ex.
  assert (Hx : exists xs, rx = Ret xs /\ wx = set_cfg (Some (PDict d)) w
                          /\ (ex = [] \/ exists e, ex = [EvLogException e])).
  { unfold read_user_ranges in Ex. run_stage Ex; eauto 10. }
  destruct Hx as (xs & -> & -> & Hmid).
  rewrite (surjective_pairing
             (read_kwargs (field "user_ask" (PBool false) d) d3)) in H.
  set (d4 := snd (read_kwargs (field "user_ask" (PBool false) d) d3)) in *.
  rewrite (surjective_pairing (setdefault "kill" (PBool false) d4)) in H.
  set (d5 := snd (setdefault "kill" (PBool false) d4)) in *.
  rewrite setdefault_value in H.
  assert (Hkw : fst (read_kwargs (field "user_ask" (PBool false) d) d3)
                = kwargs_of_document d).
  { unfold read_kwargs, kwargs_of_document.
    destruct (truthy (field "user_ask" (PBool false) d)); [|reflexivity].
    rewrite setdefault_value. unfold d3, d2, d1.
    rewrite !field_setdefault_other by discriminate. reflexivity. }
  assert (Hkill : field "kill" (PBool false) d4
                  = field "kill" (PBool false) d).
  { unfold d4, read_kwargs.
    destruct (truthy (field "user_ask" (PBool false) d)); simpl;
      unfold d3, d2, d1; rewrite !field_setdefault_other by discriminate;
      reflexivity. }
  rewrite Hkw, Hkill in H.
  assert (Hn : field "n_cores" (n_cores l) d = field "n_cores" (n_cores l) d)
    by reflexivity.
  fold (rewritten (n_cores l) d) in H.
  change (dict_set "kill" (PBool false)
                   (dict_set "user_ask" (PBool false) d5))
    with (rewritten (n_cores l) d) in H.
  unfold catch, bind, write_cfg, emit, ret in H. cbn [w_cfg set_cfg] in H.
  destruct (cfg_dump env (round_ l) (rewritten (n_cores l) d)
                     (Some (PDict d))) as [[e rest]|] eqn:Ew;
    [|destruct (truthy (field "kill" (PBool false) d)) eqn:Ek];
    inversion H; subst; clear H; simpl;
    (split; [reflexivity|]; split; [reflexivity|]);
    exists ex, xs; rewrite ?Ew, ?app_nil_r; repeat split; auto.
Qed.

Lemma round_body_inv (a : args eng) (l : locals eng) (w : world eng)
      r w' evs :
  round_body env operator a l w = (r, w', evs) ->
  round_case env operator a l w r w' evs.
Proof.
  unfold round_body. intros H.
  unfold bind at 1, emit at 1 in H.
  unfold bind at 1 in H.
  destruct (propose l w) as [[rp wp] evs_p] eqn:Ep.
  destruct (propose_inv _ _ _ _ _ Ep) as (-> & _ & _).
  destruct rp as [[next_x l1]|e].
  2: { inversion H; subst. now apply rc_ask_raised. }
  cbn [fst snd] in H. unfold bind at 1 in H.
  destruct (build_table env next_x l1 w) as [[rt wt] evs_t] eqn:Et.
  destruct (build_table_inv _ _ _ _ _ _ Et)
    as (-> & [(Hacc & -> & ->)|(Hacc & -> & ->)]).
  2: { unfold ret in H. inversion H; subst. simpl.
       eapply rc_table_failed; eauto. }
  unfold bind at 1 in H.
  destruct (evaluate_and_tell env next_x _ l1 w) as [[re we] evs_e] eqn:Ee.
  destruct (evaluate_and_tell_inv _ _ _ _ _ _ _ Ee) as (-> & Hev).
  destruct re as [[res l2]|e].
  2: { inversion H; subst. simpl. eapply rc_eval_raised; eauto. }
  cbn [fst snd] in H. unfold after_tell in H.
  destruct (PrimFloat.ltb (r_fun res) (tol a)) eqn:Eltb.
  { unfold ret in H. inversion H; subst. simpl. rewrite app_nil_r.
    eapply rc_converged; eauto. }
  unfold bind at 1 in H.
  destruct (checkpoint env _ _ w) as [[rc wc] evs_c] eqn:Ec.
  destruct (checkpoint_inv _ _ _ _ _ _ Ec) as (-> & _).
  unfold bind at 1 in H.
  destruct (diagnostics env _ _ wc) as [[rd wd] evs_d] eqn:Ed.
  destruct rd as [l4|e].
  2: { inversion H; subst. simpl.
       eapply rc_plots_raised; eauto. }
  destruct (control_channel env operator l4 wd) as [[rx wx] evs_x] eqn:Ex.
  inversion H; subst. simpl.
  eapply rc_completed; eauto.
Qed.

(** An [evaluate_and_tell] that returned has evaluated and told. *)
Lemma evaluated_returned next_x t (l : locals eng) res l2 evs :
  evaluated env next_x t l (Ret (res, l2)) evs ->
  exists kw y best xb,
    evs = [EvEval t kw (Ret y); EvTell next_x y (Ret (best, xb))]
    /\ eval_func_kwargs l = PDict kw
    /\ result l2 = Some res /\ count l2 = count l + len next_x
    /\ round_ l2 = round_ l + 1
    /\ sk_optimizer l2 = r_self res /\ plots_dir l2 = plots_dir l
    /\ n_cores l2 = n_cores l /\ user_ask l2 = user_ask l
    /\ user_next_x l2 = user_next_x l
    /\ eval_func_kwargs l2 = eval_func_kwargs l
    /\ r_fun res = best.
Proof.
  intros Hev. inversion Hev; subst. eexists _, _, _, _. repeat split.
  assumption.
Qed.

(** The events of [evaluate_and_tell] are evaluations and tells. *)
Lemma evaluated_events next_x t (l : locals eng) r evs e :
  evaluated env next_x t l r evs ->
  In e evs ->
  (exists kw ry, e = EvEval t kw ry /\ eval_func_kwargs l = PDict kw)
  \/ (exists kw y rt,
         e = EvTell next_x y rt /\ evs = [EvEval t kw (Ret y); e]
         /\ match rt with
            | Ret _ => exists v, r = Ret v
            | Raise ex => r = Raise ex
            end).
Proof.
  intros Hev Hin. destruct Hev; in_cases Hin; subst; eauto 10.
Qed.

Lemma control_channel_class (l : locals eng) (w : world eng) r w' evs :
  control_channel env operator l w = (r, w', evs) ->
  Forall (fun e => from_control e = true) evs.
Proof.
  intros H. pose proof (control_channel_inv _ _ _ _ _ H) as (_ & _ & Hdoc).
  destruct (operator (round_ l) (w_cfg w)) as [[| | | | | |d]|];
    try (destruct Hdoc as (-> & _); repeat constructor).
  destruct Hdoc as (mid & xs & Hmid & Hw).
  destruct (cfg_dump env (round_ l) _ _) as [[e rest]|];
    destruct Hw as (-> & _);
    (constructor; [reflexivity|]); apply Forall_app; (split;
      [destruct Hmid as [->|[e' ->]]; repeat constructor|]).
  - repeat constructor.
  - destruct (truthy (field "kill" (PBool false) d)); repeat constructor.
Qed.

(** A returned [tell] in the events of [evaluate_and_tell]. *)
Lemma evaluated_tell_returned next_x t (l : locals eng) r evs x y best xb :
  evaluated env next_x t l r evs ->
  In (EvTell x y (Ret (best, xb))) evs ->
  exists res l2 kw,
    r = Ret (res, l2) /\ r_fun res = best /\ r_success res = None
    /\ evs = [EvEval t kw (Ret y); EvTell x y (Ret (best, xb))]
    /\ result l2 = Some res /\ count l2 = count l + len next_x
    /\ sk_optimizer l2 = r_self res /\ plots_dir l2 = plots_dir l.
Proof.
  intros Hev Hin. destruct Hev; in_cases Hin.
  inversion Hin; subst. subst r. eexists _, _, _. repeat split.
Qed.

End StageFacts.

Arguments propose_inv {eng l w r w' evs} _.
Arguments build_table_inv {eng env next_x l w r w' evs} _.
Arguments evaluate_and_tell_inv {eng env next_x t l w r w' evs} _.
Arguments checkpoint_inv {eng env res l w r w' evs} _.
Arguments diagnostics_inv {eng env res l w r w' evs} _.
Arguments control_channel_inv {eng env operator l w r w' evs} _.
Arguments control_channel_class {eng env operator l w r w' evs} _.
Arguments round_body_inv {eng env operator a l w r w' evs} _.
Arguments evaluated_tell_returned {eng env next_x t l r evs x y best xb} _ _.
Arguments evaluated_returned {eng env next_x t l res l2 evs} _.
Arguments evaluated_events {eng env next_x t l r evs e} _ _.

(** ** The loop *)

Section LoopFacts.

Variable eng : Engine.
Variable env : Env (optimizer eng).
Variable operator : Z -> option pyval -> option pyval.

(** A loop that has made [k] passes goes on from the state they left. *)
Lemma loop_after_rounds (a : args eng) (k fuel : nat) :
  forall (l : locals eng) (w : world eng) l1 w1 evs1,
    after_rounds env operator k a l w = Some (l1, w1, evs1) ->
    loop env operator (k + fuel) a l w
    = let '(o, w2, evs2) := loop env operator fuel a l1 w1 in
      (o, w2, evs1 ++ evs2).
Proof.
  induction k as [|k IH]; intros l w l1 w1 evs1 H.
  - simpl in H. inversion H; subst. simpl.
    now destruct (loop env operator fuel a l1 w1) as [[o w2] evs2].
  - simpl in H. cbn [Nat.add]. cbn [loop].
    destruct (count l <? n_calls a); [|discriminate].
    destruct (round_body env operator a l w) as [[[[l'|s l']|e] w0] evs0];
      try discriminate.
    destruct (after_rounds env operator k a l' w0)
      as [[[l2 w2] evs2]|] eqn:E; [|discriminate].
    inversion H; subst. rewrite (IH _ _ _ _ _ E).
    destruct (loop env operator fuel a l1 w1) as [[o w3] evs3].
    now rewrite app_assoc.
Qed.

(** An exception raised in the loop is the outcome of the call. *)
Lemma skopt_optimize_raised (a : args eng) (w : world eng) l0 w0 evs0
      (k fuel : nat) l1 w1 evs1 e w2 evs2 :
  init env a w = (Ret l0, w0, evs0) ->
  after_rounds env operator k a l0 w0 = Some (l1, w1, evs1) ->
  loop env operator fuel a l1 w1 = (Raised e, w2, evs2) ->
  skopt_optimize env operator (k + fuel) a w
  = (Failed e, w2, evs0 ++ evs1 ++ evs2).
Proof.
  intros Hi Hk Hl. unfold skopt_optimize. rewrite Hi.
  rewrite (loop_after_rounds _ _ fuel _ _ _ _ _ Hk), Hl. reflexivity.
Qed.

(** The first pass of a loop whose guard holds. *)
Lemma loop_round (a : args eng) (fuel : nat) (l : locals eng) (w : world eng) :
  count l < n_calls a ->
  loop env operator (S fuel) a l w
  = match round_body env operator a l w with
    | (Ret (Next l'), w1, evs1) =>
        match loop env operator fuel a l' w1 with
        | (o, w2, evs2) => (o, w2, evs1 ++ evs2)
        end
    | (Ret (Stop s l'), w1, evs1) => (Finished s l', w1, evs1)
    | (Raise e, w1, evs1) => (Raised e, w1, evs1)
    end.
Proof.
  intros Hlt. cbn [loop].
  now replace (count l <? n_calls a) with true
    by (symmetry; apply Z.ltb_lt; assumption).
Qed.

(** C6: when [ask] raises [ValueError] in a round, whichever it is, the
    call of [skopt_optimize] ends with that exception; the round has
    logged its start, called [ask] and logged the exception, and built no
    parameter table. *)
Theorem ask_ValueError_propagates (a : args eng) (w : world eng)
        l0 w0 evs0 (k fuel : nat) l w1 evs1 :
  init env a w = (Ret l0, w0, evs0) ->
  after_rounds env operator k a l0 w0 = Some (l, w1, evs1) ->
  count l < n_calls a ->
  truthy (user_ask l) && (0 <? len (user_next_x l)) = false ->
  ask eng (n_cores l) (sk_optimizer l) = Raise ValueError ->
  let round_events :=
    [EvStart (round_ l) (count l) (n_calls a);
     EvAsk (n_cores l) (Raise ValueError);
     EvLogException ValueError] in
  skopt_optimize env operator (k + S fuel) a w
  = (Failed ValueError, w1, evs0 ++ evs1 ++ round_events)
  /\ forall t, ~ In (EvTable t) round_events.
Proof.
  intros Hi Hk Hlt Hnouser Hask round_events. split.
  - eapply skopt_optimize_raised; eauto.
    rewrite loop_round by assumption.
    unfold round_body, propose. rewrite Hnouser, Hask. reflexivity.
  - intros t [E|[E|[E|[]]]]; discriminate.
Qed.

(** The facts of a [tell] that returned. *)
Ltac tell_facts Hin pat :=
  match goal with
  | H : evaluated _ _ _ _ _ _ |- _ =>
      let HH := fresh in
      pose proof (evaluated_tell_returned H Hin) as HH; destruct HH as pat
  end.

(** The facts of the stages a round went through. *)
Ltac stage_facts :=
  repeat match goal with
    | H : propose _ _ = _ |- _ =>
        apply propose_inv in H; destruct H as (_ & ? & ?)
    | H : checkpoint _ _ _ _ = _ |- _ =>
        apply checkpoint_inv in H; destruct H as (_ & ? & ? & ?)
    | H : diagnostics _ _ _ _ = _ |- _ =>
        apply diagnostics_inv in H; destruct H as (? & ? & ? & ?)
    end.

(** C9: a round whose [tell] reports a best objective below the tolerance
    ends with that [tell]: the loop is left as converged, no file is
    touched (the pickles, the control document and the directories are as
    they were before the round), and the round has neither dumped, plotted
    nor read or written the control document. *)
Theorem converged_round_touches_no_file
        (a : args eng) (l : locals eng) (w : world eng) r w' evs
        x y best xb :
  round_body env operator a l w = (r, w', evs) ->
  In (EvTell x y (Ret (best, xb))) evs ->
  PrimFloat.ltb best (tol a) = true ->
  (exists l' pre,
      r = Ret (Stop Converged l')
      /\ evs = pre ++ [EvTell x y (Ret (best, xb))]
      /\ forall fuel,
          count l < n_calls a ->
          loop env operator (S fuel) a l w = (Finished Converged l', w, evs))
  /\ w' = w
  /\ forall e, In e evs -> from_files e = false /\ touches_control e = false.
Proof.
  intros Hround Hin Hlt.
  pose proof (round_body_inv Hround) as Hcase.
  destruct Hcase; stage_facts; in_cases Hin; try class_out Hin.
  - (* eval or tell raised *)
    tell_facts Hin ipattern:((? & ? & ? & E & _)).
    discriminate E.
  - (* converged *)
    tell_facts Hin ipattern:((rx & lx & kw & E & Hfun & _ & Hevs & _)).
    subst evs_e.
    split; [|split; [reflexivity|]].
    + eexists _, (EvStart _ _ _ :: evs_p ++ [EvTable _; EvEval _ _ _]).
      split; [reflexivity|]. split.
      * simpl. rewrite <- app_assoc. reflexivity.
      * intros fuel Hc. rewrite loop_round by assumption.
        rewrite Hround. reflexivity.
    + intros e He. in_cases He; subst; auto.
      match goal with HF : Forall _ evs_p |- _ =>
        apply (Forall_class_In _ _ _ HF) in He end.
      destruct e; try discriminate He; auto.
  - (* plots raised: the objective was not below the tolerance *)
    tell_facts Hin ipattern:((rx & lx & kw & E & Hfun & _)).
    inversion E; subst. congruence.
  - tell_facts Hin ipattern:((rx & lx & kw & E & Hfun & _)).
    inversion E; subst. congruence.
  - match goal with H : control_channel _ _ _ _ = _ |- _ =>
      apply control_channel_class in H end.
    class_out Hin.
Qed.

(** The locals a pass through the control document leaves keep the
    result and the counter. *)
Lemma control_channel_keeps (l : locals eng) (w : world eng) r w' evs :
  control_channel env operator l w = (r, w', evs) ->
  exists c, r = Ret c
            /\ result (ctl_locals c) = result l
            /\ count (ctl_locals c) = count l
            /\ round_ (ctl_locals c) = round_ l
            /\ sk_optimizer (ctl_locals c) = sk_optimizer l
            /\ plots_dir (ctl_locals c) = plots_dir l
            /\ (c = Next (ctl_locals c) \/ c = Stop Killed (ctl_locals c)).
Proof.
  intros H. pose proof (control_channel_inv H) as (_ & _ & Hdoc).
  destruct (operator (round_ l) (w_cfg w)) as [[| | | | | |d]|];
    try (destruct Hdoc as (_ & _ & ->); eexists; repeat split; auto).
  destruct Hdoc as (mid & xs & _ & Hw).
  destruct (cfg_dump env (round_ l) _ _) as [[e rest]|];
    destruct Hw as (_ & _ & ->);
    [|destruct (truthy (field "kill" (PBool false) d))];
    eexists; repeat split; auto.
Qed.

(** A pass through the control document that leaves the loop read a
    mapping with a true [kill] and wrote it back. *)
Lemma control_channel_stopped (l : locals eng) (w : world eng) s l' w' evs :
  control_channel env operator l w = (Ret (Stop s l'), w', evs) ->
  s = Killed
  /\ exists d,
      In (EvRead (Some (PDict d))) evs
      /\ truthy (field "kill" (PBool false) d) = true
      /\ In (EvWrite (rewritten (n_cores l) d)) evs
      /\ In EvKilled evs.
Proof.
  intros H. pose proof (control_channel_inv H) as (_ & _ & Hdoc).
  destruct (operator (round_ l) (w_cfg w)) as [[| | | | | |d]|];
    try (destruct Hdoc as (_ & _ & E); discriminate E).
  destruct Hdoc as (mid & xs & _ & Hw).
  destruct (cfg_dump env (round_ l) _ _) as [[e rest]|];
    [destruct Hw as (_ & _ & E); discriminate E|].
  destruct Hw as (-> & _ & E).
  destruct (truthy (field "kill" (PBool false) d)) eqn:Ek;
    [|discriminate E].
  inversion E; subst. split; [reflexivity|].
  exists d. split; [now left|]. split; [assumption|].
  split; in_solve.
Qed.

(** A pass through the control document starts with the read. *)
Lemma control_channel_reads (l : locals eng) (w : world eng) r w' evs :
  control_channel env operator l w = (r, w', evs) ->
  exists doc, In (EvRead doc) evs.
Proof.
  intros H. pose proof (control_channel_inv H) as (_ & _ & Hdoc).
  destruct (operator (round_ l) (w_cfg w)) as [[| | | | | |d]|];
    try (destruct Hdoc as (-> & _); eexists; now left).
  destruct Hdoc as (mid & xs & _ & Hw).
  destruct (cfg_dump env (round_ l) _ _) as [[e rest]|];
    destruct Hw as (-> & _); eexists; now left.
Qed.


(** A round that read the control document as a mapping went through
    [tell], the checkpoint and the plots before, and ends on the write of
    the document, done or failed. *)
Lemma round_read_mapping
      (a : args eng) (l : locals eng) (w : world eng) r w' evs d :
  round_body env operator a l w = (r, w', evs) ->
  In (EvRead (Some (PDict d))) evs ->
  exists pre res l4 mid xs x y best xb,
    let l' := set_control (field "n_cores" (n_cores l) d)
                          (field "user_ask" (PBool false) d)
                          xs (kwargs_of_document d) l4 in
    let d' := rewritten (n_cores l) d in
    match cfg_dump env (round_ l + 1) d' (Some (PDict d)) with
    | None =>
        evs = pre ++ EvRead (Some (PDict d)) :: mid
              ++ EvWrite d'
              :: (if truthy (field "kill" (PBool false) d)
                  then [EvKilled] else [])
        /\ r = Ret (if truthy (field "kill" (PBool false) d)
                    then Stop Killed l' else Next l')
        /\ w_cfg w' = Some (PDict d')
    | Some (e, rest) =>
        evs = pre ++ EvRead (Some (PDict d)) :: mid ++ [EvWriteFailed d' e]
        /\ r = Ret (Next l')
        /\ w_cfg w' = rest
    end
    /\ (mid = [] \/ exists e, mid = [EvLogException e])
    /\ In (EvTell x y (Ret (best, xb))) pre
    /\ result l4 = Some res /\ r_success res = Some false
    /\ sk_optimizer l4 = r_self res
    /\ (forall dir,
           plots_dir l = Some dir ->
           In (EvDump (path_join env dir "optimizer.pkl")) pre
           /\ lookup_pickle (path_join env dir "optimizer.pkl") (w_pickles w')
              = Some res)
    /\ (1 < n_dims res ->
        In (EvPlotEvaluations (Ret tt)) pre
        /\ exists ro, In (EvPlotObjective ro) pre)
    /\ Forall (fun e => touches_control e = false) pre.
Proof.
  intros Hround Hin.
  pose proof (round_body_inv Hround) as Hcase.
  destruct Hcase; stage_facts; in_cases Hin; try class_out Hin;
    try (match goal with H : evaluated _ _ _ _ _ _ |- _ =>
           destruct (evaluated_events H Hin)
             as [(? & ? & E & _)|(? & ? & ? & E & _)]; discriminate E end).
  match goal with H : evaluated _ _ _ _ _ _ |- _ =>
    destruct (evaluated_returned H)
      as (kw & y & best & xb & -> & _ & Hres & _ & Hrd & Hsk & Hpd & Hnc & _)
  end.
  match goal with H : forall l', Ret _ = Ret l' -> _ |- _ =>
    destruct (H _ eq_refl) as (Hl4 & Hplots) end.
  match goal with H : forall n x, Ret _ = Ret _ -> _ |- _ =>
    destruct (H _ _ eq_refl) as (Hl1 & _) end.
  match goal with H : control_channel _ _ _ _ = _ |- _ =>
    pose proof (control_channel_inv H) as (Hpk & _ & Hdoc) end.
  assert (Hn : n_cores l4 = n_cores l).
  { rewrite Hl4. simpl. rewrite Hnc, Hl1. reflexivity. }
  assert (Hround4 : round_ l4 = round_ l + 1).
  { rewrite Hl4. simpl. rewrite Hrd, Hl1. reflexivity. }
  assert (Hdir : plots_dir l3 = plots_dir l).
  { unfold l3. simpl. rewrite Hpd, Hl1. reflexivity. }
  rewrite Hn in Hdoc.
  destruct (operator (round_ l4) (w_cfg w2)) as [doc|] eqn:Edoc.
  2: { destruct Hdoc as (-> & _). in_cases Hin. }
  assert (Hd : doc = PDict d).
  { destruct doc as [| | | | | |d0];
      try (destruct Hdoc as (-> & _); in_cases Hin; congruence).
    destruct Hdoc as (mid & xs & Hmid & Hw).
    destruct (cfg_dump env (round_ l4) _ _) as [[e rest]|];
      destruct Hw as (-> & _); in_cases Hin; try congruence;
      try (destruct Hmid as [->|[e' ->]]; in_cases Hin);
      destruct (truthy (field "kill" (PBool false) d0)); in_cases Hin. }
  subst doc. destruct Hdoc as (mid & xs & Hmid & Hw).
  rewrite Hround4 in Hw.
  exists (EvStart (round_ l) (count l) (n_calls a)
          :: evs_p ++ EvTable (Some t)
          :: [EvEval t kw (Ret y); EvTell next_x y (Ret (best, xb))]
          ++ evs_c ++ evs_d),
    res', l4, mid, xs, next_x, y, best, xb.
  cbv zeta. split.
  { destruct (cfg_dump env (round_ l + 1) _ _) as [[e rest]|];
      destruct Hw as (-> & Hcfg & ->);
      (split; [|split; [reflexivity|assumption]]);
      simpl; rewrite <- !app_assoc; simpl; rewrite <- !app_assoc;
      reflexivity. }
  split; [assumption|].
  split; [in_solve|].
  split; [rewrite Hl4; reflexivity|]. split; [reflexivity|].
  split; [rewrite Hl4; simpl; rewrite Hsk; reflexivity|].
  split; [|split].
  - intros dir Hd. rewrite <- Hdir in Hd.
    match goal with H : forall d, plots_dir l3 = Some d -> _ |- _ =>
      destruct (H _ Hd) as (Hdump & Hpick) end.
    split; [in_solve|].
    rewrite Hpk.
      match goal with H : w_pickles w2 = w_pickles w1 |- _ => rewrite H end.
      rewrite Hpick. simpl. now rewrite String.eqb_refl.
  - intros Hnd. destruct (Hplots Hnd) as (Hpe & ro & Hpo).
    split; [|exists ro]; in_solve.
  - constructor; [reflexivity|].
    repeat first
      [ apply Forall_app; split
      | apply Forall_cons; [reflexivity|]
      | apply Forall_nil
      | match goal with
        | H : Forall _ ?evs |- Forall _ ?evs =>
            refine (Forall_impl _ _ H);
            intros e' He'; destruct e'; (discriminate He' || reflexivity)
        end ].
Qed.


(** C7: a round that reads the control document as a mapping writes it
    back with [user_ask] and [kill] set to false and every other field
    that was present at its read value.  When the write returns, the file
    holds that document when the round ends.  When the write raises, the
    round writes nothing and the file is as the failed write left it. *)
Theorem control_document_rewritten
        (a : args eng) (l : locals eng) (w : world eng) r w' evs d :
  round_body env operator a l w = (r, w', evs) ->
  In (EvRead (Some (PDict d))) evs ->
  exists d',
    dict_get "user_ask" d' = Some (PBool false)
    /\ dict_get "kill" d' = Some (PBool false)
    /\ (forall k v,
           k <> "user_ask" -> k <> "kill" ->
           dict_get k d = Some v -> dict_get k d' = Some v)
    /\ match cfg_dump env (round_ l + 1) d' (Some (PDict d)) with
       | None =>
           In (EvWrite d') evs /\ w_cfg w' = Some (PDict d')
       | Some (e, rest) =>
           In (EvWriteFailed d' e) evs
           /\ (forall d'', ~ In (EvWrite d'') evs)
           /\ w_cfg w' = rest
       end.
Proof.
  intros Hround Hin.
  destruct (round_read_mapping _ _ _ _ _ _ _ Hround Hin)
    as (pre & res & l4 & mid & xs & x & y & best & xb & Hw & Hmid & _
        & _ & _ & _ & _ & _ & Hpre).
  exists (rewritten (n_cores l) d).
  split; [apply rewritten_flags|]. split; [apply rewritten_flags|].
  split; [intros k v Hu Hk Hget; now apply rewritten_keeps|].
  cbv zeta in Hw.
  destruct (cfg_dump env (round_ l + 1) _ _) as [[e rest]|];
    destruct Hw as (Hevs & _ & Hcfg).
  - split; [rewrite Hevs; in_solve|]. split; [|assumption].
    intros d'' Hd''. rewrite Hevs in Hd''. in_cases Hd''.
    + rewrite Forall_forall in Hpre. apply Hpre in Hd''.
      discriminate Hd''.
    + destruct Hmid as [->|[e' ->]]; in_cases Hd''.
  - split; [rewrite Hevs; in_solve|assumption].
Qed.


Lemma evaluated_quiet next_x t (l : locals eng) r evs :
  evaluated env next_x t l r evs ->
  Forall (fun e => counts e = false) evs.
Proof. destruct 1; repeat constructor. Qed.

(** The quiet stages of a round, for the counters. *)
Ltac quiet_facts :=
  repeat match goal with
    | H : Forall (fun e => from_propose e = true) ?evs |- _ =>
        destruct (quiet_trace _ (quiet_class _ _ from_propose_quiet H))
          as (? & ? & ?); clear H
    | H : Forall (fun e => from_files e = true) ?evs |- _ =>
        destruct (quiet_trace _ (quiet_class _ _ from_files_quiet H))
          as (? & ? & ?); clear H
    | H : Forall (fun e => from_control e = true) ?evs |- _ =>
        destruct (quiet_trace _ (quiet_class _ _ from_control_quiet H))
          as (? & ? & ?); clear H
    | H : evaluated _ _ _ _ _ ?evs |- _ =>
        let Hq := fresh in
        pose proof (evaluated_quiet _ _ _ _ _ H) as Hq;
        destruct (quiet_trace _ Hq) as (? & ? & ?); clear Hq;
        first [ apply evaluated_returned in H;
                destruct H as (? & ? & ? & ? & _ & _ & _ & ? & ? & _)
              | clear H ]
    end.

(** One pass through the body agrees with the counters it starts from
    and leaves them moved by the table it built, if any. *)
Lemma round_counter (a : args eng) (l : locals eng) (w : world eng)
      rr w' evs :
  round_body env operator a l w = (rr, w', evs) ->
  count l < n_calls a ->
  counter_ok (n_calls a) (round_ l) (count l) evs
  /\ forall c, rr = Ret c ->
               count (ctl_locals c) = count l + batch_total evs
               /\ round_ (ctl_locals c) = round_ l + rounds_counted evs.
Proof.
  intros Hround Hlt.
  pose proof (round_body_inv Hround) as Hcase. clear Hround.
  destruct Hcase; stage_facts;
    try match goal with H : control_channel _ _ _ _ = _ |- _ =>
          pose proof (control_channel_class H);
          destruct (control_channel_keeps _ _ _ _ _ H)
            as (cx & -> & _ & Hcx & Hrx & _)
        end;
    try match goal with H : forall n x, Ret _ = Ret _ -> _ |- _ =>
          destruct (H _ _ eq_refl) as (Hl1 & _); clear H end;
    try match goal with H : forall l', Ret ?v = Ret l' -> _ |- _ =>
          destruct (H _ eq_refl) as (Hl4 & _); clear H end;
    quiet_facts;
    try assert (Hc1 : count l1 = count l /\ round_ l1 = round_ l)
      by (rewrite Hl1; split; reflexivity);
    try assert (Hc4 : count l4 = count l2 /\ round_ l4 = round_ l2)
      by (rewrite Hl4; split; reflexivity);
    try subst t;
    repeat (progress (cbn [counter_ok batch_total rounds_counted records];
                      rewrite ?counter_ok_app, ?batch_total_app,
                        ?rounds_counted_app));
    (split;
     [ repeat split; auto; lia
     | intros c E; inversion E; subst;
       cbn [ctl_locals set_result count round_]; lia ]).
Qed.

(** The trace of the loop agrees with the counters it starts from. *)
Lemma loop_counter (a : args eng) (fuel : nat) :
  forall (l : locals eng) (w : world eng) o w' tr,
    loop env operator fuel a l w = (o, w', tr) ->
    counter_ok (n_calls a) (round_ l) (count l) tr
    /\ forall l', outcome_locals o = Some l' ->
                  count l' = count l + batch_total tr
                  /\ round_ l' = round_ l + rounds_counted tr.
Proof.
  induction fuel as [|fuel IH]; intros l w o w' tr H; cbn [loop] in H;
    destruct (Z.ltb_spec (count l) (n_calls a)) as [Hlt|Hge];
    try (inversion H; subst; simpl; split; [trivial|];
         intros l' E; inversion E; subst; lia).
  destruct (round_body env operator a l w) as [[rr w1] evs1] eqn:Hround.
  destruct (round_counter _ _ _ _ _ _ Hround Hlt) as (Hok & Hc).
  destruct rr as [[l1|s l1]|e].
  - destruct (loop env operator fuel a l1 w1) as [[o2 w2] evs2] eqn:Hloop.
    inversion H; subst.
    destruct (IH _ _ _ _ _ Hloop) as (Hok2 & Hc2).
    destruct (Hc _ eq_refl) as (Hc1 & Hr1). simpl in Hc1, Hr1.
    rewrite counter_ok_app, batch_total_app, rounds_counted_app.
    rewrite <- Hc1, <- Hr1. split; [split; assumption|].
    intros l' E. destruct (Hc2 _ E). lia.
  - inversion H; subst. split; [assumption|].
    intros l' E. inversion E; subst. apply (Hc _ eq_refl).
  - inversion H; subst. split; [assumption|]. discriminate.
Qed.

Lemma name_dimensions_Xi (names : list string) (o : optimizer eng) :
  (forall i name o', Xi eng (set_dimension_name eng i name o') = Xi eng o') ->
  Xi eng (name_dimensions names o) = Xi eng o.
Proof.
  intros Hset. unfold name_dimensions.
  generalize (enumerate names). intros ixs. revert o.
  induction ixs as [|ix ixs IH]; intros o; simpl; [reflexivity|].
  now rewrite IH, Hset.
Qed.

(** The locals the loop starts from. *)
Lemma init_locals (a : args eng) (w : world eng) l0 w0 evs0 :
  init env a w = (Ret l0, w0, evs0) ->
  round_ l0 = 1 /\ count l0 = len (Xi eng (sk_optimizer l0))
  /\ user_ask l0 = PBool false /\ eval_func_kwargs l0 = PDict []
  /\ user_next_x l0 = []
  /\ n_cores l0 = PInt (if n_cores0 a =? 0 then cpu_count env - 1
                        else n_cores0 a)
  /\ (optimizer_pickle a = None ->
      exists o, Optimizer eng (map snd (opt_dimensions a)) (random_state a)
                          (skopt_kwargs a) (entropy env) = Ret o
                /\ sk_optimizer l0
                   = name_dimensions (map fst (opt_dimensions a)) o).
Proof.
  unfold init, load, bind, ret, lift, emit. intros H.
  destruct (optimizer_pickle a) as [path|].
  - destruct (lookup_pickle path (w_pickles w)) as [r|];
      inversion H; subst. repeat split. discriminate.
  - destruct (Optimizer eng (map snd (opt_dimensions a)) (random_state a)
                        (skopt_kwargs a) (entropy env)) as [o|e];
      inversion H; subst. repeat split. eauto.
Qed.

(** The batch of a round whose points the engine proposed: the engine was
    asked for [n_cores] points, and the table of the round holds the
    points it returned. *)
Lemma round_engine_batch (a : args eng) (l : locals eng) (w : world eng)
      rr w' evs n xs :
  round_body env operator a l w = (rr, w', evs) ->
  In (EvAsk n (Ret xs)) evs ->
  n = n_cores l
  /\ forall t, In (EvTable (Some t)) evs -> records t = xs.
Proof.
  intros Hround Hin.
  assert (Hp : forall rp wp evs_p,
             propose l w = (rp, wp, evs_p) -> In (EvAsk n (Ret xs)) evs_p ->
             n = n_cores l /\ forall x l1, rp = Ret (x, l1) -> x = xs).
  { unfold propose. intros rp wp evs_p H Hi.
    destruct (truthy (user_ask l) && (0 <? len (user_next_x l)));
      run_stage H; in_cases Hi; inversion Hi; subst;
      (split; [reflexivity|]); intros x l1 E; inversion E; reflexivity. }
  pose proof (round_body_inv Hround) as Hcase. clear Hround.
  destruct Hcase;
    match goal with H : propose _ _ = _ |- _ =>
      pose proof (Hp _ _ _ H) as Hp' end;
    stage_facts;
    try match goal with H : control_channel _ _ _ _ = _ |- _ =>
          apply control_channel_class in H end;
    in_cases Hin; try class_out Hin;
    try (match goal with H : evaluated _ _ _ _ _ _ |- _ =>
           destruct (evaluated_events H Hin)
             as [(? & ? & E & _)|(? & ? & ? & E & _)]; discriminate E end);
    destruct (Hp' Hin) as (Hn & Hx); (split; [assumption|]);
    intros t' Ht; in_cases Ht; try class_out Ht;
    try (match goal with H : evaluated _ _ _ _ _ _ |- _ =>
           destruct (evaluated_events H Ht)
             as [(? & ? & E & _)|(? & ? & ? & E & _)]; discriminate E end);
    inversion Ht; subst; simpl; apply (Hx _ _ eq_refl).
Qed.

(** The batch of a round that takes the user's batch: the table of the
    round holds the grid the locals held. *)
Lemma round_user_batch (a : args eng) (l : locals eng) (w : world eng)
      rr w' evs xs :
  round_body env operator a l w = (rr, w', evs) ->
  In (EvUserBatch xs) evs ->
  xs = map (map PInt) (user_next_x l)
  /\ forall t, In (EvTable (Some t)) evs -> records t = xs.
Proof.
  intros Hround Hin.
  assert (Hp : forall rp wp evs_p,
             propose l w = (rp, wp, evs_p) -> In (EvUserBatch xs) evs_p ->
             xs = map (map PInt) (user_next_x l)
             /\ forall x l1, rp = Ret (x, l1) -> x = xs).
  { unfold propose. intros rp wp evs_p H Hi.
    destruct (truthy (user_ask l) && (0 <? len (user_next_x l)));
      run_stage H; in_cases Hi; inversion Hi; subst;
      (split; [reflexivity|]); intros x l1 E; inversion E; reflexivity. }
  pose proof (round_body_inv Hround) as Hcase. clear Hround.
  destruct Hcase;
    match goal with H : propose _ _ = _ |- _ =>
      pose proof (Hp _ _ _ H) as Hp' end;
    stage_facts;
    try match goal with H : control_channel _ _ _ _ = _ |- _ =>
          apply control_channel_class in H end;
    in_cases Hin; try class_out Hin;
    try (match goal with H : evaluated _ _ _ _ _ _ |- _ =>
           destruct (evaluated_events H Hin)
             as [(? & ? & E & _)|(? & ? & ? & E & _)]; discriminate E end);
    destruct (Hp' Hin) as (Hn & Hx); (split; [assumption|]);
    intros t' Ht; in_cases Ht; try class_out Ht;
    try (match goal with H : evaluated _ _ _ _ _ _ |- _ =>
           destruct (evaluated_events H Ht)
             as [(? & ? & E & _)|(? & ? & ? & E & _)]; discriminate E end);
    inversion Ht; subst; simpl; apply (Hx _ _ eq_refl).
Qed.

(** C3: in every run the counter starts at the length of the observation
    history of the optimizer (0 on a fresh start, for an engine whose new
    optimizers have an empty history) and, at the start of every round and
    when the loop is left, equals that plus the sizes of the batches of
    the rounds made so far; it never decreases; a round starts only with
    the counter below [n_calls]; and after a batch the counter is below
    [n_calls] plus the size of that batch.  The batch of a round is the
    list of points the engine returned when it was asked for [n_cores]
    points, in a round that asks the engine, and the grid of the operator
    the locals hold, in a round that takes the user's batch. *)
Theorem counter_tracks_batches
        (a : args eng) (w : world eng) l0 w0 evs0 (fuel : nat) o w1 tr :
  init env a w = (Ret l0, w0, evs0) ->
  loop env operator fuel a l0 w0 = (o, w1, tr) ->
  count l0 = len (Xi eng (sk_optimizer l0))
  /\ (optimizer_pickle a = None ->
      (forall dims seed kw g o',
          Optimizer eng dims seed kw g = Ret o' -> Xi eng o' = []) ->
      (forall i name o',
          Xi eng (set_dimension_name eng i name o') = Xi eng o') ->
      count l0 = 0)
  /\ (forall pre r c n post,
         tr = pre ++ EvStart r c n :: post ->
         r = 1 + rounds_counted pre
         /\ c = count l0 + batch_total pre
         /\ c < n_calls a)
  /\ (forall pre post,
         tr = pre ++ post ->
         count l0 + batch_total pre <= count l0 + batch_total tr)
  /\ (forall pre t post,
         tr = pre ++ EvTable (Some t) :: post ->
         count l0 + batch_total (pre ++ [EvTable (Some t)])
         < n_calls a + len (records t))
  /\ (forall l', outcome_locals o = Some l' ->
                 count l' = count l0 + batch_total tr)
  /\ (forall k l w2 evs2 rr w3 evs3 n xs,
         after_rounds env operator k a l0 w0 = Some (l, w2, evs2) ->
         round_body env operator a l w2 = (rr, w3, evs3) ->
         In (EvAsk n (Ret xs)) evs3 ->
         n = n_cores l
         /\ forall t, In (EvTable (Some t)) evs3 -> records t = xs)
  /\ (forall k l w2 evs2 rr w3 evs3 xs,
         after_rounds env operator k a l0 w0 = Some (l, w2, evs2) ->
         round_body env operator a l w2 = (rr, w3, evs3) ->
         In (EvUserBatch xs) evs3 ->
         xs = map (map PInt) (user_next_x l)
         /\ forall t, In (EvTable (Some t)) evs3 -> records t = xs).
Proof.
  intros Hinit Hloop.
  destruct (init_locals _ _ _ _ _ Hinit)
    as (Hr0 & Hc0 & _ & _ & _ & _ & Hfresh).
  destruct (loop_counter _ _ _ _ _ _ _ Hloop) as (Hok & Hfinal).
  rewrite Hr0 in Hok.
  split; [assumption|]. split.
  { intros Hnone Hnew Hset. destruct (Hfresh Hnone) as (o' & Ho' & Hsk).
    rewrite Hc0, Hsk, name_dimensions_Xi by assumption.
    now rewrite (Hnew _ _ _ _ _ Ho'). }
  split.
  { intros pre r c n post ->.
    apply counter_ok_start in Hok. tauto. }
  split.
  { intros pre post ->. rewrite batch_total_app.
    pose proof (batch_total_nonneg post). lia. }
  split.
  { intros pre t post ->. apply counter_ok_table in Hok.
    rewrite batch_total_app. cbn [batch_total]. lia. }
  split.
  { intros l' E. now destruct (Hfinal _ E). }
  split.
  { intros k l w2 evs2 rr w3 evs3 n xs _ Hround Hin.
    exact (round_engine_batch _ _ _ _ _ _ _ _ Hround Hin). }
  intros k l w2 evs2 rr w3 evs3 xs _ Hround Hin.
  exact (round_user_batch _ _ _ _ _ _ _ Hround Hin).
Qed.

Lemma evaluated_kwargs next_x t (l : locals eng) r evs :
  evaluated env next_x t l r evs ->
  kwargs_ok (eval_func_kwargs l) evs
  /\ forall kw, kwargs_after kw evs = kw.
Proof. destruct 1; simpl; auto. Qed.

(** The pass through the control document sets the keyword parameters
    the trace says are in force. *)
Lemma control_channel_kwargs (l : locals eng) (w : world eng) c w' evs :
  control_channel env operator l w = (Ret c, w', evs) ->
  (forall kw, kwargs_ok kw evs)
  /\ eval_func_kwargs (ctl_locals c)
     = kwargs_after (eval_func_kwargs l) evs.
Proof.
  intros H. pose proof (control_channel_inv H) as (_ & _ & Hdoc).
  destruct (operator (round_ l) (w_cfg w)) as [[| | | | | |d]|];
    try (destruct Hdoc as (-> & _ & E); inversion E; subst; simpl; auto).
  destruct Hdoc as (mid & xs & Hmid & Hw).
  assert (Hs : exists tl,
             evs = EvRead (Some (PDict d)) :: tl
             /\ Forall (fun e => speaks e = false) tl
             /\ eval_func_kwargs (ctl_locals c) = kwargs_of_document d).
  { destruct (cfg_dump env (round_ l) _ _) as [[e rest]|];
      destruct Hw as (-> & _ & E);
      [|destruct (truthy (field "kill" (PBool false) d))];
      inversion E; subst; eexists; (split; [reflexivity|]);
      (split; [|reflexivity]); apply Forall_app;
      (split; [destruct Hmid as [->|[e' ->]]|]); repeat constructor. }
  destruct Hs as (tl & -> & Hs & Hkw).
  cbn [kwargs_ok kwargs_after].
  split; [intros kw; apply (silent_trace _ Hs)|].
  rewrite (proj2 (silent_trace _ Hs _)). exact Hkw.
Qed.

(** One pass through the body calls the evaluation routine with the
    keyword parameters it starts from and leaves those of the document
    it read, if any. *)
Lemma round_kwargs (a : args eng) (l : locals eng) (w : world eng)
      rr w' evs :
  round_body env operator a l w = (rr, w', evs) ->
  kwargs_ok (eval_func_kwargs l) evs
  /\ forall c, rr = Ret c ->
               eval_func_kwargs (ctl_locals c)
               = kwargs_after (eval_func_kwargs l) evs.
Proof.
  intros Hround.
  pose proof (round_body_inv Hround) as Hcase. clear Hround.
  destruct Hcase; stage_facts;
    try match goal with H : forall n x, Ret _ = Ret _ -> _ |- _ =>
          destruct (H _ _ eq_refl) as (Hl1 & _); clear H end;
    try match goal with H : forall l', Ret ?v = Ret l' -> _ |- _ =>
          destruct (H _ eq_refl) as (Hl4 & _); clear H end;
    repeat match goal with
      | H : Forall (fun e => from_propose e = true) ?evs |- _ =>
          assert (forall kw, kwargs_ok kw evs)
            by (intro; apply silent_trace;
                exact (Forall_impl _ from_propose_silent H));
          assert (forall kw, kwargs_after kw evs = kw)
            by (intro; apply silent_trace;
                exact (Forall_impl _ from_propose_silent H));
          clear H
      | H : Forall (fun e => from_files e = true) ?evs |- _ =>
          assert (forall kw, kwargs_ok kw evs)
            by (intro; apply silent_trace;
                exact (Forall_impl _ from_files_silent H));
          assert (forall kw, kwargs_after kw evs = kw)
            by (intro; apply silent_trace;
                exact (Forall_impl _ from_files_silent H));
          clear H
      end;
    try assert (Hk1 : eval_func_kwargs l1 = eval_func_kwargs l)
      by (rewrite Hl1; reflexivity);
    try match goal with H : evaluated _ _ _ _ _ _ |- _ =>
          destruct (evaluated_kwargs _ _ _ _ _ H) as (Hke & Hae);
          rewrite Hk1 in Hke;
          try (destruct (evaluated_returned H)
                as (? & ? & ? & ? & _ & _ & _ & _ & _ & _ & _ & _ & _ & _
                    & Hk2 & _))
        end;
    try assert (Hk4 : eval_func_kwargs l4 = eval_func_kwargs l)
      by (rewrite Hl4; simpl; congruence);
    try match goal with H : control_channel _ _ _ _ = (?rr, _, _) |- _ =>
          destruct (control_channel_keeps _ _ _ _ _ H) as (cx & -> & _);
          destruct (control_channel_kwargs _ _ _ _ _ H) as (Hkx & Hax);
          rewrite Hk4 in Hax
        end;
    repeat (progress (cbn [kwargs_ok kwargs_after app];
                      rewrite ?kwargs_ok_app, ?kwargs_after_app));
    repeat match goal with
      | H : forall kw, kwargs_after kw ?evs = kw |- _ =>
          progress rewrite !H
      end;
    (split; [repeat split; auto|]);
    intros c E; inversion E; subst; cbn [ctl_locals];
    try assumption; simpl; congruence.
Qed.

(** The trace of the loop keeps to the keyword parameters in force. *)
Lemma loop_kwargs (a : args eng) (fuel : nat) :
  forall (l : locals eng) (w : world eng) o w' tr,
    loop env operator fuel a l w = (o, w', tr) ->
    kwargs_ok (eval_func_kwargs l) tr.
Proof.
  induction fuel as [|fuel IH]; intros l w o w' tr H; cbn [loop] in H;
    destruct (count l <? n_calls a);
    try (inversion H; subst; exact I).
  destruct (round_body env operator a l w) as [[rr w1] evs1] eqn:Hround.
  destruct (round_kwargs _ _ _ _ _ _ Hround) as (Hok & Hc).
  destruct rr as [[l1|s l1]|e]; try (inversion H; subst; assumption).
  destruct (loop env operator fuel a l1 w1) as [[o2 w2] evs2] eqn:Hloop.
  inversion H; subst. rewrite kwargs_ok_app. split; [assumption|].
  rewrite <- (Hc _ eq_refl). exact (IH _ _ _ _ _ Hloop).
Qed.

(** C10: every call of the evaluation routine gets the keyword parameters
    of the last control document read as a mapping before it: the
    [eval_func_kwargs] of that document when its [user_ask] is true, none
    when it is false, and none before the first such read. *)
Theorem eval_kwargs_follow_user_ask
        (a : args eng) (w : world eng) l0 w0 evs0 (fuel : nat) o w1 tr :
  init env a w = (Ret l0, w0, evs0) ->
  loop env operator fuel a l0 w0 = (o, w1, tr) ->
  forall pre t kw ry post,
    tr = pre ++ EvEval t kw ry :: post ->
    PDict kw = kwargs_in_force pre
    /\ (last_document pre None = None -> kw = [])
    /\ (forall d,
           last_document pre None = Some d ->
           truthy (field "user_ask" (PBool false) d) = false ->
           kw = [])
    /\ (kw <> [] ->
        exists d,
          last_document pre None = Some d
          /\ truthy (field "user_ask" (PBool false) d) = true
          /\ field "eval_func_kwargs" (PDict []) d = PDict kw).
Proof.
  intros Hinit Hloop pre t kw ry post ->.
  destruct (init_locals _ _ _ _ _ Hinit) as (_ & _ & _ & Hkw0 & _).
  pose proof (loop_kwargs _ _ _ _ _ _ _ Hloop) as Hok.
  rewrite Hkw0 in Hok. apply kwargs_ok_eval in Hok.
  pose proof (kwargs_after_last_document pre (PDict []) None) as Hlast.
  cbv beta iota in Hlast. rewrite Hlast in Hok.
  unfold kwargs_in_force. split; [assumption|].
  destruct (last_document pre None) as [d|].
  - unfold kwargs_of_document in Hok.
    destruct (truthy (field "user_ask" (PBool false) d)) eqn:Hask.
    + split; [discriminate|].
      split; [intros d0 E; inversion E; subst; congruence|].
      intros _. exists d. auto.
    + inversion Hok; subst.
      split; [reflexivity|]. split; [reflexivity|]. congruence.
  - inversion Hok; subst.
    split; [reflexivity|]. split; [discriminate|]. congruence.
Qed.

End LoopFacts.

Lemma ask_ValueError_propagates_witness :
  skopt_optimize Toy.env_single_core no_control_file 1 (Toy.args_auto 10)
                 Toy.empty_world
  = (Failed ValueError, Toy.empty_world,
     [EvStart 1 0 10; EvAsk (PInt 0) (Raise ValueError);
      EvLogException ValueError]).
Proof.
  exact (proj1 (@ask_ValueError_propagates
                  Toy.engine Toy.env_single_core no_control_file
                  (Toy.args_auto 10) Toy.empty_world _ _ _ 0%nat 0%nat _ _ _
                  eq_refl eq_refl eq_refl eq_refl eq_refl)).
Defined.

Section RunFacts.

Variable eng : Engine.
Variable env : Env (optimizer eng).

Lemma bind_run {A B} (m : M eng A) (k : A -> M eng B) w a w1 e1 r w2 e2 :
  m w = (Ret a, w1, e1) ->
  k a w1 = (r, w2, e2) ->
  bind m k w = (r, w2, e1 ++ e2).
Proof. intros Hm Hk. unfold bind. now rewrite Hm, Hk. Qed.

Lemma bind_raise {A B} (m : M eng A) (k : A -> M eng B) w e w1 e1 :
  m w = (Raise e, w1, e1) ->
  bind m k w = (Raise e, w1, e1).
Proof. intros Hm. unfold bind. now rewrite Hm. Qed.

(** [evaluated] says what [evaluate_and_tell] computes. *)
Lemma evaluated_run {next_x t} {l : locals eng} {r evs} :
  evaluated env next_x t l r evs ->
  forall w, evaluate_and_tell env next_x t l w = (r, w, evs).
Proof.
  intros Hev w. unfold evaluate_and_tell, call_eval.
  destruct Hev as [Hkw|kw e Hkw He|kw y e Hkw He Ht|kw y best x o Hkw He Ht];
    cbn [count_round eval_func_kwargs round_ sk_optimizer count].
  - destruct (eval_func_kwargs l) as [| | | | | |d];
      try reflexivity.
    now destruct (Hkw d).
  - rewrite Hkw. unfold bind, emit, lift, raise. now rewrite He.
  - rewrite Hkw. unfold bind, emit, lift, raise. now rewrite He, Ht.
  - rewrite Hkw. unfold bind, emit, lift, ret. now rewrite He, Ht.
Qed.

Lemma files_no_proposals (evs : list event) :
  Forall (fun e => from_files e = true) evs -> proposed evs = [].
Proof.
  intros H. apply no_proposals.
  exact (Forall_impl _ from_files_no_proposals H).
Qed.

(** [init] leaves the files alone, proposes nothing, and starts the loop
    untouched. *)
Lemma init_untouched {a : args eng} {w : world eng} {r w0 evs0} :
  init env a w = (r, w0, evs0) ->
  w0 = w
  /\ proposed evs0 = []
  /\ forall l0,
      r = Ret l0 ->
      forget_user l0 = l0
      /\ untouched (PInt (if n_cores0 a =? 0 then cpu_count env - 1
                          else n_cores0 a)) l0.
Proof.
  unfold init, load, bind, ret, lift, emit.
  destruct (optimizer_pickle a) as [path|].
  - destruct (lookup_pickle path (w_pickles w)) as [res|];
      intros H; inversion H; subst;
      (split; [reflexivity|]; split; [reflexivity|]);
      intros l0 E; inversion E; subst; repeat split.
  - destruct (Optimizer eng (map snd (opt_dimensions a)) (random_state a)
                        (skopt_kwargs a) (entropy env)) as [o|e];
      intros H; inversion H; subst;
      (split; [reflexivity|]; split; [reflexivity|]);
      intros l0 E; inversion E; subst; repeat split.
Qed.

Lemma control_channel_absent (l : locals eng) (w : world eng) :
  control_channel env no_control_file l w
  = (Ret (Next l), forget_cfg w, [EvRead None]).
Proof. reflexivity. Qed.

End RunFacts.

Arguments bind_run {eng A B m k w a w1 e1 r w2 e2} _ _.
Arguments bind_raise {eng A B m k w e w1 e1} _.

Lemma same_collaborators_refl {O} (e : Env O) : same_collaborators e e.
Proof. repeat split. Qed.

Lemma same_collaborators_sym {O} (e1 e2 : Env O) :
  same_collaborators e1 e2 -> same_collaborators e2 e1.
Proof.
  intros (H1 & H2 & H3 & H4 & H5 & H6 & H7).
  repeat split; intros; symmetry; auto.
Qed.

(** ** Runs without operator overrides *)

Section Determinism.

Variable eng : Engine.

(** The environment of a run, and an environment with the same
    collaborators for the same run without a control file. *)
Variables env env2 : Env (optimizer eng).
Hypothesis Hsame : same_collaborators env env2.

Lemma evaluated_forget {next_x t} {l : locals eng} {r evs} :
  evaluated env next_x t l r evs ->
  evaluated env2 next_x t (forget_user l)
            (match r with
             | Ret (res, l2) => Ret (res, forget_user l2)
             | Raise e => Raise e
             end) evs.
Proof.
  destruct Hsame as (_ & Heval & _).
  destruct 1 as [Hkw|kw e Hkw He|kw y e Hkw He Ht|kw y best x o Hkw He Ht];
    try rewrite Heval in He.
  - now apply eval_unpack_failed.
  - now apply eval_raised.
  - now apply tell_raised.
  - exact (@tell_returned eng env2 next_x t (forget_user l) kw y best x o
                          Hkw He Ht).
Qed.

Lemma propose_forget {l : locals eng} {w : world eng} (w2 : world eng)
      {r evs} :
  truthy (user_ask l) = false ->
  propose l w = (r, w, evs) ->
  propose (forget_user l) w2
  = (match r with
     | Ret (x, l1) => Ret (x, forget_user l1)
     | Raise e => Raise e
     end, w2, evs).
Proof.
  intros Hask. unfold propose.
  cbn [forget_user set_control user_ask user_next_x n_cores sk_optimizer
       truthy andb].
  rewrite Hask. cbn [andb].
  destruct (ask eng (n_cores l) (sk_optimizer l)) as [[x o]|e];
    unfold bind, emit, ret, raise; intros H.
  - inversion H; subst. reflexivity.
  - destruct (is_ValueError e); inversion H; subst; reflexivity.
Qed.

(** The checkpoint and the plots come to the same whatever the files
    are; only the directories made differ. *)
Lemma checkpoint_forget {res} {l : locals eng} {w : world eng} {r w' evs}
      (w2 : world eng) :
  checkpoint env res l w = (r, w', evs) ->
  exists w2' evs',
    checkpoint env2 res (forget_user l) w2 = (r, w2', evs').
Proof.
  unfold checkpoint. cbn [forget_user set_control plots_dir].
  destruct (plots_dir l) as [d|].
  - unfold bind, makedirs_if_missing, dump.
    destruct (path_exists env d w); destruct (path_exists env2 d w2);
      intros H; inversion H; subst; eexists _, _; reflexivity.
  - unfold ret. intros H. inversion H; subst. eexists _, _. reflexivity.
Qed.

Lemma diagnostics_forget {res} {l : locals eng} {w : world eng}
      {r w' evs} (w2 : world eng) :
  diagnostics env res l w = (r, w', evs) ->
  exists w2' evs',
    diagnostics env2 res (forget_user l) w2
    = (match r with
       | Ret l' => Ret (forget_user l')
       | Raise e => Raise e
       end, w2', evs').
Proof.
  destruct Hsame as (_ & _ & _ & Hpe & Hpo & Habs & _).
  unfold diagnostics. cbn [forget_user set_control plots_dir round_].
  destruct (1 <? n_dims res).
  2: { unfold ret. intros H. inversion H; subst. eexists _, _.
       reflexivity. }
  destruct (plots_dir l) as [d|].
  2: { unfold raise. intros H. inversion H; subst. eexists _, _.
       reflexivity. }
  unfold bind, makedirs_if_missing, emit, lift, ret, raise.
  rewrite <- !Hpe, <- !Hpo, <- !Habs.
  destruct (path_exists env (abspath env d) w);
    destruct (path_exists env2 (abspath env d) w2);
    destruct (plot_evaluations env (round_ l) res);
    try (intros H; inversion H; subst; eexists _, _; reflexivity);
    destruct (plot_objective env (round_ l) res) as [u|e];
    try (intros H; inversion H; subst; eexists _, _; reflexivity);
    destruct (is_IndexError e);
    intros H; inversion H; subst; eexists _, _; reflexivity.
Qed.

(** A default-valued read leaves the locals untouched and the loop
    running, whether or not the document can be written back. *)
Lemma control_channel_default {operator n} {l : locals eng}
      {w : world eng} {r w' evs} :
  untouched n l ->
  control_channel env operator l w = (r, w', evs) ->
  reads_default_valued n evs ->
  exists l', r = Ret (Next l')
             /\ untouched n l'
             /\ forget_user l' = forget_user l
             /\ proposed evs = [].
Proof.
  intros (Hask & Hkw & Hn) H Hdef.
  pose proof (control_channel_class H) as Hclass.
  pose proof (control_channel_inv H) as (_ & _ & Hdoc).
  assert (Hp : proposed evs = []).
  { apply no_proposals.
    exact (Forall_impl _ from_control_no_proposals Hclass). }
  destruct (operator (round_ l) (w_cfg w)) as [[| | | | | |d]|];
    try (destruct Hdoc as (_ & _ & ->); exists l;
         repeat split; assumption).
  destruct Hdoc as (mid & xs & _ & Hw).
  assert (Hd : default_valued n (Some (PDict d))).
  { apply Hdef.
    destruct (cfg_dump env (round_ l) _ _) as [[e rest]|];
      destruct Hw as (-> & _); now left. }
  destruct Hd as (Hdn & Hdask & Hdkill). rewrite Hdkill in Hw.
  assert (Hr : r = Ret (Next (set_control (field "n_cores" (n_cores l) d)
                                          (field "user_ask" (PBool false) d)
                                          xs (kwargs_of_document d) l))).
  { destruct (cfg_dump env (round_ l) _ _) as [[e rest]|];
      destruct Hw as (_ & _ & ->); reflexivity. }
  eexists. split; [exact Hr|].
  rewrite Hn. rewrite Hdn.
  unfold kwargs_of_document. rewrite Hdask.
  repeat split; try assumption.
  unfold forget_user. simpl. now rewrite Hkw, Hn.
Qed.

Lemma untouched_after_propose {n} {l l1 : locals eng} :
  untouched n l -> l1 = set_sk_optimizer (sk_optimizer l1) l ->
  untouched n l1.
Proof. intros H ->. exact H. Qed.

(** A round with a default-valued read proposes what the same round
    proposes without a control file, whatever the files are. *)
Lemma round_forget {operator n} {a : args eng} {l : locals eng}
      {w : world eng} {r w' evs} (w2 : world eng) :
  untouched n l ->
  round_body env operator a l w = (r, w', evs) ->
  reads_default_valued n evs ->
  exists w2' evs',
    round_body env2 no_control_file a (forget_user l) w2
    = (match r with
       | Ret c => Ret (forget_ctl c)
       | Raise e => Raise e
       end, w2', evs')
    /\ proposed evs' = proposed evs
    /\ forall c, r = Ret c -> untouched n (ctl_locals c).
Proof.
  intros Hun Hround Hdef.
  pose proof (round_body_inv Hround) as Hcase. clear Hround.
  assert (Hask : truthy (user_ask l) = false) by apply Hun.
  assert (Hrec : forall xs ns,
             records_accepted env2 xs ns = records_accepted env xs ns).
  { destruct Hsame as (_ & _ & Hr & _). intros. symmetry. apply Hr. }
  destruct Hcase as
    [ e evs_p Hp
    | next_x l1 evs_p Hp Hacc
    | next_x l1 evs_p e evs_e Hp Hacc t Hev
    | next_x l1 evs_p res l2 evs_e Hp Hacc t Hev Hlt
    | next_x l1 evs_p res l2 evs_e w1 evs_c e w2c evs_d Hp Hacc t Hev Hlt
        res' l3 Hc Hd
    | next_x l1 evs_p res l2 evs_e w1 evs_c l4 w2c evs_d r w' evs_x Hp Hacc t
        Hev Hlt res' l3 Hc Hd Hx ];
    pose proof (propose_forget w2 Hask Hp) as Hpf;
    pose proof (propose_inv Hp) as (_ & _ & Hl1).
  - eexists _, _.
    split; [unfold round_body; eapply bind_run; [reflexivity|];
            eapply bind_raise; exact Hpf|].
    split; [reflexivity|discriminate].
  - eexists _, _. split.
    { unfold round_body. eapply bind_run; [reflexivity|].
      eapply bind_run; [exact Hpf|].
      cbn [fst snd]. unfold build_table at 1.
      cbn [forget_user set_control sk_optimizer]. rewrite Hrec, Hacc.
      reflexivity. }
    split; [reflexivity|].
    destruct (Hl1 _ _ eq_refl) as (Hl1' & _).
    intros c E. inversion E; subst c.
    exact (untouched_after_propose Hun Hl1').
  - eexists _, _. split.
    { unfold round_body. eapply bind_run; [reflexivity|].
      eapply bind_run; [exact Hpf|].
      cbn [fst snd]. unfold build_table at 1.
      cbn [forget_user set_control sk_optimizer]. rewrite Hrec, Hacc.
      eapply bind_run; [reflexivity|].
      eapply bind_raise.
      exact (evaluated_run eng env2 (evaluated_forget Hev) _). }
    split; [reflexivity|discriminate].
  - eexists _, _. split.
    { unfold round_body. eapply bind_run; [reflexivity|].
      eapply bind_run; [exact Hpf|].
      cbn [fst snd]. unfold build_table at 1.
      cbn [forget_user set_control sk_optimizer]. rewrite Hrec, Hacc.
      eapply bind_run; [reflexivity|].
      eapply bind_run;
        [exact (evaluated_run eng env2 (evaluated_forget Hev) _)|].
      cbn [fst snd]. unfold after_tell. rewrite Hlt. reflexivity. }
    split; [rewrite ?app_nil_r; reflexivity|].
    destruct (Hl1 _ _ eq_refl) as (Hl1' & _).
    destruct (untouched_after_propose Hun Hl1') as (U1 & U2 & U3).
    destruct (evaluated_returned Hev)
      as (kw & y & best & xb & _ & _ & _ & _ & _ & _ & _ & Hn2 & Ha2 & _
          & Hk2 & _).
    intros c E. inversion E; subst c.
    repeat split; simpl; congruence.
  - destruct (checkpoint_forget w2 Hc) as (wc & evs_c' & Hc').
    destruct (diagnostics_forget wc Hd) as (wd & evs_d' & Hd').
    eexists _, _. split.
    { unfold round_body. eapply bind_run; [reflexivity|].
      eapply bind_run; [exact Hpf|].
      cbn [fst snd]. unfold build_table at 1.
      cbn [forget_user set_control sk_optimizer]. rewrite Hrec, Hacc.
      eapply bind_run; [reflexivity|].
      eapply bind_run;
        [exact (evaluated_run eng env2 (evaluated_forget Hev) _)|].
      cbn [fst snd]. unfold after_tell. rewrite Hlt.
      eapply bind_run; [exact Hc'|].
      eapply bind_raise. exact Hd'. }
    split; [|discriminate].
    pose proof (checkpoint_inv Hc) as (_ & _ & Hfc & _).
    pose proof (checkpoint_inv Hc') as (_ & _ & Hfc' & _).
    pose proof (diagnostics_inv Hd) as (_ & _ & Hfd & _).
    pose proof (diagnostics_inv Hd') as (_ & _ & Hfd' & _).
    cbn [proposed app]. rewrite !proposed_app. cbn [proposed].
    rewrite !proposed_app.
    rewrite (files_no_proposals _ Hfc), (files_no_proposals _ Hfc'),
      (files_no_proposals _ Hfd), (files_no_proposals _ Hfd').
    reflexivity.
  - destruct (Hl1 _ _ eq_refl) as (Hl1' & _).
    destruct (untouched_after_propose Hun Hl1') as (U1 & U2 & U3).
    destruct (evaluated_returned Hev)
      as (kw & y & best & xb & _ & _ & _ & _ & _ & _ & _ & Hn2 & Ha2 & _
          & Hk2 & _).
    pose proof (diagnostics_inv Hd) as (_ & _ & Hfd & Hl4).
    destruct (Hl4 _ eq_refl) as (Hl4' & _).
    assert (Hun4 : untouched n l4).
    { rewrite Hl4'. repeat split; simpl; congruence. }
    assert (Hdefx : reads_default_valued n evs_x).
    { intros doc Hin. apply Hdef. in_solve. }
    destruct (control_channel_default Hun4 Hx Hdefx)
      as (l' & E & Hun' & Hfl & Hpx).
    destruct (checkpoint_forget w2 Hc) as (wc & evs_c' & Hc').
    destruct (diagnostics_forget wc Hd) as (wd & evs_d' & Hd').
    eexists _, _. split.
    { unfold round_body. eapply bind_run; [reflexivity|].
      eapply bind_run; [exact Hpf|].
      cbn [fst snd]. unfold build_table at 1.
      cbn [forget_user set_control sk_optimizer]. rewrite Hrec, Hacc.
      eapply bind_run; [reflexivity|].
      eapply bind_run;
        [exact (evaluated_run eng env2 (evaluated_forget Hev) _)|].
      cbn [fst snd]. unfold after_tell. rewrite Hlt.
      eapply bind_run; [exact Hc'|].
      eapply bind_run; [exact Hd'|].
      rewrite control_channel_absent. rewrite E. cbn [forget_ctl].
      rewrite Hfl. reflexivity. }
    split.
    + pose proof (checkpoint_inv Hc) as (_ & _ & Hfc & _).
      pose proof (checkpoint_inv Hc') as (_ & _ & Hfc' & _).
      pose proof (diagnostics_inv Hd') as (_ & _ & Hfd' & _).
      cbn [proposed app]. rewrite !proposed_app. cbn [proposed].
      rewrite !proposed_app. cbn [proposed].
      rewrite (files_no_proposals _ Hfc), (files_no_proposals _ Hfc'),
        (files_no_proposals _ Hfd), (files_no_proposals _ Hfd'), Hpx.
      reflexivity.
    + intros c Ec. rewrite E in Ec. inversion Ec; subst c. exact Hun'.
Qed.

Lemma reads_default_valued_app n (tr1 tr2 : list event) :
  reads_default_valued n (tr1 ++ tr2) ->
  reads_default_valued n tr1 /\ reads_default_valued n tr2.
Proof.
  intros H. split; intros doc Hin; apply H; apply in_or_app; auto.
Qed.

(** A loop whose reads are all default-valued proposes what the same loop
    proposes without a control file, and ends as it does. *)
Lemma loop_forget operator n (a : args eng) (fuel : nat) :
  forall (l : locals eng) (w : world eng) o w' tr (w2 : world eng),
    untouched n l ->
    loop env operator fuel a l w = (o, w', tr) ->
    reads_default_valued n tr ->
    exists w2' tr',
      loop env2 no_control_file fuel a (forget_user l) w2
      = (forget_outcome o, w2', tr')
      /\ proposed tr' = proposed tr.
Proof.
  induction fuel as [|fuel IH]; intros l w o w' tr w2 Hun H Hdef;
    cbn [loop] in H |- *;
    cbn [forget_user set_control count];
    destruct (count l <? n_calls a);
    try (inversion H; subst; eexists _, _; split; reflexivity).
  destruct (round_body env operator a l w) as [[rr w1] evs1] eqn:Hround.
  destruct rr as [[l1|s l1]|e].
  - destruct (loop env operator fuel a l1 w1) as [[o2 w3] evs2] eqn:Hloop.
    inversion H; subst.
    apply reads_default_valued_app in Hdef. destruct Hdef as (Hd1 & Hd2).
    destruct (round_forget w2 Hun Hround Hd1)
      as (w2a & evs1' & Hr' & Hp1 & Hun1).
    destruct (IH _ _ _ _ _ w2a (Hun1 _ eq_refl) Hloop Hd2)
      as (w2b & evs2' & Hl' & Hp2).
    cbn [ctl_locals] in Hl'.
    rewrite Hr'. cbn [forget_ctl]. rewrite Hl'.
    eexists _, _. split; [reflexivity|].
    now rewrite !proposed_app, Hp1, Hp2.
  - inversion H; subst.
    destruct (round_forget w2 Hun Hround Hdef)
      as (w2a & evs1' & Hr' & Hp1 & _).
    rewrite Hr'. cbn [forget_ctl].
    eexists _, _. split; [reflexivity|assumption].
  - inversion H; subst.
    destruct (round_forget w2 Hun Hround Hdef)
      as (w2a & evs1' & Hr' & Hp1 & _).
    rewrite Hr'.
    eexists _, _. split; [reflexivity|assumption].
Qed.

Lemma finish_forget {a : args eng} {l : locals eng} {w : world eng}
      (w2 : world eng) {r w' evs} :
  finish a l w = (r, w', evs) ->
  w' = w
  /\ finish a (forget_user l) w2 = (r, w2, evs)
  /\ proposed evs = [].
Proof.
  unfold finish, bind, emit, ret, raise.
  cbn [forget_user set_control result count].
  destruct (result l) as [res|]; [|intros H; inversion H; subst; auto].
  destruct ((1 <? n_dims res) && plots_show a);
    intros H; inversion H; subst; auto.
Qed.

(** A call whose reads are all default-valued proposes what the same
    call proposes without a control file, started from the same locals
    on whatever files, and comes to the same. *)
Lemma skopt_optimize_forget {operator} {a : args eng} {fuel : nat}
      {w : world eng} {o w' tr} (w2 : world eng) :
  skopt_optimize env operator fuel a w = (o, w', tr) ->
  reads_default_valued
    (PInt (if n_cores0 a =? 0 then cpu_count env - 1 else n_cores0 a)) tr ->
  fst (fst (init env2 a w2)) = fst (fst (init env a w)) ->
  exists w2' tr',
    skopt_optimize env2 no_control_file fuel a w2 = (o, w2', tr')
    /\ proposed tr' = proposed tr.
Proof.
  unfold skopt_optimize. intros H Hdef Hsame_init.
  destruct (init env a w) as [[r0 w0] evs0] eqn:Hinit.
  destruct (init env2 a w2) as [[r0' w0'] evs0'] eqn:Hinit'.
  cbn [fst] in Hsame_init. subst r0'.
  destruct (init_untouched _ _ Hinit) as (-> & Hp0 & Hl0).
  destruct (init_untouched _ _ Hinit') as (-> & Hp0' & _).
  destruct r0 as [l0|e].
  2: { inversion H; subst. eexists _, _. split; [reflexivity|].
       congruence. }
  destruct (Hl0 _ eq_refl) as (Hf0 & Hun0).
  destruct (loop env operator fuel a l0 w) as [[o1 w1] evs1] eqn:Hloop.
  assert (Hd1 : reads_default_valued
                  (PInt (if n_cores0 a =? 0 then cpu_count env - 1
                         else n_cores0 a)) evs1).
  { destruct o1 as [s l|e|l];
      [destruct (finish a l w1) as [[[r|e] w3] evs2]| |];
      inversion H; subst;
      apply reads_default_valued_app in Hdef; destruct Hdef as (_ & Hdef);
      try apply reads_default_valued_app in Hdef; tauto. }
  destruct (loop_forget operator _ a fuel _ _ _ _ _ w2 Hun0 Hloop Hd1)
    as (w2a & evs1' & Hl' & Hp1).
  rewrite Hf0 in Hl'. rewrite Hl'.
  destruct o1 as [s l|e|l]; cbn [forget_outcome].
  - destruct (finish a l w1) as [[rf w3] evs2] eqn:Hfin.
    destruct (finish_forget w2a Hfin) as (-> & Hf' & Hp2).
    rewrite Hf'.
    destruct rf as [r|e]; inversion H; subst;
      (eexists _, _; split; [reflexivity|]);
      now rewrite !proposed_app, Hp1, Hp0, Hp0'.
  - inversion H; subst. eexists _, _. split; [reflexivity|].
    now rewrite !proposed_app, Hp1, Hp0, Hp0'.
  - inversion H; subst. eexists _, _. split; [reflexivity|].
    now rewrite !proposed_app, Hp1, Hp0, Hp0'.
Qed.

End Determinism.

(** Two calls start the loop from the same locals when the engine is
    built from the same seed, or loaded from the same pickle. *)
Lemma init_agree (eng : Engine) (envA envB : Env (optimizer eng))
      (a : args eng) (s : Z) (wA wB : world eng) :
  cpu_count envA = cpu_count envB ->
  random_state a = Some s ->
  (forall dims kw g1 g2,
      Optimizer eng dims (Some s) kw g1 = Optimizer eng dims (Some s) kw g2) ->
  (forall path,
      optimizer_pickle a = Some path ->
      lookup_pickle path (w_pickles wA) = lookup_pickle path (w_pickles wB)) ->
  fst (fst (init envA a wA)) = fst (fst (init envB a wB)).
Proof.
  intros Hcpu Hseed Hsown Hpk. unfold init, load, bind, ret, lift, emit.
  rewrite Hcpu.
  destruct (optimizer_pickle a) as [path|].
  - rewrite (Hpk _ eq_refl).
    destruct (lookup_pickle path (w_pickles wB)); reflexivity.
  - rewrite Hseed, (Hsown _ _ (entropy envA) (entropy envB)).
    destruct (Optimizer eng (map snd (opt_dimensions a)) (Some s)
                        (skopt_kwargs a) (entropy envB)); reflexivity.
Qed.


(** ** The theorems at work on the grid engine *)





(** C7, as the specification states it, fails: a control file that can be
    read but not written.  The round reads the document as a mapping and
    writes nothing; the file still holds the document with its true
    [kill]. *)
Lemma unwritable_document_keeps_flags :
  let out := round_body Samples.env_read_only Toy.idle_operator
                        (Toy.args_x 10 (Some "out")) (Toy.start 0)
                        (Toy.world_with (PDict Toy.kill_document)) in
  In (EvRead (Some (PDict Toy.kill_document))) (snd out)
  /\ (forall d', ~ In (EvWrite d') (snd out))
  /\ w_cfg (snd (fst out)) = Some (PDict Toy.kill_document)
  /\ dict_get "kill" Toy.kill_document = Some (PBool true).
Proof.
  vm_compute. split; [auto 10|]. split; [|split; reflexivity].
  intros d' H. repeat (destruct H as [H|H]; [discriminate H|]). exact H.
Qed.

Lemma control_document_rewritten_witness :
  (exists d',
      w_cfg (snd (fst (round_body Toy.env Toy.idle_operator
                                  (Toy.args_x 10 (Some "out")) (Toy.start 0)
                                  (Toy.world_with (PDict Toy.kill_document)))))
      = Some (PDict d')
      /\ dict_get "user_ask" d' = Some (PBool false)
      /\ dict_get "kill" d' = Some (PBool false)
      /\ dict_get "note" d' = Some (PStr "keep me"))
  /\ w_cfg (snd (fst (round_body Samples.env_read_only Toy.idle_operator
                                 (Toy.args_x 10 (Some "out")) (Toy.start 0)
                                 (Toy.world_with (PDict Toy.kill_document)))))
     = Some (PDict Toy.kill_document).
Proof.
  split.
  - destruct (@control_document_rewritten
                Toy.engine Toy.env Toy.idle_operator
                (Toy.args_x 10 (Some "out")) (Toy.start 0)
                (Toy.world_with (PDict Toy.kill_document))
                _ _ _ Toy.kill_document eq_refl)
      as (d' & Hask & Hkill & Hkeep & Hw).
    + simpl. auto 10.
    + exists d'. split; [exact (proj2 Hw)|].
      repeat split; try assumption.
      apply Hkeep; [discriminate | discriminate | reflexivity].
  - destruct (@control_document_rewritten
                Toy.engine Samples.env_read_only Toy.idle_operator
                (Toy.args_x 10 (Some "out")) (Toy.start 0)
                (Toy.world_with (PDict Toy.kill_document))
                _ _ _ Toy.kill_document eq_refl)
      as (d' & _ & _ & _ & Hw).
    + simpl. auto 10.
    + exact (proj2 (proj2 Hw)).
Defined.


Lemma converged_round_touches_no_file_witness :
  snd (fst (round_body Toy.env Toy.idle_operator (Toy.args_near 10)
                       (Toy.start 3)
                       (Toy.world_with (PDict Toy.kill_document))))
  = Toy.world_with (PDict Toy.kill_document).
Proof.
  refine (proj1 (proj2 (@converged_round_touches_no_file
                          Toy.engine Toy.env Toy.idle_operator
                          (Toy.args_near 10) (Toy.start 3)
                          (Toy.world_with (PDict Toy.kill_document)) _ _ _
                          [[PInt 3]; [PInt 4]] [0%float; 1%float] 0%float
                          [PInt 3] _ _ _))).
  - reflexivity.
  - simpl. auto 10.
  - reflexivity.
Defined.

(** C3, as the specification states it, fails: a call for 10 evaluations
    in batches of 2 whose control document asks for a user batch of a
    hundred points.  The second round starts with the counter at 2 and
    evaluates the hundred points; the call returns with the counter at
    102. *)
Lemma user_batch_overshoots_budget :
  let a := Toy.args_x 10 (Some "out") in
  let tr := snd (skopt_optimize Toy.env Toy.idle_operator 10 a
                                (Toy.world_with
                                   (PDict Samples.hundred_document))) in
  n_calls a = 10 /\ n_cores0 a = 2
  /\ nth_error tr 1 = Some (EvAsk (PInt 2) (Ret [[PInt 0]; [PInt 1]]))
  /\ nth_error tr 9 = Some (EvStart 2 2 10)
  /\ last tr EvShow = EvBest 102 0%float [PInt 3]
  /\ n_calls a + 2 < 102.
Proof.
  vm_compute. repeat split.
Qed.

Lemma counter_tracks_batches_witness :
  let tr := snd (loop Toy.env no_control_file 10 (Toy.args_x 10 (Some "out"))
                      (Toy.start 0) Toy.empty_world) in
  2 = 1 + rounds_counted (firstn 8 tr)
  /\ 2 = count (Toy.start 0) + batch_total (firstn 8 tr)
  /\ 2 < 10.
Proof.
  intros tr.
  pose (out := loop Toy.env no_control_file 10 (Toy.args_x 10 (Some "out"))
                    (Toy.start 0) Toy.empty_world).
  refine (proj1 (proj2 (proj2
            (@counter_tracks_batches
               Toy.engine Toy.env no_control_file
               (Toy.args_x 10 (Some "out")) Toy.empty_world
               (Toy.start 0) Toy.empty_world [] 10%nat
               (fst (fst out)) (snd (fst out)) tr _ _)))
            (firstn 8 tr) 2 2 10 (skipn 9 tr) _).
  - reflexivity.
  - vm_compute. reflexivity.
  - vm_compute. reflexivity.
Defined.

Lemma eval_kwargs_follow_user_ask_witness :
  let tr := snd (loop Toy.env Toy.idle_operator 10 (Toy.args_x 6 (Some "out"))
                      (Toy.start 0)
                      (Toy.world_with (PDict Toy.override_document))) in
  PDict [("mode", PStr "fast")] = kwargs_in_force (firstn 12 tr).
Proof.
  intros tr.
  pose (out := loop Toy.env Toy.idle_operator 10 (Toy.args_x 6 (Some "out"))
                    (Toy.start 0)
                    (Toy.world_with (PDict Toy.override_document))).
  refine (proj1
            (@eval_kwargs_follow_user_ask
               Toy.engine Toy.env Toy.idle_operator
               (Toy.args_x 6 (Some "out"))
               (Toy.world_with (PDict Toy.override_document))
               (Toy.start 0) (Toy.world_with (PDict Toy.override_document)) []
               10%nat (fst (fst out)) (snd (fst out)) tr _ _
               (firstn 12 tr)
               {| columns := ["x"]; records := [[PInt 5]; [PInt 6]] |}
               [("mode", PStr "fast")] (Ret [2%float; 2%float])
               (skipn 13 tr) _)).
  - reflexivity.
  - vm_compute. reflexivity.
  - vm_compute. reflexivity.
Defined.

(** Without a seed the engine draws from the global generator: two calls
    that differ in nothing but its state propose different batches. *)
Example unseeded_runs_differ :
  proposed (snd (skopt_optimize Toy.env no_control_file 10
                                (Samples.args_unseeded 4) Toy.empty_world))
  <> proposed (snd (skopt_optimize Samples.env_read_only no_control_file 10
                                   (Samples.args_unseeded 4)
                                   Toy.empty_world)).
Proof. vm_compute. discriminate. Qed.


(** * Further properties of the code *)

(** ** The grid of [convert_user_next_ranges] *)

Section GridFacts.

Lemma cartesian_In {A} (ds : list (list A)) :
  forall p, In p (cartesian ds) <-> Forall2 (fun x d => In x d) p ds.
Proof.
  induction ds as [|d ds IH]; intros p; cbn [cartesian].
  - split.
    + intros [<-|[]]. constructor.
    + intros H. inversion H. now left.
  - rewrite in_flat_map. split.
    + intros (x & Hx & Hin). apply in_map_iff in Hin as (q & <- & Hq).
      constructor; [assumption|]. now apply IH.
    + intros H. inversion H as [|x d' q ds' Hx Hq]; subst.
      exists x. split; [assumption|]. apply in_map. now apply IH.
Qed.

Lemma cartesian_len {A} (ds : list (list A)) :
  len (cartesian ds) = fold_right Z.mul 1 (map len ds).
Proof.
  induction ds as [|d ds IH]; [reflexivity|].
  cbn [cartesian map fold_right]. rewrite <- IH. clear IH.
  induction d as [|x d IHd]; [reflexivity|].
  cbn [flat_map]. unfold len in *. rewrite length_app, length_map.
  cbn [List.length]. rewrite Nat2Z.inj_add, IHd. lia.
Qed.

Lemma range_length_nonneg (start stop step : Z) :
  0 <= range_length start stop step.
Proof.
  unfold range_length.
  destruct (Z.ltb_spec 0 step).
  - destruct (Z.ltb_spec start stop); [|lia].
    assert (0 <= (stop - start - 1) / step) by (apply Z.div_pos; lia). lia.
  - destruct (Z.ltb_spec stop start); [|lia].
    destruct (Z.eq_dec step 0) as [->|].
    + simpl. rewrite Z.div_0_r. lia.
    + assert (0 <= (start - stop - 1) / - step) by (apply Z.div_pos; lia).
      lia.
Qed.

Lemma range_elements_len (start stop step : Z) :
  len (range_elements start stop step) = range_length start stop step.
Proof.
  unfold range_elements, len. rewrite length_map, length_seq.
  apply Z2Nat.id, range_length_nonneg.
Qed.

(** The index of an element is below the length exactly when the element
    is before [stop]. *)
Lemma range_length_bound (start stop step k : Z) :
  step <> 0 -> 0 <= k ->
  k < range_length start stop step
  <-> if 0 <? step then start + k * step < stop
      else stop < start + k * step.
Proof.
  intros Hstep Hk. unfold range_length.
  destruct (Z.ltb_spec 0 step) as [Hpos|Hneg].
  - destruct (Z.ltb_spec start stop) as [Hlt|Hge]; [|nia].
    split; intros H.
    + assert (k <= (stop - start - 1) / step) as Hle by lia.
      pose proof (Z.mul_div_le (stop - start - 1) step Hpos). nia.
    + assert (k <= (stop - start - 1) / step); [|lia].
      apply Z.div_le_lower_bound; [assumption|nia].
  - assert (Hpos : 0 < - step) by lia.
    destruct (Z.ltb_spec stop start) as [Hlt|Hge]; [|nia].
    split; intros H.
    + assert (k <= (start - stop - 1) / - step) as Hle by lia.
      pose proof (Z.mul_div_le (start - stop - 1) (- step) Hpos). nia.
    + assert (k <= (start - stop - 1) / - step); [|lia].
      apply Z.div_le_lower_bound; [assumption|nia].
Qed.

Lemma range_elements_In (start stop step x : Z) :
  step <> 0 ->
  In x (range_elements start stop step) <-> in_range x (start, stop, step).
Proof.
  intros Hstep. unfold range_elements, in_range. rewrite in_map_iff. split.
  - intros (i & <- & Hi). apply in_seq in Hi. exists (Z.of_nat i).
    split; [lia|]. split; [reflexivity|].
    apply range_length_bound; [assumption|lia|].
    pose proof (range_length_nonneg start stop step). lia.
  - intros (k & Hk & -> & Hb). exists (Z.to_nat k).
    rewrite Z2Nat.id by assumption. split; [reflexivity|].
    apply in_seq. apply range_length_bound in Hb; [|assumption|assumption].
    lia.
Qed.

Lemma triple_range_In (t : Z * Z * Z) (x : Z) :
  triple_step t <> 0 -> In x (triple_range t) <-> in_range x t.
Proof.
  destruct t as [[start stop] step]. unfold triple_step, triple_range.
  cbn [snd]. apply range_elements_In.
Qed.

(** The conversion of a non-empty list of triples with non-zero steps. *)
Lemma convert_triples (ts : list (Z * Z * Z)) :
  ts <> [] ->
  Forall (fun t => triple_step t <> 0) ts ->
  convert_user_next_ranges (PList (map triple_items ts))
  = Ret (cartesian (map triple_range ts)).
Proof.
  intros Hne Hstep. unfold convert_user_next_ranges.
  destruct ts as [|t ts]; [contradiction|].
  cbn [py_len py_iter res_bind].
  replace (0 <? len (map triple_items (t :: ts))) with true
    by (unfold len; simpl List.length; symmetry; apply Z.ltb_lt; lia).
  rewrite comprehension_range_triples by assumption.
  cbn [res_bind]. now rewrite product_cartesian.
Qed.

(** The ranges are built in list order: the first zero step ends the
    comprehension. *)
Lemma comprehension_zero_step (ts : list (Z * Z * Z)) :
  Exists (fun t => triple_step t = 0) ts ->
  comprehension range_star (map triple_items ts) = Raise ValueError.
Proof.
  induction 1 as [[[a b] c] ts Hc|[[a b] c] ts _ IH].
  - unfold triple_step in Hc. cbn [snd] in Hc. subst c. reflexivity.
  - cbn [map comprehension]. rewrite IH.
    unfold range_star, triple_items.
    cbn [py_iter comprehension as_index res_bind range].
    now destruct (c =? 0).
Qed.

Lemma cartesian_empty_pool {A} (ds : list (list A)) :
  In [] ds -> cartesian ds = [].
Proof.
  induction ds as [|d ds IH]; intros Hin; [destruct Hin|].
  cbn [cartesian]. destruct Hin as [->|Hin]; [reflexivity|].
  rewrite (IH Hin). now induction d.
Qed.

Lemma triple_empty_range (t : Z * Z * Z) :
  triple_empty t -> triple_range t = [].
Proof.
  destruct t as [[start stop] step]. unfold triple_empty, triple_range.
  unfold range_elements, range_length. intros [[Hs Hb]|[Hs Hb]].
  - destruct (Z.ltb_spec 0 step); [|lia].
    now destruct (Z.ltb_spec start stop); [lia|].
  - destruct (Z.ltb_spec 0 step); [lia|].
    now destruct (Z.ltb_spec stop start); [lia|].
Qed.

End GridFacts.

(** X1: The size of the grid: as many points as the product of the lengths of
    the ranges, each with one coordinate for every triple. *)
Theorem user_grid_shape (ts : list (Z * Z * Z)) :
  ts <> [] ->
  Forall (fun t => triple_step t <> 0) ts ->
  exists grid,
    convert_user_next_ranges (PList (map triple_items ts)) = Ret grid
    /\ len grid = fold_right Z.mul 1 (map triple_count ts)
    /\ Forall (fun p => List.length p = List.length ts) grid.
Proof.
  intros Hne Hstep. eexists. split; [now apply convert_triples|]. split.
  - rewrite cartesian_len, map_map. f_equal. apply map_ext.
    intros [[start stop] step]. apply range_elements_len.
  - apply Forall_forall. intros p Hp. apply cartesian_In in Hp.
    apply Forall2_length in Hp. now rewrite length_map in Hp.
Qed.

Lemma user_grid_shape_witness :
  exists grid,
    convert_user_next_ranges
      (PList (map triple_items [(0, 7, 3); (5, 3, -1)])) = Ret grid
    /\ len grid = fold_right Z.mul 1 (map triple_count [(0, 7, 3); (5, 3, -1)])
    /\ Forall (fun p => List.length p = 2%nat) grid.
Proof.
  apply (user_grid_shape [(0, 7, 3); (5, 3, -1)]).
  - discriminate.
  - repeat constructor; discriminate.
Defined.

(** X2: The points of the grid: a tuple is in it exactly when each coordinate
    is an element of the range of its triple. *)
Theorem user_grid_members (ts : list (Z * Z * Z)) :
  ts <> [] ->
  Forall (fun t => triple_step t <> 0) ts ->
  exists grid,
    convert_user_next_ranges (PList (map triple_items ts)) = Ret grid
    /\ forall p, In p grid <-> Forall2 in_range p ts.
Proof.
  intros Hne Hstep. eexists. split; [now apply convert_triples|].
  intros p. rewrite cartesian_In. clear Hne. revert p.
  induction Hstep as [|t ts Ht _ IH]; intros p; cbn [map].
  - split; intros H; inversion H; constructor.
  - split; intros H; inversion H; subst; constructor;
      try (now apply IH); now apply (triple_range_In t).
Qed.

Lemma user_grid_members_witness :
  exists grid,
    convert_user_next_ranges
      (PList (map triple_items [(0, 7, 3); (5, 3, -1)])) = Ret grid
    /\ forall p, In p grid <-> Forall2 in_range p [(0, 7, 3); (5, 3, -1)].
Proof.
  apply (user_grid_members [(0, 7, 3); (5, 3, -1)]).
  - discriminate.
  - repeat constructor; discriminate.
Defined.

(** X3: A zero step anywhere in a list of triples is a [ValueError], whatever
    the other triples are. *)
Theorem zero_step_anywhere_rejected (ts : list (Z * Z * Z)) :
  Exists (fun t => triple_step t = 0) ts ->
  convert_user_next_ranges (PList (map triple_items ts)) = Raise ValueError.
Proof.
  intros Hz. unfold convert_user_next_ranges.
  destruct ts as [|t ts]; [inversion Hz|].
  cbn [py_len py_iter res_bind].
  replace (0 <? len (map triple_items (t :: ts))) with true
    by (unfold len; simpl List.length; symmetry; apply Z.ltb_lt; lia).
  now rewrite comprehension_zero_step.
Qed.

Lemma zero_step_anywhere_rejected_witness :
  convert_user_next_ranges
    (PList (map triple_items [(0, 3, 1); (4, 9, 0); (1, 2, 1)]))
  = Raise ValueError.
Proof.
  apply (zero_step_anywhere_rejected [(0, 3, 1); (4, 9, 0); (1, 2, 1)]).
  apply Exists_cons_tl, Exists_cons_hd. reflexivity.
Defined.

(** X4: One range without elements leaves no point in the grid. *)
Theorem empty_range_empties_grid (ts : list (Z * Z * Z)) :
  Forall (fun t => triple_step t <> 0) ts ->
  Exists triple_empty ts ->
  convert_user_next_ranges (PList (map triple_items ts)) = Ret [].
Proof.
  intros Hstep Hex.
  rewrite convert_triples; [|intros ->; inversion Hex|assumption].
  f_equal. apply cartesian_empty_pool.
  apply Exists_exists in Hex as (t & Hin & Hempty).
  rewrite <- (triple_empty_range t Hempty). now apply in_map.
Qed.

Lemma empty_range_empties_grid_witness :
  convert_user_next_ranges (PList (map triple_items [(0, 3, 1); (5, 5, 1)]))
  = Ret [].
Proof.
  apply (empty_range_empties_grid [(0, 3, 1); (5, 5, 1)]).
  - repeat constructor; discriminate.
  - apply Exists_cons_tl, Exists_cons_hd. left. split; [reflexivity|].
    discriminate.
Defined.

(** ** The loop at its edges *)

Section LoopEdges.

Variable eng : Engine.
Variable env : Env (optimizer eng).
Variable operator : Z -> option pyval -> option pyval.

Lemma no_event_sound (P : event -> bool) (tr : list event) :
  forallb (fun e => negb (P e)) tr = true ->
  forall e, P e = true -> ~ In e tr.
Proof.
  intros Hall e He Hin. rewrite forallb_forall in Hall.
  specialize (Hall e Hin). rewrite He in Hall. discriminate Hall.
Qed.

(** The batch of a round is the user's, which is not empty, or the
    engine's. *)
Lemma propose_batch (l : locals eng) (w : world eng) next_x l1 w' evs :
  propose l w = (Ret (next_x, l1), w', evs) ->
  count l1 = count l
  /\ (next_x <> [] \/ exists n, In (EvAsk n (Ret next_x)) evs).
Proof.
  unfold propose. intros H.
  destruct (truthy (user_ask l) && (0 <? len (user_next_x l))) eqn:Eu.
  - unfold_M H. inversion H; subst. split; [reflexivity|]. left.
    apply andb_prop in Eu as (_ & Hlen). apply Z.ltb_lt in Hlen.
    destruct (user_next_x l1); [discriminate Hlen|discriminate].
  - run_stage H. split; [reflexivity|]. right. eexists. now left.
Qed.

(** A round that goes on to the next has moved the counter, unless its
    table failed or its batch was empty. *)
Lemma round_progress (a : args eng) (l : locals eng) (w : world eng)
      l' w' evs :
  round_body env operator a l w = (Ret (Next l'), w', evs) ->
  ~ In (EvTable None) evs ->
  (forall n, ~ In (EvAsk n (Ret [])) evs) ->
  count l < count l'.
Proof.
  intros Hround Htab Hask.
  pose proof (round_body_inv Hround) as Hcase.
  inversion Hcase; subst.
  - exfalso. apply Htab. in_solve.
  - match goal with H : control_channel _ _ _ _ = _ |- _ =>
      destruct (control_channel_keeps _ _ _ _ _ _ _ _ H)
        as (c & E & _ & Hc & _) end.
    inversion E; subst c. cbn [ctl_locals] in Hc. rewrite Hc.
    match goal with H : diagnostics _ _ _ _ = _ |- _ =>
      apply diagnostics_inv in H; destruct H as (_ & _ & _ & H);
      destruct (H _ eq_refl) as (Hl4 & _) end.
    rewrite Hl4. unfold l3. cbn [set_plots_dir count set_result].
    match goal with H : evaluated _ _ _ _ _ _ |- _ =>
      destruct (evaluated_returned H)
        as (? & ? & ? & ? & _ & _ & _ & Hcount & _) end.
    rewrite Hcount.
    match goal with H : propose _ _ = _ |- _ =>
      destruct (propose_batch _ _ _ _ _ _ H) as (Hc1 & [Hne|[n Hn]]) end.
    + rewrite Hc1. unfold len. destruct next_x; [contradiction|].
      cbn [List.length]. lia.
    + rewrite Hc1. unfold len. destruct next_x.
      * exfalso. apply (Hask n). in_solve.
      * cbn [List.length]. lia.
Qed.

Lemma loop_bounded (a : args eng) (fuel : nat) :
  forall (l : locals eng) (w : world eng) o w' tr,
    loop env operator fuel a l w = (o, w', tr) ->
    ~ In (EvTable None) tr ->
    (forall n, ~ In (EvAsk n (Ret [])) tr) ->
    (Z.to_nat (n_calls a - count l) <= fuel)%nat ->
    forall l', o <> Running l'.
Proof.
  induction fuel as [|fuel IH]; intros l w o w' tr H Htab Hask Hfuel l';
    cbn [loop] in H;
    destruct (Z.ltb_spec (count l) (n_calls a)) as [Hlt|Hge];
    try (inversion H; subst; discriminate); [lia|].
  destruct (round_body env operator a l w) as [[rr w1] evs1] eqn:Hround.
  destruct rr as [[l1|s l1]|e]; try (inversion H; subst; discriminate).
  destruct (loop env operator fuel a l1 w1) as [[o2 w2] evs2] eqn:Hloop.
  inversion H; subst.
  assert (count l < count l1).
  { eapply round_progress; [eassumption| |].
    - intros Hin. apply Htab. in_solve.
    - intros n Hin. apply (Hask n). in_solve. }
  eapply IH; [eassumption| | |lia].
  - intros Hin. apply Htab. in_solve.
  - intros n Hin. apply (Hask n). in_solve.
Qed.

Lemma init_count_nonneg (a : args eng) (w : world eng) l0 w0 evs0 :
  init env a w = (Ret l0, w0, evs0) -> 0 <= count l0.
Proof.
  intros H. apply init_locals in H as (_ & -> & _). unfold len. lia.
Qed.

(** X5: A run in which every table is built and every batch has a point ends
    within [n_calls] rounds: it has returned or raised by then. *)
Theorem run_ends_within_budget (a : args eng) (w : world eng) (fuel : nat)
        out w' tr :
  skopt_optimize env operator fuel a w = (out, w', tr) ->
  (Z.to_nat (n_calls a) <= fuel)%nat ->
  ~ In (EvTable None) tr ->
  (forall n, ~ In (EvAsk n (Ret [])) tr) ->
  out <> Unfinished.
Proof.
  unfold skopt_optimize. intros H Hfuel Htab Hask.
  destruct (init env a w) as [[[l0|e] w0] evs0] eqn:Hinit;
    [|inversion H; subst; discriminate].
  pose proof (init_count_nonneg _ _ _ _ _ Hinit) as Hc.
  destruct (loop env operator fuel a l0 w0) as [[o w1] evs1] eqn:Hloop.
  destruct o as [s l|e|l].
  - destruct (finish a l w1) as [[[r|e] w2] evs2];
      inversion H; subst; discriminate.
  - inversion H; subst; discriminate.
  - inversion H; subst. exfalso.
    eapply (loop_bounded a fuel); [eassumption| | | |reflexivity].
    + intros Hin. apply Htab. in_solve.
    + intros n Hin. apply (Hask n). in_solve.
    + lia.
Qed.

(** X6: A user batch that pandas refuses is taken up again in every round:
    the counter does not move, no file is touched, and the loop is still
    at the same point however many rounds it is given. *)
Theorem rejected_user_batch_repeats (a : args eng) (l : locals eng)
        (w : world eng) :
  count l < n_calls a ->
  truthy (user_ask l) = true ->
  user_next_x l <> [] ->
  records_accepted env (map (map PInt) (user_next_x l))
                   (dimension_names eng (sk_optimizer l)) = false ->
  forall fuel,
    loop env operator fuel a l w
    = (Running l, w,
       List.concat (repeat (rejected_round (round_ l) (count l) (n_calls a)
                                      (user_next_x l)) fuel)).
Proof.
  intros Hlt Hask Hne Hrej.
  assert (Hround : round_body env operator a l w
                   = (Ret (Next l), w,
                      rejected_round (round_ l) (count l) (n_calls a)
                                     (user_next_x l))).
  { unfold round_body, propose, build_table. rewrite Hask.
    replace (0 <? len (user_next_x l)) with true.
    - unfold bind, ret, emit. cbn [andb fst snd]. rewrite Hrej. reflexivity.
    - symmetry. apply Z.ltb_lt. unfold len.
      destruct (user_next_x l); [contradiction|]. cbn [List.length]. lia. }
  induction fuel as [|fuel IH]; cbn [loop];
    (replace (count l <? n_calls a) with true
      by (symmetry; now apply Z.ltb_lt)); [reflexivity|].
  rewrite Hround, IH. reflexivity.
Qed.

(** X7: With nothing left of the budget the body of the loop never runs: a
    fresh start ends on the unbound [result], a restart returns the result
    it loaded, as it was stored. *)
Theorem no_budget_left (a : args eng) (w : world eng) l0 w0 evs0 :
  init env a w = (Ret l0, w0, evs0) ->
  n_calls a <= count l0 ->
  forall fuel,
    skopt_optimize env operator fuel a w
    = match result l0 with
      | None => (Failed UnboundLocalError, w0, evs0)
      | Some r =>
          (Returned Exhausted r, w0,
           evs0 ++ EvBest (count l0) (r_fun r) (r_x r)
                :: (if (1 <? n_dims r) && plots_show a then [EvShow] else []))
      end
    /\ (result l0 = None <-> optimizer_pickle a = None).
Proof.
  intros Hinit Hge fuel. split.
  - unfold skopt_optimize. rewrite Hinit.
    assert (Hloop : loop env operator fuel a l0 w0
                    = (Finished Exhausted l0, w0, [])).
    { destruct fuel; cbn [loop];
        (replace (count l0 <? n_calls a) with false
          by (symmetry; now apply Z.ltb_ge)); reflexivity. }
    rewrite Hloop. unfold finish.
    destruct (result l0) as [r|]; [|unfold raise; now rewrite app_nil_r].
    unfold bind, ret, emit. destruct ((1 <? n_dims r) && plots_show a); reflexivity.
  - unfold init in Hinit. destruct (optimizer_pickle a) as [path|].
    + run_stage Hinit; split; discriminate.
    + run_stage Hinit; split; reflexivity.
Qed.

(** The facts of the stages a round went through. *)
Ltac stages :=
  repeat match goal with
    | H : propose _ _ = _ |- _ =>
        apply propose_inv in H; destruct H as (_ & ? & ?)
    | H : checkpoint _ _ _ _ = _ |- _ =>
        apply checkpoint_inv in H; destruct H as (_ & ? & ? & ?)
    | H : diagnostics _ _ _ _ = _ |- _ =>
        apply diagnostics_inv in H; destruct H as (? & ? & ? & ?)
    end.

(** The stages before the control document neither read nor write it, and
    leave what it governs as it was. *)
Lemma round_reaches_control (a : args eng) (l : locals eng) (w : world eng)
      r w' evs doc :
  round_body env operator a l w = (r, w', evs) ->
  In (EvRead doc) evs ->
  exists l4 w2 pre evs_x,
    control_channel env operator l4 w2 = (r, w', evs_x)
    /\ evs = pre ++ evs_x
    /\ In (EvRead doc) evs_x
    /\ (forall e, In e pre -> touches_control e = false)
    /\ n_cores l4 = n_cores l /\ user_ask l4 = user_ask l
    /\ user_next_x l4 = user_next_x l
    /\ eval_func_kwargs l4 = eval_func_kwargs l
    /\ round_ l4 = round_ l + 1.
Proof.
  intros Hround Hin.
  pose proof (round_body_inv Hround) as Hcase. clear Hround.
  destruct Hcase; stages; in_cases Hin; try class_out Hin;
    try (match goal with H : evaluated _ _ _ _ _ _ |- _ =>
           destruct (evaluated_events H Hin)
             as [(? & ? & E & _)|(? & ? & ? & E & _)]; discriminate E end).
  match goal with H : evaluated _ _ _ _ _ _ |- _ =>
    destruct (evaluated_returned H)
      as (kw & y & best & xb & -> & _ & _ & _ & Hrd & _ & _ & Hnc & Hua & Hux
          & Hkw & _)
  end.
  match goal with H : forall l', Ret _ = Ret l' -> _ |- _ =>
    destruct (H _ eq_refl) as (Hl4 & _) end.
  match goal with H : forall n x, Ret _ = Ret _ -> _ |- _ =>
    destruct (H _ _ eq_refl) as (Hl1 & _) end.
  exists l4, w2,
    (EvStart (round_ l) (count l) (n_calls a)
     :: evs_p ++ EvTable (Some t)
     :: [EvEval t kw (Ret y); EvTell next_x y (Ret (best, xb))]
     ++ evs_c ++ evs_d), evs_x.
  split; [assumption|]. split.
  { simpl. rewrite <- !app_assoc. simpl. rewrite <- !app_assoc. reflexivity. }
  split; [assumption|]. split.
  { intros e He. in_cases He; subst; try reflexivity.
    - match goal with HF : Forall _ evs_p |- _ =>
        apply (Forall_class_In _ _ _ HF) in He end.
      destruct e; try discriminate He; reflexivity.
    - match goal with HF : Forall _ evs_c |- _ =>
        apply (Forall_class_In _ _ _ HF) in He end.
      destruct e; try discriminate He; reflexivity.
    - match goal with HF : Forall _ evs_d |- _ =>
        apply (Forall_class_In _ _ _ HF) in He end.
      destruct e; try discriminate He; reflexivity. }
  rewrite Hl4. unfold l3. cbn [set_plots_dir set_result n_cores user_ask
                                 user_next_x eval_func_kwargs round_].
  rewrite Hnc, Hua, Hux, Hkw, Hrd, Hl1. repeat split.
Qed.

(** The document a pass through the control channel read. *)
Lemma control_channel_read (l : locals eng) (w : world eng) r w' evs doc :
  control_channel env operator l w = (r, w', evs) ->
  In (EvRead doc) evs ->
  operator (round_ l) (w_cfg w) = doc.
Proof.
  intros H Hin. pose proof (control_channel_inv H) as (_ & _ & Hdoc).
  destruct (operator (round_ l) (w_cfg w)) as [[| | | | | |d]|];
    try (destruct Hdoc as (-> & _); in_cases Hin; congruence).
  destruct Hdoc as (mid & xs & Hmid & Hw).
  destruct (cfg_dump env (round_ l) _ _) as [[e rest]|];
    destruct Hw as (-> & _); in_cases Hin; try congruence;
    try (destruct Hmid as [->|[e' ->]]; in_cases Hin);
    destruct (truthy (field "kill" (PBool false) d)); in_cases Hin.
Qed.

(** The user's batch after a pass through a mapping: the grid of its
    ranges, or the batch as it was when the conversion raises. *)
Lemma control_channel_ranges (l : locals eng) (w : world eng) r w' evs d :
  control_channel env operator l w = (r, w', evs) ->
  operator (round_ l) (w_cfg w) = Some (PDict d) ->
  exists c,
    r = Ret c
    /\ match convert_user_next_ranges
               (field "user_range_prod" (PList []) d) with
       | Ret xs => user_next_x (ctl_locals c) = xs
       | Raise e => user_next_x (ctl_locals c) = user_next_x l
                    /\ In (EvLogException e) evs
       end.
Proof.
  unfold control_channel, read_cfg. intros H Hdoc.
  unfold bind at 1 in H. rewrite Hdoc in H.
  rewrite (surjective_pairing (setdefault "n_cores" (n_cores l) d)) in H.
  set (d1 := snd (setdefault "n_cores" (n_cores l) d)) in *.
  rewrite (surjective_pairing (setdefault "user_ask" (PBool false) d1)) in H.
  set (d2 := snd (setdefault "user_ask" (PBool false) d1)) in *.
  rewrite (surjective_pairing (setdefault "user_range_prod" (PList []) d2))
    in H.
  set (d3 := snd (setdefault "user_range_prod" (PList []) d2)) in *.
  rewrite !setdefault_value in H.
  assert (Hr : field "user_range_prod" (PList []) d2
               = field "user_range_prod" (PList []) d).
  { unfold d2, d1. now rewrite !field_setdefault_other by discriminate. }
  rewrite Hr in H. unfold read_user_ranges in H.
  destruct (read_kwargs (field "user_ask" (PBool false) d1) d3) as [kw d4].
  destruct (setdefault "kill" (PBool false) d4) as [kill d5].
  destruct (convert_user_next_ranges (field "user_range_prod" (PList []) d))
    as [xs|e];
    unfold catch, bind, write_cfg, emit, ret in H;
    cbn [w_cfg set_cfg] in H;
    destruct (cfg_dump env (round_ l) _ _) as [[ew rest]|];
    destruct (truthy kill); inversion H; subst; clear H;
    eexists; (split; [reflexivity|]); cbn [ctl_locals set_control user_next_x];
    try reflexivity; (split; [reflexivity|]); in_solve.
Qed.

(** X8: A control document that is no mapping, or cannot be read, changes
    nothing: the round goes on to the next, nothing is written back, a
    [kill] in it is not seen, and the batch width, the user's batch and the
    keyword parameters stay as they were. *)
Theorem unreadable_document_ignored (a : args eng) (l : locals eng)
        (w : world eng) r w' evs doc :
  round_body env operator a l w = (r, w', evs) ->
  In (EvRead doc) evs ->
  (forall d, doc <> Some (PDict d)) ->
  exists l',
    r = Ret (Next l')
    /\ (forall d, ~ In (EvWrite d) evs) /\ ~ In EvKilled evs
    /\ n_cores l' = n_cores l /\ user_ask l' = user_ask l
    /\ user_next_x l' = user_next_x l
    /\ eval_func_kwargs l' = eval_func_kwargs l.
Proof.
  intros Hround Hin Hdoc.
  destruct (round_reaches_control _ _ _ _ _ _ _ Hround Hin)
    as (l4 & w2 & pre & evs_x & Hcc & -> & Hinx & Hpre & Hn & Hua & Hux & Hkw & Hrd).
  pose proof (control_channel_read _ _ _ _ _ _ Hcc Hinx) as Hop.
  pose proof (control_channel_inv Hcc) as (_ & _ & Hshape).
  rewrite Hop in Hshape.
  assert (Hx : evs_x = [EvRead doc] /\ r = Ret (Next l4)).
  { destruct doc as [[| | | | | |d]|]; try tauto.
    now destruct (Hdoc d). }
  destruct Hx as (-> & ->). exists l4.
  split; [reflexivity|]. split; [|split; [|auto]].
  - intros d Hw. apply in_app_or in Hw as [Hw|Hw]; [|in_cases Hw].
    apply Hpre in Hw. discriminate Hw.
  - intros Hk. apply in_app_or in Hk as [Hk|Hk]; [|in_cases Hk].
    apply Hpre in Hk. discriminate Hk.
Qed.

(** X9: The user's batch after a round that read a mapping: the grid of the
    ranges in the document; when their conversion raises, the exception is
    logged and the batch of before stays, while [user_ask] is taken from the
    document all the same and the write-back of the document is attempted:
    the round holds the write when it returns, the failed write when it
    raises. *)
Theorem user_batch_follows_document (a : args eng) (l : locals eng)
        (w : world eng) r w' evs d :
  round_body env operator a l w = (r, w', evs) ->
  In (EvRead (Some (PDict d))) evs ->
  exists c,
    r = Ret c
    /\ user_ask (ctl_locals c) = field "user_ask" (PBool false) d
    /\ match cfg_dump env (round_ l + 1) (rewritten (n_cores l) d)
                      (Some (PDict d)) with
       | None => In (EvWrite (rewritten (n_cores l) d)) evs
       | Some (e, _) => In (EvWriteFailed (rewritten (n_cores l) d) e) evs
       end
    /\ match convert_user_next_ranges
               (field "user_range_prod" (PList []) d) with
       | Ret xs => user_next_x (ctl_locals c) = xs
       | Raise e => user_next_x (ctl_locals c) = user_next_x l
                    /\ In (EvLogException e) evs
       end.
Proof.
  intros Hround Hin.
  destruct (round_reaches_control _ _ _ _ _ _ _ Hround Hin)
    as (l4 & w2 & pre & evs_x & Hcc & -> & Hinx & Hpre & Hn & Hua & Hux & Hkw & Hrd).
  pose proof (control_channel_read _ _ _ _ _ _ Hcc Hinx) as Hop.
  destruct (control_channel_ranges _ _ _ _ _ _ Hcc Hop) as (c & -> & Hxs).
  pose proof (control_channel_inv Hcc) as (_ & _ & Hshape).
  rewrite Hop in Hshape. destruct Hshape as (mid & xs & _ & Hw).
  cbv zeta in Hw. rewrite Hn, Hrd in Hw.
  exists c. split; [reflexivity|]. split.
  { destruct (cfg_dump env (round_ l + 1) _ _) as [[e rest]|];
      destruct Hw as (_ & _ & E);
      [|destruct (truthy (field "kill" (PBool false) d))];
      inversion E; subst; reflexivity. }
  split.
  { destruct (cfg_dump env (round_ l + 1) _ _) as [[e rest]|];
      destruct Hw as (-> & _); in_solve. }
  destruct (convert_user_next_ranges (field "user_range_prod" (PList []) d)).
  - assumption.
  - destruct Hxs as (Hx & Hlog). rewrite Hx, Hux. split; [reflexivity|].
    in_solve.
Qed.

(** X10: The pickle of a round is what a restart loads: after a round that
    told and did not converge, a call with [optimizer_pickle] set to the
    file of the round starts from the optimizer and the result the round
    left, with the counter at the number of points the optimizer holds. *)
Theorem checkpoint_restarts (a a' : args eng) (l : locals eng)
        (w : world eng) c w' evs x y best xb dir :
  round_body env operator a l w = (Ret c, w', evs) ->
  In (EvTell x y (Ret (best, xb))) evs ->
  PrimFloat.ltb best (tol a) = false ->
  plots_dir l = Some dir ->
  optimizer_pickle a' = Some (path_join env dir "optimizer.pkl") ->
  exists l0,
    init env a' w'
    = (Ret l0, w', [EvLoaded (path_join env dir "optimizer.pkl")])
    /\ sk_optimizer l0 = sk_optimizer (ctl_locals c)
    /\ result l0 = result (ctl_locals c)
    /\ count l0 = len (Xi eng (sk_optimizer (ctl_locals c)))
    /\ round_ l0 = 1.
Proof.
  intros Hround Hin Hlt Hdir Hpickle.
  pose proof (round_body_inv Hround) as Hcase. clear Hround.
  inversion Hcase; subst; stages; in_cases Hin; try class_out Hin.
  - (* converged *)
    match goal with H : evaluated _ _ _ _ _ _ |- _ =>
      destruct (evaluated_tell_returned H Hin)
        as (rx & lx & kw & E & Hfun & _) end.
    inversion E; subst. congruence.
  - (* the round was completed *)
    match goal with H : evaluated _ _ _ _ _ _ |- _ =>
      destruct (evaluated_returned H)
        as (kw & y' & best' & xb' & _ & _ & Hres & _ & _ & Hsk & Hpd & _) end.
    match goal with H : forall l', Ret _ = Ret l' -> _ |- _ =>
      destruct (H _ eq_refl) as (Hl4 & _) end.
    match goal with H : forall n x, Ret _ = Ret _ -> _ |- _ =>
      destruct (H _ _ eq_refl) as (Hl1 & _) end.
    match goal with H : control_channel _ _ _ _ = _ |- _ =>
      pose proof (control_channel_inv H) as (Hpk & _ & _);
      destruct (control_channel_keeps _ _ _ _ _ _ _ _ H)
        as (c' & E & Hr & _ & _ & Hso & _) end.
    inversion E; subst c'.
    assert (Hd3 : plots_dir l3 = Some dir).
    { unfold l3. cbn [set_result plots_dir]. rewrite Hpd, Hl1. exact Hdir. }
    match goal with H : forall d, plots_dir l3 = Some d -> _ |- _ =>
      destruct (H _ Hd3) as (_ & Hpick) end.
    assert (Hlook : lookup_pickle (path_join env dir "optimizer.pkl")
                                  (w_pickles w') = Some res').
    { rewrite Hpk.
      match goal with H : w_pickles w2 = w_pickles w1 |- _ => rewrite H end.
      rewrite Hpick. cbn [lookup_pickle]. now rewrite String.eqb_refl. }
    eexists. split.
    + unfold init. rewrite Hpickle. unfold bind, load, emit, ret.
      rewrite Hlook. cbn [app]. reflexivity.
    + cbn [sk_optimizer result count round_]. rewrite Hr, Hso, Hl4.
      unfold l3. cbn [set_plots_dir set_result sk_optimizer result].
      rewrite Hsk. repeat split.
  - (* the control channel emits no tell *)
    match goal with H : control_channel _ _ _ _ = _ |- _ =>
      apply control_channel_class in H end.
    class_out Hin.
Qed.

Lemma checkpoint_none (res : OptimizeResult (optimizer eng))
      (l : locals eng) (w : world eng) :
  plots_dir l = None -> checkpoint env res l w = (Ret tt, w, []).
Proof. unfold checkpoint. now intros ->. Qed.

Lemma diagnostics_none (res : OptimizeResult (optimizer eng))
      (l : locals eng) (w : world eng) :
  plots_dir l = None -> 1 < n_dims res ->
  diagnostics env res l w = (Raise TypeError, w, []).
Proof.
  unfold diagnostics. intros -> Hn.
  now replace (1 <? n_dims res) with true by (symmetry; now apply Z.ltb_lt).
Qed.

(** What [evaluate_and_tell] leaves of the names of the space, for an
    engine whose [tell] keeps them. *)
Lemma evaluated_names next_x t (l : locals eng) res l2 evs :
  (forall xs ys o b p o',
      tell eng xs ys o = Ret (b, p, o') ->
      dimension_names eng o' = dimension_names eng o) ->
  evaluated env next_x t l (Ret (res, l2)) evs ->
  dimension_names eng (r_self res) = dimension_names eng (sk_optimizer l).
Proof.
  intros Hnames Hev. inversion Hev; subst. cbn [r_self]. eauto.
Qed.

(** X11: Without a directory the plots of a space of more than one dimension
    cannot be made: the first round that tells and does not converge ends
    the call with the [TypeError] of [os.path.abspath(None)], before any
    file is written and before the control document is read. *)
Theorem plots_need_directory (a : args eng) (l : locals eng) (w : world eng)
        r w' evs x y best xb t :
  (forall xs ys o b p o',
      tell eng xs ys o = Ret (b, p, o') ->
      dimension_names eng o' = dimension_names eng o) ->
  round_body env operator a l w = (r, w', evs) ->
  plots_dir l = None ->
  In (EvTable (Some t)) evs ->
  1 < len (columns t) ->
  In (EvTell x y (Ret (best, xb))) evs ->
  PrimFloat.ltb best (tol a) = false ->
  r = Raise TypeError /\ w' = w
  /\ forall e, In e evs -> from_files e = false /\ touches_control e = false.
Proof.
  intros Hnames Hround Hdir Htab Hwide Hin Hlt.
  pose proof (round_body_inv Hround) as Hcase. clear Hround.
  inversion Hcase; subst;
    match goal with H : propose _ _ = _ |- _ =>
      apply propose_inv in H; destruct H as (_ & Hfp & Hp) end.
  - in_cases Hin. class_out Hin.
  - in_cases Hin. class_out Hin.
  - in_cases Hin; [class_out Hin|].
    match goal with H : evaluated _ _ _ _ _ _ |- _ =>
      destruct (evaluated_tell_returned H Hin) as (? & ? & ? & E & _) end.
    discriminate E.
  - in_cases Hin; [class_out Hin|].
    match goal with H : evaluated _ _ _ _ _ _ |- _ =>
      destruct (evaluated_tell_returned H Hin)
        as (rx & lx & kw & E & Hfun & _) end.
    inversion E; subst. congruence.
  - (* the plots raised *)
    destruct (Hp _ _ eq_refl) as (Hl1 & _).
    match goal with H : evaluated _ _ _ _ _ _ |- _ =>
      pose proof (fun e => evaluated_events (e := e) H) as Hevents;
      destruct (evaluated_returned H)
        as (? & ? & ? & ? & _ & _ & _ & _ & _ & _ & Hpd & _) end.
    assert (Hd3 : plots_dir l3 = None).
    { unfold l3. cbn [set_result plots_dir]. rewrite Hpd, Hl1. exact Hdir. }
    match goal with H : checkpoint _ _ _ _ = _ |- _ =>
      rewrite (checkpoint_none _ _ _ Hd3) in H; inversion H; subst; clear H end.
    match goal with H : diagnostics _ _ _ _ = _ |- _ =>
      unfold diagnostics in H; rewrite Hd3 in H;
      destruct (1 <? n_dims res'); unfold raise, ret in H;
      inversion H; subst; clear H end.
    split; [reflexivity|]. split; [reflexivity|].
    intros e0 He0. in_cases He0; subst; auto.
    + apply (Forall_class_In _ _ _ Hfp) in He0.
      destruct e0; try discriminate He0; auto.
    + destruct (Hevents _ He0) as [(? & ? & -> & _)|(? & ? & ? & -> & _)];
        auto.
  - (* the plots returned: the space has one dimension *)
    exfalso.
    destruct (Hp _ _ eq_refl) as (Hl1 & _).
    match goal with H : evaluated _ _ _ _ _ _ |- _ =>
      pose proof (fun e => evaluated_events (e := e) H) as Hevents;
      pose proof (evaluated_names _ _ _ _ _ _ Hnames H) as Hsame;
      destruct (evaluated_returned H)
        as (? & ? & ? & ? & _ & _ & _ & _ & _ & _ & Hpd & _) end.
    assert (Hd3 : plots_dir l3 = None).
    { unfold l3. cbn [set_result plots_dir]. rewrite Hpd, Hl1. exact Hdir. }
    match goal with H : checkpoint _ _ _ _ = _ |- _ =>
      rewrite (checkpoint_none _ _ _ Hd3) in H; inversion H; subst; clear H end.
    match goal with H : control_channel _ _ _ _ = _ |- _ =>
      apply control_channel_class in H; rename H into Hcc end.
    match goal with H : diagnostics _ _ _ _ = _ |- _ =>
      unfold diagnostics in H; rewrite Hd3 in H;
      destruct (Z.ltb_spec 1 (n_dims res')) as [Hn|Hn];
      unfold raise, ret in H; inversion H; subst; clear H end.
    assert (t = t0).
    { in_cases Htab; try class_out Htab; [congruence|].
      destruct (Hevents _ Htab) as [(? & ? & E & _)|(? & ? & ? & E & _)];
        discriminate E. }
    subst t. unfold n_dims, res' in Hn. cbn [with_success r_self] in Hn.
    rewrite Hsame in Hn. unfold t0 in Hwide. cbn [columns] in Hwide. lia.
Qed.



(** ** The result object *)

Lemma evaluated_nit next_x t (l : locals eng) res l2 evs :
  evaluated env next_x t l (Ret (res, l2)) evs ->
  r_nit res = Some (count l2) /\ result l2 = Some res.
Proof. intros Hev. inversion Hev; subst. split; reflexivity. Qed.

(** A round that returns has left the result alone (its table failed) or
    has stored a result with the counter and the flag of the round. *)
Lemma round_result (a : args eng) (l : locals eng) (w : world eng)
      c w' evs :
  round_body env operator a l w = (Ret c, w', evs) ->
  (c = Next (ctl_locals c)
   /\ result (ctl_locals c) = result l /\ count (ctl_locals c) = count l)
  \/ exists res,
      result (ctl_locals c) = Some res
      /\ r_nit res = Some (count (ctl_locals c))
      /\ r_success res = Some (match c with
                               | Stop s _ => converged s
                               | Next _ => false
                               end).
Proof.
  intros Hround.
  pose proof (round_body_inv Hround) as Hcase. clear Hround.
  inversion Hcase; subst.
  - left. match goal with H : propose _ _ = _ |- _ =>
      apply propose_inv in H; destruct H as (_ & _ & Hp);
      destruct (Hp _ _ eq_refl) as (Hl1 & _) end.
    cbn [ctl_locals]. rewrite Hl1. repeat split.
  - right. match goal with H : evaluated _ _ _ _ _ _ |- _ =>
      destruct (evaluated_nit _ _ _ _ _ _ H) as (Hnit & _) end.
    eexists. cbn [ctl_locals set_result result count converged].
    split; [reflexivity|]. split; [exact Hnit|reflexivity].
  - right. match goal with H : evaluated _ _ _ _ _ _ |- _ =>
      destruct (evaluated_nit _ _ _ _ _ _ H) as (Hnit & _) end.
    match goal with H : diagnostics _ _ _ _ = _ |- _ =>
      apply diagnostics_inv in H; destruct H as (_ & _ & _ & H);
      destruct (H _ eq_refl) as (Hl4 & _) end.
    match goal with H : control_channel _ _ _ _ = _ |- _ =>
      destruct (control_channel_keeps _ _ _ _ _ _ _ _ H)
        as (c' & E & Hr & Hc & _ & _ & _ & Hshape) end.
    inversion E; subst c'. exists res'. rewrite Hr, Hc, Hl4.
    unfold l3. cbn [set_plots_dir set_result result count].
    split; [reflexivity|]. split; [exact Hnit|].
    destruct Hshape as [->| ->]; reflexivity.
Qed.

Lemma loop_result (a : args eng) (fuel : nat) :
  forall (l : locals eng) (w : world eng) s l' w' tr,
    loop env operator fuel a l w = (Finished s l', w', tr) ->
    (s = Exhausted /\ result l' = result l /\ count l' = count l)
    \/ exists res,
        result l' = Some res /\ r_nit res = Some (count l')
        /\ r_success res = Some (converged s).
Proof.
  induction fuel as [|fuel IH]; intros l w s l' w' tr H; cbn [loop] in H;
    destruct (count l <? n_calls a);
    try (inversion H; subst; left; repeat split; fail);
    try discriminate H.
  destruct (round_body env operator a l w) as [[rr w1] evs1] eqn:Hround.
  destruct rr as [[l1|s1 l1]|e]; [| |discriminate H].
  - destruct (loop env operator fuel a l1 w1) as [[o2 w2] evs2] eqn:Hloop.
    inversion H; subst.
    destruct (round_result _ _ _ _ _ _ Hround)
      as [(_ & Hr & Hc)|(res & Hr & Hn & Hs)];
      destruct (IH _ _ _ _ _ _ Hloop)
        as [(-> & Hr2 & Hc2)|(res2 & Hr2 & Hn2 & Hs2)];
      cbn [ctl_locals] in *.
    + left. repeat split; congruence.
    + right. eauto.
    + right. exists res. rewrite Hr2, Hc2. auto.
    + right. eauto.
  - inversion H; subst.
    destruct (round_result _ _ _ _ _ _ Hround)
      as [(E & _)|(res & Hr & Hn & Hs)]; [discriminate E|].
    right. eauto.
Qed.

(** X12: The result a call returns carries the flag of the way the loop was
    left and the counter of the closing log line: [success] is true when
    the loop converged and false when it was killed or the budget was
    spent.  The one exception is a restart that found nothing left of the
    budget: it returns the stored result as it loaded it. *)
Theorem returned_result_flags (a : args eng) (w : world eng) (fuel : nat)
        s r w' tr :
  skopt_optimize env operator fuel a w = (Returned s r, w', tr) ->
  (exists n,
      r_nit r = Some n /\ r_success r = Some (converged s)
      /\ In (EvBest n (r_fun r) (r_x r)) tr)
  \/ (s = Exhausted
      /\ exists path,
          optimizer_pickle a = Some path
          /\ lookup_pickle path (w_pickles w) = Some r).
Proof.
  unfold skopt_optimize. intros H.
  destruct (init env a w) as [[[l0|e] w0] evs0] eqn:Hinit; [|discriminate H].
  destruct (loop env operator fuel a l0 w0) as [[o w1] evs1] eqn:Hloop.
  destruct o as [s1 l|e|l]; try discriminate H.
  unfold finish in H. destruct (result l) as [r1|] eqn:Hres;
    [|unfold raise in H; discriminate H].
  assert (E : s1 = s /\ r1 = r
              /\ In (EvBest (count l) (r_fun r1) (r_x r1)) tr).
  { unfold bind, emit, ret in H.
    destruct ((1 <? n_dims r1) && plots_show a); inversion H; subst;
      repeat split; in_solve. }
  destruct E as (-> & -> & Hbest). clear H.
  destruct (loop_result _ _ _ _ _ _ _ _ Hloop)
    as [(-> & Hr & Hc)|(res & Hr & Hn & Hs)].
  - right. split; [reflexivity|]. rewrite Hres in Hr.
    unfold init in Hinit. destruct (optimizer_pickle a) as [path|].
    + exists path. split; [reflexivity|]. unfold bind, load in Hinit.
      destruct (lookup_pickle path (w_pickles w)) as [r0|];
        [|discriminate Hinit].
      unfold emit, ret in Hinit. inversion Hinit; subst.
      cbn [result] in Hr. congruence.
    + run_stage Hinit; discriminate Hr.
  - left. rewrite Hres in Hr. inversion Hr; subst res. eauto.
Qed.

(** ** The batch width *)

(** The [ask] of a round is made with the batch width the round starts
    with. *)
Lemma round_ask_width (a : args eng) (l : locals eng) (w : world eng)
      rr w' evs n r :
  round_body env operator a l w = (rr, w', evs) ->
  In (EvAsk n r) evs ->
  n = n_cores l
  /\ (truthy (user_ask l) = false \/ user_next_x l = []).
Proof.
  intros Hround Hin.
  assert (Hp : forall rp wp evs_p,
             propose l w = (rp, wp, evs_p) -> In (EvAsk n r) evs_p ->
             n = n_cores l
             /\ (truthy (user_ask l) = false \/ user_next_x l = [])).
  { unfold propose. intros rp wp evs_p H Hi.
    destruct (truthy (user_ask l)) eqn:Eu;
      [destruct (user_next_x l) as [|p ps] eqn:Ex|];
      cbn [andb] in H; try (unfold len in H; cbn [List.length] in H);
      run_stage H; in_cases Hi; try (inversion Hi; subst; auto). }
  pose proof (round_body_inv Hround) as Hcase. clear Hround.
  inversion Hcase; subst;
    match goal with H : propose _ _ = _ |- _ =>
      pose proof (Hp _ _ _ H) as Hp';
      apply propose_inv in H; destruct H as (_ & Hfp & _) end;
    stages;
    try match goal with H : control_channel _ _ _ _ = _ |- _ =>
          apply control_channel_class in H end;
    in_cases Hin; auto; try class_out Hin;
    match goal with H : evaluated _ _ _ _ _ _ |- _ =>
      destruct (evaluated_events H Hin)
        as [(? & ? & E & _)|(? & ? & ? & E & _)]; discriminate E end.
Qed.

(** X13: The batch width of the control document is the one of the next
    [ask]: after a round that read a mapping, the engine is asked for as
    many points as the document's [n_cores] says, whatever value that is;
    a document without the field leaves the width as it was. *)
Theorem document_sets_batch_width (a : args eng) (l : locals eng)
        (w : world eng) l' w' evs d rr w'' evs' n r :
  round_body env operator a l w = (Ret (Next l'), w', evs) ->
  In (EvRead (Some (PDict d))) evs ->
  round_body env operator a l' w' = (rr, w'', evs') ->
  In (EvAsk n r) evs' ->
  n = field "n_cores" (n_cores l) d.
Proof.
  intros Hround Hin Hnext Hask.
  destruct (round_ask_width _ _ _ _ _ _ _ _ Hnext Hask) as (-> & _).
  destruct (round_reaches_control _ _ _ _ _ _ _ Hround Hin)
    as (l4 & w2 & pre & evs_x & Hcc & -> & Hinx & _ & Hn & _).
  pose proof (control_channel_read _ _ _ _ _ _ Hcc Hinx) as Hop.
  pose proof (control_channel_inv Hcc) as (_ & _ & Hshape).
  rewrite Hop in Hshape. destruct Hshape as (mid & xs & _ & Hw).
  cbv zeta in Hw. rewrite Hn in Hw.
  destruct (cfg_dump env (round_ l4) _ _) as [[e rest]|];
    destruct Hw as (_ & _ & E);
    [|destruct (truthy (field "kill" (PBool false) d))];
    inversion E; subst; reflexivity.
Qed.

End LoopEdges.

(** ** [DataExplorer_mark_index] *)

Section MarkIndexFacts.

Lemma mark_names_strings (ns : list string) :
  forall acc, mark_names (map PStr ns) acc = Ret (acc ++ map marked ns).
Proof.
  induction ns as [|n ns IH]; intros acc; cbn [map mark_names].
  - now rewrite app_nil_r.
  - unfold mark_name. fold (marked n).
    replace (if existsb (String.eqb n) time_names
             then Ret n else Ret (String.append "!" n))
      with (Ret (A := string) (marked n))
      by (unfold marked; now destruct (existsb (String.eqb n) time_names)).
    cbn [res_bind]. rewrite IH, <- app_assoc. reflexivity.
Qed.

Lemma mark_names_not_a_string (names : list pyval) :
  Exists (fun name => forall s, name <> PStr s) names ->
  forall acc, mark_names names acc = Raise TypeError.
Proof.
  induction 1 as [name names Hname|name names _ IH]; intros acc;
    cbn [mark_names].
  - destruct name; try reflexivity. now destruct (Hname s).
  - destruct (mark_name name) as [m|e] eqn:Em; cbn [res_bind]; [apply IH|].
    destruct name; try discriminate Em;
      try (inversion Em; reflexivity).
    unfold mark_name in Em.
    destruct (existsb (String.eqb s) time_names); discriminate Em.
Qed.

Lemma time_name_cases (s : string) :
  existsb (String.eqb s) time_names = true ->
  s = "TIME" \/ s = "Time" \/ s = "time".
Proof.
  unfold time_names. cbn [existsb].
  rewrite orb_false_r, !orb_true_iff, !String.eqb_eq. tauto.
Qed.

Lemma marked_injective (a b : string) : marked a = marked b -> a = b.
Proof.
  unfold marked.
  destruct (existsb (String.eqb a) time_names) eqn:Ea;
    destruct (existsb (String.eqb b) time_names) eqn:Eb; intros E.
  - assumption.
  - apply time_name_cases in Ea. subst a.
    destruct Ea as [Ea|[Ea|Ea]]; discriminate Ea.
  - apply time_name_cases in Eb. subst b.
    destruct Eb as [Eb|[Eb|Eb]]; discriminate Eb.
  - now inversion E.
Qed.

End MarkIndexFacts.

(** X14: The names [DataExplorer_mark_index] hands to [rename], for an index
    whose level names are strings: every name but the three time names
    gets one ['!'] in front, the time names stay, the order is kept; an
    index of one level is renamed with the name itself, not with a list. *)
Theorem mark_index_renames (frame : Type) (index_names : frame -> list pyval)
        (index_rename : pyval -> frame -> res frame) (df : frame)
        (ns : list string) :
  index_names df = map PStr ns ->
  DataExplorer_mark_index frame index_names index_rename df
  = index_rename (match ns with
                  | [n] => PStr (marked n)
                  | _ => PList (map PStr (map marked ns))
                  end) df.
Proof.
  intros Hnames.
  unfold DataExplorer_mark_index. rewrite Hnames, mark_names_strings.
  cbn [res_bind app]. now destruct ns as [|n [|n' ns]].
Qed.

Lemma mark_index_renames_witness :
  DataExplorer_mark_index (list pyval) (fun df => df)
                          (fun names _ => Ret [names])
                          [PStr "hash"; PStr "TIME"]
  = Ret [PList [PStr "!hash"; PStr "TIME"]].
Proof.
  exact (mark_index_renames (list pyval) (fun df => df)
                            (fun names _ => Ret [names])
                            [PStr "hash"; PStr "TIME"]
                            ["hash"; "TIME"] eq_refl).
Defined.

(** X15: An index level without a string for a name, as the unnamed index of a
    fresh frame has, is a [TypeError]: the index is not renamed. *)
Theorem mark_index_unnamed_level (frame : Type)
        (index_names : frame -> list pyval)
        (index_rename : pyval -> frame -> res frame) (df : frame) :
  Exists (fun name => forall s, name <> PStr s) (index_names df) ->
  DataExplorer_mark_index frame index_names index_rename df = Raise TypeError.
Proof.
  intros Hex. unfold DataExplorer_mark_index.
  now rewrite mark_names_not_a_string.
Qed.

Lemma mark_index_unnamed_level_witness :
  DataExplorer_mark_index (list pyval) (fun df => df)
                          (fun names _ => Ret [names])
                          [PStr "hash"; PNone]
  = Raise TypeError.
Proof.
  apply (mark_index_unnamed_level (list pyval) (fun df => df)
                                  (fun names _ => Ret [names])
                                  [PStr "hash"; PNone]).
  apply Exists_cons_tl, Exists_cons_hd. intros s. discriminate.
Defined.

(** X16: The marking keeps the level names apart: names that differ differ
    after it, so that an index without a repeated name has none after. *)
Theorem mark_index_keeps_names_apart (ns : list string) :
  NoDup ns ->
  exists ms, mark_names (map PStr ns) [] = Ret ms
             /\ NoDup ms /\ List.length ms = List.length ns.
Proof.
  intros Hnd. exists (map marked ns). rewrite mark_names_strings.
  split; [reflexivity|]. split; [|apply length_map].
  induction Hnd as [|n ns Hn _ IH]; cbn [map]; constructor; [|assumption].
  intros Hin. apply in_map_iff in Hin as (m & E & Hm).
  apply marked_injective in E. now subst m.
Qed.

Lemma mark_index_keeps_names_apart_witness :
  exists ms, mark_names (map PStr ["hash"; "!hash"; "time"]) [] = Ret ms
             /\ NoDup ms /\ List.length ms = 3%nat.
Proof.
  apply (mark_index_keeps_names_apart ["hash"; "!hash"; "time"]).
  repeat constructor; cbn [In]; intros H;
    repeat (destruct H as [H|H]; [discriminate H|]); exact H.
Defined.

(** ** [DataExplorer_open] *)

Section OpenFacts.

Variable frame : Type.
Variable index_names : frame -> list pyval.
Variable index_rename : pyval -> frame -> res frame.
Variable to_excel : frame -> string -> res unit.
Variable path_join3 : string -> string -> string -> string.
Variable main : list string -> res unit.
Variable info_enabled : bool.

Variables bokeh_app data_name data_file output_backend : string.
Variable show : bool.

Local Abbreviation calls_at port :=
  (call_list bokeh_app port show data_name data_file output_backend).

Local Abbreviation serve_from fuel port :=
  (serve main fuel bokeh_app port show data_name data_file output_backend).

Lemma ports_from_S (port : Z) (k : nat) :
  ports_from port (S k) = port :: ports_from (port + 1) k.
Proof. reflexivity. Qed.

(** After [k] blocked ports the loop ends on the first port that is not:
    its outcome is the one of [main] there. *)
Lemma serve_first_free (k : nat) :
  forall port fuel,
    (forall i, 0 <= i < Z.of_nat k -> blocked (main (calls_at (port + i))) = true) ->
    blocked (main (calls_at (port + Z.of_nat k))) = false ->
    (k < fuel)%nat ->
    exists tr,
      serve_from fuel port
      = (Some (main (calls_at (port + Z.of_nat k))), tr)
      /\ served tr = map (fun p => calls_at p) (ports_from port (S k)).
Proof.
  induction k as [|k IH]; intros port fuel Hblocked Hfree Hfuel;
    (destruct fuel as [|fuel]; [lia|]); cbn [serve].
  - cbn [Z.of_nat] in *. rewrite Z.add_0_r in *. unfold blocked in Hfree.
    destruct (main (calls_at port)) as [[]|e].
    + eexists. split; reflexivity.
    + rewrite Hfree. eexists. split; reflexivity.
  - pose proof (Hblocked 0 ltac:(lia)) as H0. rewrite Z.add_0_r in H0.
    unfold blocked in H0.
    destruct (main (calls_at port)) as [u|e]; [discriminate H0|].
    rewrite H0.
    destruct (IH (port + 1) fuel) as (tr & Hserve & Hserved).
    + intros i Hi. replace (port + 1 + i) with (port + (i + 1)) by lia.
      apply Hblocked. lia.
    + replace (port + 1 + Z.of_nat k) with (port + Z.of_nat (S k)) by lia.
      exact Hfree.
    + lia.
    + rewrite Hserve. eexists. split.
      * replace (port + 1 + Z.of_nat k) with (port + Z.of_nat (S k)) by lia.
        reflexivity.
      * cbn [served]. rewrite Hserved, (ports_from_S port (S k)).
        reflexivity.
Qed.

(** While every port is blocked the loop goes on to the next. *)
Lemma serve_all_blocked (fuel : nat) :
  forall port,
    (forall i, 0 <= i -> blocked (main (calls_at (port + i))) = true) ->
    exists tr,
      serve_from fuel port = (None, tr)
      /\ served tr = map (fun p => calls_at p) (ports_from port fuel).
Proof.
  induction fuel as [|fuel IH]; intros port Hblocked; cbn [serve].
  - eexists. split; reflexivity.
  - pose proof (Hblocked 0 ltac:(lia)) as H0. rewrite Z.add_0_r in H0.
    unfold blocked in H0.
    destruct (main (calls_at port)) as [u|e]; [discriminate H0|].
    rewrite H0. destruct (IH (port + 1)) as (tr & Hserve & Hserved).
    + intros i Hi. replace (port + 1 + i) with (port + (i + 1)) by lia.
      apply Hblocked. lia.
    + rewrite Hserve. eexists. split; [reflexivity|].
      cbn [served]. now rewrite Hserved, ports_from_S.
Qed.

Lemma served_app (tr1 tr2 : list de_event) :
  served (tr1 ++ tr2) = served tr1 ++ served tr2.
Proof.
  induction tr1 as [|e tr1 IH]; [reflexivity|].
  destruct e; cbn [app served]; rewrite IH; reflexivity.
Qed.

End OpenFacts.


Section OpenTheorems.

Variable frame : Type.
Variable index_names : frame -> list pyval.
Variable index_rename : pyval -> frame -> res frame.
Variable to_excel : frame -> string -> res unit.
Variable path_join3 : string -> string -> string -> string.
Variable main : list string -> res unit.
Variable info_enabled : bool.

Variables bokeh_app data_name output_backend : string.
Variable show : bool.

Local Abbreviation data_file :=
  (path_join3 bokeh_app "upload" (String.append data_name ".xlsx")).

Local Abbreviation calls_at port :=
  (call_list bokeh_app port show data_name data_file output_backend).

Local Abbreviation open_at fuel df port mark_index :=
  (DataExplorer_open frame index_names index_rename to_excel path_join3 main
                     info_enabled fuel df data_name port bokeh_app show
                     output_backend mark_index).

Local Abbreviation marking df mark_index :=
  (if mark_index
   then DataExplorer_mark_index frame index_names index_rename df
   else Ret df).

(** X17: [DataExplorer_open] starts the application on the first port, from
    [port] upwards, that [main] does not leave with [SystemExit]: it has
    saved the frame, tried the [k] ports before in order, one command line
    each, and its outcome is the one of [main] on that port. *)
Theorem open_serves_first_free_port (fuel k : nat) (df df1 : frame)
        (port : Z) (mark_index : bool) :
  marking df mark_index = Ret df1 ->
  to_excel df1 data_file = Ret tt ->
  (forall i, 0 <= i < Z.of_nat k ->
             blocked (main (calls_at (port + i))) = true) ->
  blocked (main (calls_at (port + Z.of_nat k))) = false ->
  (k < fuel)%nat ->
  exists tr,
    open_at fuel df port mark_index
    = (Some (main (calls_at (port + Z.of_nat k))), tr)
    /\ served tr = map (fun p => calls_at p) (ports_from port (S k))
    /\ In (DeToExcel data_file (Ret tt)) tr.
Proof.
  intros Hmark Hsave Hblocked Hfree Hfuel.
  destruct (serve_first_free main bokeh_app data_name data_file
                             output_backend show k port fuel
                             Hblocked Hfree Hfuel) as (tr & Hserve & Hserved).
  unfold DataExplorer_open. rewrite Hmark, Hsave, Hserve.
  eexists. split; [reflexivity|]. split.
  - rewrite served_app. cbn [served]. rewrite Hserved.
    now destruct info_enabled.
  - apply in_or_app. right. now left.
Qed.

(** X18: While [main] leaves with [SystemExit] on every port, the function
    goes on to the next port and never returns: whatever the number of
    ports it is given, it has tried them all and is still looking. *)
Theorem open_never_gives_up (fuel : nat) (df df1 : frame) (port : Z)
        (mark_index : bool) :
  marking df mark_index = Ret df1 ->
  to_excel df1 data_file = Ret tt ->
  (forall i, 0 <= i -> blocked (main (calls_at (port + i))) = true) ->
  exists tr,
    open_at fuel df port mark_index = (None, tr)
    /\ served tr = map (fun p => calls_at p) (ports_from port fuel).
Proof.
  intros Hmark Hsave Hblocked.
  destruct (serve_all_blocked main bokeh_app data_name data_file
                              output_backend show fuel port Hblocked)
    as (tr & Hserve & Hserved).
  unfold DataExplorer_open. rewrite Hmark, Hsave, Hserve.
  eexists. split; [reflexivity|].
  rewrite served_app. cbn [served]. rewrite Hserved.
  now destruct info_enabled.
Qed.

(** X19: The application is only started on a saved file: when the marking of
    the index or [to_excel] raises, [main] is not called. *)
Theorem open_saves_before_serving (fuel : nat) (df : frame) (port : Z)
        (mark_index : bool) o tr :
  open_at fuel df port mark_index = (o, tr) ->
  served tr <> [] ->
  exists df1,
    marking df mark_index = Ret df1
    /\ to_excel df1 data_file = Ret tt
    /\ In (DeToExcel data_file (Ret tt)) tr.
Proof.
  unfold DataExplorer_open. intros H Hserved.
  destruct (marking df mark_index) as [df1|e].
  2: { inversion H; subst. now destruct Hserved. }
  destruct (to_excel df1 data_file) as [[]|e] eqn:Hsave.
  - exists df1. split; [reflexivity|]. split; [exact Hsave|].
    destruct (serve main fuel bokeh_app port show data_name data_file
                    output_backend) as [o' tr'].
    inversion H; subst. in_solve.
  - inversion H; subst. exfalso. apply Hserved.
    now destruct info_enabled.
Qed.

End OpenTheorems.

(** ** [df_set_filtered_to_NaN] *)

Section FilterFacts.

Lemma prefix_app (f c : string) :
  prefix f c = true <-> exists post, c = String.append f post.
Proof.
  revert c. induction f as [|a f IH]; intros c; cbn [prefix String.append].
  - split; [intros _; now exists c|intros _; now destruct c].
  - destruct c as [|b c].
    + split; [discriminate|intros (post & E); discriminate E].
    + cbn [prefix]. destruct (Ascii.ascii_dec a b) as [->|Hab].
      * rewrite IH. split; intros (post & E); exists post;
          [now rewrite E|now inversion E].
      * split; [discriminate|intros (post & E); inversion E; subst;
                               now destruct Hab].
Qed.

(** [occurs] is the substring test of Python's [in]. *)
Lemma occurs_spec (f c : string) :
  occurs f c = true
  <-> exists pre post, c = String.append pre (String.append f post).
Proof.
  induction c as [|b c IH]; cbn [occurs].
  - rewrite orb_false_r, prefix_app. split.
    + intros (post & E). now exists "", post.
    + intros ([|a pre] & post & E); [now exists post|discriminate E].
  - rewrite orb_true_iff, prefix_app, IH. split.
    + intros [(post & E)|(pre & post & E)].
      * now exists "", post.
      * exists (String b pre), post. cbn [String.append]. now rewrite E.
    + intros ([|a pre] & post & E).
      * left. now exists post.
      * right. cbn [String.append] in E. inversion E; subst.
        now exists pre, post.
Qed.

Lemma occurs_empty (c : string) : occurs "" c = true.
Proof. destruct c; reflexivity. Qed.

Lemma first_match_selected (filters : list string) (c : label) :
  is_LInt c = false -> first_match filters c = Ret (selected filters c).
Proof.
  intros Hc. induction filters as [|f fs IH]; cbn [first_match].
  - now destruct c.
  - destruct c as [s|parts|z]; [| |discriminate Hc];
      cbn [filter_matches res_bind selected filtered existsb] in *.
    + destruct (occurs f s) eqn:Eo; cbn [orb]; [reflexivity|].
      destruct (String.eqb_spec f s) as [->|_]; [|exact IH].
      exfalso. assert (H : occurs s s = true); [|congruence].
      apply occurs_spec. exists "", "". cbn [String.append].
      clear. induction s as [|a s IHs]; [reflexivity|].
      cbn [String.append]. now rewrite <- IHs.
    + rewrite orb_false_r.
      destruct (existsb (String.eqb f) parts); [reflexivity|exact IH].
Qed.

Lemma first_match_integer (filters : list string) (z : Z) :
  filters <> [] -> first_match filters (LInt z) = Raise TypeError.
Proof. destruct filters; [contradiction|reflexivity]. Qed.

End FilterFacts.

Section SetFilteredFacts.

Variables frame mask value : Type.
Variable frame_columns : frame -> list label.
Variable set_masked : label -> mask -> value -> frame -> res frame.

Local Abbreviation run_on cols filters m v df :=
  (set_columns frame mask value set_masked cols filters m v df).

(** A run that returns has assigned to the selected labels, each once, in
    the order of the columns. *)
Lemma set_columns_selected (filters : list string) (m : mask) (v : value) :
  forall cols df df' tr,
    forallb (fun c => negb (is_LInt c)) cols = true ->
    run_on cols filters m v df = (Ret tt, df', tr) ->
    tr = filter (selected filters) cols.
Proof.
  induction cols as [|c cols IH]; intros df df' tr Hcols H;
    cbn [set_columns] in H.
  - now inversion H.
  - cbn [forallb] in Hcols. apply andb_prop in Hcols as (Hc & Hcols).
    apply negb_true_iff in Hc.
    rewrite (first_match_selected filters c Hc) in H. cbn [filter].
    destruct (selected filters c).
    + destruct (set_masked c m v df) as [df1|e]; [|discriminate H].
      destruct (run_on cols filters m v df1) as [[r df2] tr2] eqn:Hrest.
      inversion H; subst. f_equal. eapply IH; eassumption.
    + eapply IH; eassumption.
Qed.

Lemma filter_selected_strings (filters : list string) (names : list string) :
  filter (selected filters) (map LStr names)
  = map LStr (filter (filtered filters) names).
Proof.
  induction names as [|n names IH]; [reflexivity|].
  cbn [map filter selected]. destruct (filtered filters n); cbn [map];
    now rewrite IH.
Qed.

Lemma forallb_strings (names : list string) :
  forallb (fun c => negb (is_LInt c)) (map LStr names) = true.
Proof. induction names; [reflexivity|assumption]. Qed.

Lemma forallb_tuples (tuples : list (list string)) :
  forallb (fun c => negb (is_LInt c)) (map LTuple tuples) = true.
Proof. induction tuples; [reflexivity|assumption]. Qed.

(** X20: The columns [df_set_filtered_to_NaN] assigns to, for string labels:
    those in which a filter occurs as a substring, each once, in the order
    of the columns. *)
Theorem filters_select_columns (df df' : frame) (filters : list string)
        (m : mask) (v : value) (tr : list label) (names : list string) :
  frame_columns df = map LStr names ->
  df_set_filtered_to_NaN frame mask value frame_columns set_masked
                         df filters m v = (Ret tt, df', tr) ->
  tr = map LStr (filter (filtered filters) names)
  /\ forall c,
      In (LStr c) tr
      <-> In c names
          /\ exists f pre post,
              In f filters
              /\ c = String.append pre (String.append f post).
Proof.
  unfold df_set_filtered_to_NaN. intros Hcols H. rewrite Hcols in H.
  apply set_columns_selected in H; [|apply forallb_strings].
  rewrite filter_selected_strings in H. subst tr. split; [reflexivity|].
  intros c. rewrite in_map_iff. split.
  - intros (c' & E & Hin). inversion E; subst c'.
    apply filter_In in Hin as (Hin & Hf). split; [assumption|].
    unfold filtered in Hf. apply existsb_exists in Hf as (f & Hf & Ho).
    apply occurs_spec in Ho as (pre & post & ->). eauto.
  - intros (Hin & f & pre & post & Hf & ->). eexists. split; [reflexivity|].
    apply filter_In. split; [assumption|].
    unfold filtered. apply existsb_exists. exists f. split; [assumption|].
    apply occurs_spec. eauto.
Qed.

(** X21: For tuple labels, the columns of a [MultiIndex], a filter selects the
    columns that have it as one of their parts: the whole part, not a
    substring of it. *)
Theorem filters_match_whole_parts (df df' : frame) (filters : list string)
        (m : mask) (v : value) (tr : list label)
        (tuples : list (list string)) :
  frame_columns df = map LTuple tuples ->
  df_set_filtered_to_NaN frame mask value frame_columns set_masked
                         df filters m v = (Ret tt, df', tr) ->
  forall parts,
    In (LTuple parts) tr
    <-> In parts tuples /\ exists f, In f filters /\ In f parts.
Proof.
  unfold df_set_filtered_to_NaN. intros Hcols H parts. rewrite Hcols in H.
  apply set_columns_selected in H; [|apply forallb_tuples]. subst tr.
  rewrite filter_In, in_map_iff. cbn [selected]. split.
  - intros ((ps & E & Hin) & Hsel). inversion E; subst ps.
    split; [assumption|].
    apply existsb_exists in Hsel as (f & Hf & Hp).
    apply existsb_exists in Hp as (q & Hq & Efq).
    apply String.eqb_eq in Efq. subst q. eauto.
  - intros (Hin & f & Hf & Hp). split; [eauto|].
    apply existsb_exists. exists f. split; [assumption|].
    apply existsb_exists. exists f. split; [assumption|].
    apply String.eqb_refl.
Qed.

(** X22: The empty string occurs in every string: with it among the filters
    every column with a string label is assigned to. *)
Theorem empty_filter_selects_all (df df' : frame) (filters : list string)
        (m : mask) (v : value) (tr : list label) (names : list string) :
  In "" filters ->
  frame_columns df = map LStr names ->
  df_set_filtered_to_NaN frame mask value frame_columns set_masked
                         df filters m v = (Ret tt, df', tr) ->
  tr = frame_columns df.
Proof.
  unfold df_set_filtered_to_NaN. intros Hempty Hcols H. rewrite Hcols in *.
  apply set_columns_selected in H; [|apply forallb_strings]. subst tr.
  rewrite filter_selected_strings. f_equal. clear Hcols.
  induction names as [|n names IH]; [reflexivity|]. cbn [filter].
  replace (filtered filters n) with true; [now rewrite IH|].
  symmetry. apply existsb_exists. exists "". split; [assumption|].
  apply occurs_empty.
Qed.

(** X23: An integer label cannot be searched for a filter: with a filter to
    look for, a frame that has such a column ends the call with a
    [TypeError], whatever the other columns are. *)
Theorem integer_label_is_an_error (df : frame) (filters : list string)
        (m : mask) (v : value) (z : Z) :
  filters <> [] ->
  (forall c d, exists d', set_masked c m v d = Ret d') ->
  In (LInt z) (frame_columns df) ->
  fst (fst (df_set_filtered_to_NaN frame mask value frame_columns set_masked
                                   df filters m v))
  = Raise TypeError.
Proof.
  unfold df_set_filtered_to_NaN. intros Hne Hset.
  generalize (frame_columns df) as cols. intros cols. revert df.
  induction cols as [|c cols IH]; intros df Hin; [destruct Hin|].
  cbn [set_columns].
  destruct (is_LInt c) eqn:Hc.
  - destruct c; try discriminate Hc.
    now rewrite first_match_integer.
  - assert (Hrest : In (LInt z) cols).
    { destruct Hin as [->|Hin]; [discriminate Hc|assumption]. }
    rewrite (first_match_selected filters c Hc).
    destruct (selected filters c); [|now apply IH].
    destruct (Hset c df) as (d' & ->).
    specialize (IH d' Hrest).
    destruct (run_on cols filters m v d') as [[r d''] tr]. exact IH.
Qed.

(** Without a filter nothing is assigned and the frame is returned as it
    came, whatever its labels. *)
Lemma no_filter_no_change (df : frame) (m : mask) (v : value) :
  df_set_filtered_to_NaN frame mask value frame_columns set_masked df [] m v
  = (Ret tt, df, []).
Proof.
  unfold df_set_filtered_to_NaN.
  induction (frame_columns df) as [|c cols IH]; [reflexivity|].
  cbn [set_columns first_match]. exact IH.
Qed.

End SetFilteredFacts.

(** ** [df_to_excel] *)

Section ExcelFacts.

Import Excel.

Variable P : Pandas.

Lemma dict_get_del_same (k : string) (d : dict) :
  dict_get k (dict_del k d) = None.
Proof.
  induction d as [|[k' v] d IH]; [reflexivity|]. cbn [dict_del].
  destruct (String.eqb k k') eqn:E; [assumption|].
  cbn [dict_get]. now rewrite E.
Qed.

Lemma dict_get_del_other (k k' : string) (d : dict) :
  k <> k' -> dict_get k (dict_del k' d) = dict_get k d.
Proof.
  intros Hne. induction d as [|[k0 v] d IH]; [reflexivity|].
  cbn [dict_del dict_get].
  destruct (String.eqb_spec k' k0) as [->|Hk0].
  - destruct (String.eqb_spec k k0); [contradiction|assumption].
  - cbn [dict_get]. now rewrite IH.
Qed.

(** [freeze] leaves every other keyword parameter alone. *)
Lemma freeze_other (df : frame P) (merge_cells : bool) (kwargs : dict)
      (k : string) :
  k <> "freeze_panes" ->
  dict_get k (freeze P df merge_cells kwargs) = dict_get k kwargs.
Proof.
  intros Hk. unfold freeze.
  destruct (dict_get "freeze_panes" kwargs) as [[| [|] | | | | |]|];
    try reflexivity;
    first [ now apply dict_get_set_other | now apply dict_get_del_other ].
Qed.

Lemma sheets_written_app (tr1 tr2 : list (xl_event (frame P))) :
  sheets_written (tr1 ++ tr2) = sheets_written tr1 ++ sheets_written tr2.
Proof.
  induction tr1 as [|e tr1 IH]; [reflexivity|].
  destruct e as [| | | | df t m kw [u|ex] | |]; cbn [app sheets_written];
    now rewrite IH.
Qed.

Lemma ensure_dir_inv (d : string) (w : files) r w' tr :
  ensure_dir P d w = (r, w', tr) ->
  sheets_written tr = []
  /\ clock w' = clock w
  /\ (forall df t m kw rr, ~ In (ToExcel df t m kw rr) tr)
  /\ (r = Ret tt \/ (r = Raise FileNotFoundError /\ d = "")).
Proof.
  unfold ensure_dir. intros H.
  destruct (path_exists d w); [|destruct (String.eqb_spec d "")];
    inversion H; subst; cbn [sheets_written clock];
    (split; [reflexivity|]); (split; [reflexivity|]);
    (split; [intros df t m kw rr Hin; in_cases Hin|]); auto.
Qed.

(** A call on one frame hands [to_excel] that frame with the keyword
    parameters [freeze] leaves, whatever the number of attempts, and has
    written one sheet when it returns and none when it raises. *)
Lemma one_frame_calls (fuel : nat) :
  forall (df : frame P) path sheet_names styles merge_cells check kwargs
         w r w' tr,
    df_to_excel P fuel (One df) path sheet_names styles merge_cells check
                kwargs w = (r, w', tr) ->
    (forall f t m kw rr,
        In (ToExcel f t m kw rr) tr ->
        f = df /\ m = merge_cells /\ kw = freeze P df merge_cells kwargs)
    /\ sheets_written tr
       = match r with
         | Ret _ => [dict_get "sheet_name" kwargs]
         | Raise _ => []
         end.
Proof.
  induction fuel as [|fuel IH];
    intros df path sheet_names styles merge_cells check kwargs w r w' tr H;
    cbn [df_to_excel] in H.
  - unfold xraise in H. inversion H; subst. split; [|reflexivity].
    intros f t m kw rr Hin. destruct Hin.
  - destruct check.
    + destruct (df_to_excel P fuel (One df) path sheet_names styles
                            merge_cells false kwargs w)
        as [[r1 w1] tr1] eqn:H1.
      destruct (IH _ _ _ _ _ _ _ _ _ _ _ H1) as (Hev1 & Hs1).
      destruct r1 as [u|e]; [inversion H; subst; auto|].
      destruct (is_PermissionError e); [|inversion H; subst; auto].
      destruct (df_to_excel P fuel (One df) _ sheet_names styles
                            merge_cells true kwargs (tick w1))
        as [[r2 w2] tr2] eqn:H2.
      destruct (IH _ _ _ _ _ _ _ _ _ _ _ H2) as (Hev2 & Hs2).
      inversion H; subst. split.
      * intros f t m kw rr Hin. in_cases Hin; eauto.
      * rewrite sheets_written_app, Hs1. cbn [app sheets_written].
        exact Hs2.
    + unfold xbind in H.
      destruct (ensure_dir P (dirname P (target_path path)) w)
        as [[rd wd] trd] eqn:Hd.
      destruct (ensure_dir_inv _ _ _ _ _ Hd) as (Hsd & _ & Hnd & _).
      destruct rd as [u|e].
      * unfold call in H.
        destruct (to_excel P df (target_path path) (into_writer path)
                           merge_cells (freeze P df merge_cells kwargs))
          as [u'|e] eqn:Hx; inversion H; subst; split;
          try (intros f t m kw rr Hin; in_cases Hin;
               [now apply Hnd in Hin|inversion Hin; subst; auto]);
          rewrite sheets_written_app, Hsd; cbn [app sheets_written];
          rewrite ?freeze_other by discriminate; reflexivity.
      * inversion H; subst. split; [|assumption].
        intros f t m kw rr Hin. now apply Hnd in Hin.
Qed.

(** An exception of the attempt without the permission check that is no
    [PermissionError] is the outcome of the call. *)
Lemma df_to_excel_checked (fuel : nat) (df : frames (frame P)) path
      sheet_names styles merge_cells kwargs w e w1 tr1 :
  df_to_excel P fuel df path sheet_names styles merge_cells false kwargs w
  = (Raise e, w1, tr1) ->
  is_PermissionError e = false ->
  df_to_excel P (S fuel) df path sheet_names styles merge_cells true kwargs w
  = (Raise e, w1, tr1).
Proof. intros H He. cbn [df_to_excel]. now rewrite H, He. Qed.

(** A [PermissionError] of the attempt without the permission check
    sends the call to the time-stamped path. *)
Lemma df_to_excel_fallback (fuel : nat) (df : frames (frame P)) path
      sheet_names styles merge_cells kwargs w e w1 tr1 :
  df_to_excel P fuel df path sheet_names styles merge_cells false kwargs w
  = (Raise e, w1, tr1) ->
  is_PermissionError e = true ->
  df_to_excel P (S fuel) df path sheet_names styles merge_cells true kwargs w
  = let p := path_time P (target_path path) (strftime P (clock w1)) in
    let '(r, w2, tr2) :=
      df_to_excel P fuel df (ToPath p) sheet_names styles merge_cells true
                  kwargs (tick w1) in
    (r, w2, tr1 ++ LogCritical e :: LogInstead p :: tr2).
Proof.
  intros H He. cbn [df_to_excel]. rewrite H, He. cbv zeta.
  now destruct (df_to_excel P fuel df _ sheet_names styles merge_cells true
                            kwargs (tick w1)) as [[r w2] tr2].
Qed.

(** The attempt on one frame without the permission check. *)
Lemma df_to_excel_one (fuel : nat) (df : frame P) path sheet_names styles
      merge_cells kwargs w :
  df_to_excel P (S fuel) (One df) path sheet_names styles merge_cells false
              kwargs w
  = xbind P (ensure_dir P (dirname P (target_path path)))
          (fun _ =>
             call P (ToExcel df path merge_cells
                             (freeze P df merge_cells kwargs))
                  (to_excel P df (target_path path) (into_writer path)
                            merge_cells (freeze P df merge_cells kwargs))) w.
Proof. reflexivity. Qed.

(** The loop over the frames of a workbook that returns has written one
    sheet a frame, named after [sheet_names] or after its position. *)
Lemma sheets_loop (fuel : nat) (p : string) (sheet_names : list sheet_label)
      (styles : list pyval) (merge_cells : bool) (kwargs : dict) :
  forall (dfs : list (frame P)) (i : nat) w w' tr,
    for_each P
      (fun i df_ =>
         let sheet := sheet_for sheet_names i in
         xbind P
           (match dict_get "sheet_name" kwargs with
            | Some _ => xraise P TypeError
            | None =>
                df_to_excel P fuel (One df_) (ToWriter p) [] [] merge_cells
                            true (("sheet_name", PStr sheet) :: kwargs)
            end)
           (fun _ => try_styles P styles i sheet))
      i dfs w = (Ret tt, w', tr) ->
    sheets_written tr
    = map (fun j => Some (PStr (sheet_for sheet_names j)))
          (seq i (List.length dfs)).
Proof.
  induction dfs as [|df dfs IH]; intros i w w' tr H; cbn [for_each] in H.
  - unfold xret in H. now inversion H.
  - unfold xbind at 1 in H. unfold xbind at 1 in H.
    destruct (dict_get "sheet_name" kwargs) as [v|] eqn:Hk;
      [unfold xraise in H; discriminate H|].
    destruct (df_to_excel P fuel (One df) (ToWriter p) [] [] merge_cells true
                          (("sheet_name", PStr (sheet_for sheet_names i))
                           :: kwargs) w)
      as [[r1 w1] tr1] eqn:H1.
    destruct (one_frame_calls _ _ _ _ _ _ _ _ _ _ _ _ H1) as (_ & Hs1).
    destruct r1 as [u|e]; [|discriminate H].
    destruct (try_styles P styles i (sheet_for sheet_names i) w1)
      as [[r2 w2] tr2] eqn:H2.
    assert (Hs2 : r2 = Ret tt /\ sheets_written tr2 = []).
    { unfold try_styles in H2. destruct styles; unfold xret in H2;
        inversion H2; subst; split; reflexivity. }
    destruct Hs2 as (-> & Hs2).
    destruct (for_each P _ (S i) dfs w2) as [[r3 w3] tr3] eqn:H3.
    inversion H; subst. apply IH in H3.
    rewrite !sheets_written_app, Hs1, Hs2, H3. reflexivity.
Qed.

Lemma several_frames_once (fuel : nat) (dfs : list (frame P)) path
      sheet_names styles merge_cells kwargs w w' tr :
  df_to_excel P fuel (Several dfs) path sheet_names styles merge_cells false
              kwargs w = (Ret tt, w', tr) ->
  sheets_written tr
  = map (fun j => Some (PStr (sheet_for sheet_names j)))
        (seq 0 (List.length dfs))
  /\ In (Save (target_path path) (Ret tt)) tr.
Proof.
  destruct fuel as [|fuel]; cbn [df_to_excel]; intros H;
    [unfold xraise in H; discriminate H|].
  unfold xbind at 1 in H.
  destruct (ensure_dir P (dirname P (target_path path)) w)
    as [[rd wd] trd] eqn:Hd.
  destruct (ensure_dir_inv _ _ _ _ _ Hd) as (Hsd & _).
  destruct rd as [u|e]; [|discriminate H].
  unfold xbind at 1, call at 1 in H.
  destruct (ExcelWriter P (target_path path)) as [u'|e]; [|discriminate H].
  unfold xbind at 1 in H.
  match type of H with
  | context [for_each P ?body O dfs wd] =>
      destruct (for_each P body O dfs wd) as [[rf wf] trf] eqn:Hf
  end.
  destruct rf as [[]|e]; [|discriminate H].
  apply sheets_loop in Hf. unfold call in H.
  destruct (save P (target_path path)) as [[]|e]; [|discriminate H].
  inversion H; subst. split.
  - rewrite sheets_written_app, Hsd. cbn [app sheets_written].
    rewrite sheets_written_app, Hf. cbn [sheets_written].
    now rewrite app_nil_r.
  - in_solve.
Qed.

Lemma sheets_placed_app (tr1 tr2 : list (xl_event (frame P))) :
  sheets_placed (tr1 ++ tr2) = sheets_placed tr1 ++ sheets_placed tr2.
Proof.
  induction tr1 as [|e tr1 IH]; [reflexivity|].
  destruct e as [| | | | df t m kw [u|ex] | |]; cbn [app sheets_placed];
    now rewrite IH.
Qed.

(** The names of the sheets placed are the sheets written. *)
Lemma sheets_placed_names (tr : list (xl_event (frame P))) :
  map snd (sheets_placed tr) = sheets_written tr.
Proof.
  induction tr as [|e tr IH]; [reflexivity|].
  destruct e as [| | | | df t m kw [u|ex] | |];
    cbn [sheets_placed sheets_written map snd]; now rewrite ?IH.
Qed.

Lemma quiet_app (tr1 tr2 : list (xl_event (frame P))) :
  Forall (fun e => saves e = false) tr1 ->
  Forall (fun e => saves e = false) tr2 ->
  Forall (fun e => saves e = false) (tr1 ++ tr2).
Proof. intros H1 H2. apply Forall_app. now split. Qed.

Lemma ensure_dir_quiet (d : string) (w : files) r w' tr :
  ensure_dir P d w = (r, w', tr) ->
  sheets_placed tr = []
  /\ Forall (fun e => saves e = false) tr
  /\ forall e, r = Raise e -> is_PermissionError e = false.
Proof.
  unfold ensure_dir. intros H.
  destruct (path_exists d w); [|destruct (String.eqb d "")];
    inversion H; subst; cbn [sheets_placed];
    (split; [reflexivity|]); (split; [repeat constructor|]);
    intros e E; inversion E; reflexivity.
Qed.

(** One attempt on one frame: it saves no workbook; when it returns it has
    placed the sheet at its target, and when it ends on a
    [PermissionError] that is the one of its [to_excel]. *)
Lemma one_frame_attempt (fuel : nat) (df : frame P) path sheet_names styles
      merge_cells kwargs w r w' tr :
  df_to_excel P fuel (One df) path sheet_names styles merge_cells false
              kwargs w = (r, w', tr) ->
  Forall (fun e => saves e = false) tr
  /\ match r with
     | Ret _ => sheets_placed tr = [(path, dict_get "sheet_name" kwargs)]
     | Raise e =>
         sheets_placed tr = []
         /\ (is_PermissionError e = true ->
             In (ToExcel df path merge_cells
                         (freeze P df merge_cells kwargs) (Raise e)) tr)
     end.
Proof.
  destruct fuel as [|fuel]; intros H.
  - cbn [df_to_excel] in H. unfold xraise in H. inversion H; subst.
    split; [constructor|]. split; [reflexivity|]. discriminate.
  - rewrite df_to_excel_one in H. unfold xbind in H.
    destruct (ensure_dir P (dirname P (target_path path)) w)
      as [[rd wd] trd] eqn:Hd.
    destruct (ensure_dir_quiet _ _ _ _ _ Hd) as (Hpd & Hqd & Hed).
    destruct rd as [u|e].
    + unfold call in H.
      destruct (to_excel P df (target_path path) (into_writer path)
                         merge_cells (freeze P df merge_cells kwargs))
        as [u'|e] eqn:Hx; inversion H; subst;
        (split; [apply quiet_app; [assumption|repeat constructor]|]);
        rewrite ?sheets_placed_app, ?Hpd; cbn [app sheets_placed].
      * now rewrite freeze_other by discriminate.
      * split; [reflexivity|]. intros _. in_solve.
    + inversion H; subst. split; [assumption|]. split; [assumption|].
      intros He. rewrite (Hed _ eq_refl) in He. discriminate He.
Qed.

(** A call on one frame saves no workbook, and places its sheet at its
    target, or in a file of its own after the [to_excel] at the target
    ended on a [PermissionError]. *)
Lemma one_frame_placed (fuel : nat) :
  forall (df : frame P) path sheet_names styles merge_cells check kwargs
         w r w' tr,
    df_to_excel P fuel (One df) path sheet_names styles merge_cells check
                kwargs w = (r, w', tr) ->
    Forall (fun e => saves e = false) tr
    /\ forall t n,
        In (t, n) (sheets_placed tr) ->
        n = dict_get "sheet_name" kwargs
        /\ (t = path
            \/ ((exists q, t = ToPath q)
                /\ exists e,
                    In (ToExcel df path merge_cells
                                (freeze P df merge_cells kwargs) (Raise e)) tr
                    /\ is_PermissionError e = true)).
Proof.
  induction fuel as [|fuel IH];
    intros df path sheet_names styles merge_cells check kwargs w r w' tr H.
  - cbn [df_to_excel] in H. unfold xraise in H. inversion H; subst.
    split; [constructor|]. intros t n [].
  - destruct check.
    + cbn [df_to_excel] in H.
      destruct (df_to_excel P fuel (One df) path sheet_names styles
                            merge_cells false kwargs w)
        as [[r1 w1] tr1] eqn:H1.
      destruct (one_frame_attempt _ _ _ _ _ _ _ _ _ _ _ H1) as (Hq1 & Hp1).
      destruct r1 as [u|e].
      { inversion H; subst. split; [assumption|].
        intros t n Hin. rewrite Hp1 in Hin.
        destruct Hin as [E|[]]. inversion E; subst. auto. }
      destruct Hp1 as (Hp1 & Hperm).
      destruct (is_PermissionError e) eqn:He.
      2: { inversion H; subst. split; [assumption|].
           intros t n Hin. rewrite Hp1 in Hin. destruct Hin. }
      destruct (df_to_excel P fuel (One df) _ sheet_names styles
                            merge_cells true kwargs (tick w1))
        as [[r2 w2] tr2] eqn:H2.
      destruct (IH _ _ _ _ _ _ _ _ _ _ _ H2) as (Hq2 & Hp2).
      inversion H; subst. split.
      * apply quiet_app; [assumption|]. repeat constructor. assumption.
      * intros t n Hin. rewrite sheets_placed_app, Hp1 in Hin.
        cbn [app sheets_placed] in Hin.
        destruct (Hp2 _ _ Hin) as (Hn & Ht). split; [assumption|].
        right. split.
        { destruct Ht as [->|((q & ->) & _)]; eexists; reflexivity. }
        exists e. split; [|exact He].
        apply in_or_app. left. now apply Hperm.
    + destruct (one_frame_attempt _ _ _ _ _ _ _ _ _ _ _ H) as (Hq & Hp).
      split; [assumption|]. intros t n Hin.
      destruct r as [u|e]; [|destruct Hp as (Hp & _)];
        rewrite Hp in Hin; [|destruct Hin].
      destruct Hin as [E|[]]. inversion E; subst. auto.
Qed.

(** The sheets of the loop over the frames of a workbook are in the
    workbook, but for those whose write into it ended on a
    [PermissionError]. *)
Lemma sheets_loop_placed (fuel : nat) (p : string)
      (sheet_names : list sheet_label) (styles : list pyval)
      (merge_cells : bool) (kwargs : dict) :
  forall (dfs : list (frame P)) (i : nat) w r w' tr,
    for_each P
      (fun i df_ =>
         let sheet := sheet_for sheet_names i in
         xbind P
           (match dict_get "sheet_name" kwargs with
            | Some _ => xraise P TypeError
            | None =>
                df_to_excel P fuel (One df_) (ToWriter p) [] [] merge_cells
                            true (("sheet_name", PStr sheet) :: kwargs)
            end)
           (fun _ => try_styles P styles i sheet))
      i dfs w = (r, w', tr) ->
    Forall (fun e => saves e = false) tr
    /\ forall t n,
        In (t, n) (sheets_placed tr) ->
        t = ToWriter p
        \/ ((exists q, t = ToPath q)
            /\ exists f m kw e,
                In (ToExcel f (ToWriter p) m kw (Raise e)) tr
                /\ is_PermissionError e = true
                /\ dict_get "sheet_name" kw = n).
Proof.
  induction dfs as [|df dfs IH]; intros i w r w' tr H; cbn [for_each] in H.
  - unfold xret in H. inversion H; subst. split; [constructor|].
    intros t n [].
  - unfold xbind at 1 in H. unfold xbind at 1 in H.
    destruct (dict_get "sheet_name" kwargs) as [v|] eqn:Hk.
    { unfold xraise in H. inversion H; subst. split; [constructor|].
      intros t n []. }
    destruct (df_to_excel P fuel (One df) (ToWriter p) [] [] merge_cells true
                          (("sheet_name", PStr (sheet_for sheet_names i))
                           :: kwargs) w)
      as [[r1 w1] tr1] eqn:H1.
    destruct (one_frame_placed _ _ _ _ _ _ _ _ _ _ _ _ H1) as (Hq1 & Hp1).
    assert (Hone : forall t n,
               In (t, n) (sheets_placed tr1) ->
               t = ToWriter p
               \/ ((exists q, t = ToPath q)
                   /\ exists f m kw e,
                       In (ToExcel f (ToWriter p) m kw (Raise e)) tr1
                       /\ is_PermissionError e = true
                       /\ dict_get "sheet_name" kw = n)).
    { intros t n Hin. destruct (Hp1 _ _ Hin) as (-> & [->|(Hq & e & He & Hpe)]);
        [now left|right]. split; [assumption|].
      eexists _, _, _, e. split; [exact He|]. split; [assumption|].
      now rewrite freeze_other by discriminate. }
    destruct r1 as [u|e].
    2: { inversion H; subst. split; assumption. }
    destruct (try_styles P styles i (sheet_for sheet_names i) w1)
      as [[r2 w2] tr2] eqn:H2.
    assert (Hs2 : r2 = Ret tt /\ sheets_placed tr2 = []
                  /\ Forall (fun e => saves e = false) tr2).
    { unfold try_styles in H2. destruct styles; unfold xret in H2;
        inversion H2; subst; repeat split; repeat constructor. }
    destruct Hs2 as (-> & Hs2 & Hq2).
    destruct (for_each P _ (S i) dfs w2) as [[r3 w3] tr3] eqn:H3.
    inversion H; subst. apply IH in H3. destruct H3 as (Hq3 & Hp3).
    split; [repeat apply quiet_app; assumption|].
    intros t n Hin. rewrite !sheets_placed_app, Hs2 in Hin.
    rewrite ?app_nil_r in Hin. apply in_app_or in Hin.
    destruct Hin as [Hin|Hin];
      [destruct (Hone _ _ Hin) as [->|(Hq & f & m & kw & e & He & Hr)]
      |destruct (Hp3 _ _ Hin) as [->|(Hq & f & m & kw & e & He & Hr)]];
      try (now left); right; (split; [assumption|]);
      exists f, m, kw, e; (split; [|assumption]);
      rewrite !in_app_iff; auto.
Qed.

(** One attempt on a sequence of frames: when it raises it has saved no
    workbook; its sheets are in its workbook, but for those whose write
    into it ended on a [PermissionError]. *)
Lemma several_frames_attempt (fuel : nat) (dfs : list (frame P)) path
      sheet_names styles merge_cells kwargs w r w' tr :
  df_to_excel P fuel (Several dfs) path sheet_names styles merge_cells false
              kwargs w = (r, w', tr) ->
  (forall e, r = Raise e -> Forall (fun ev => saves ev = false) tr)
  /\ forall t n,
      In (t, n) (sheets_placed tr) ->
      t = ToWriter (target_path path)
      \/ ((exists q, t = ToPath q)
          /\ exists f m kw e,
              In (ToExcel f (ToWriter (target_path path)) m kw (Raise e)) tr
              /\ is_PermissionError e = true
              /\ dict_get "sheet_name" kw = n).
Proof.
  destruct fuel as [|fuel]; cbn [df_to_excel]; intros H.
  { unfold xraise in H. inversion H; subst. split; [constructor|].
    intros t n []. }
  unfold xbind at 1 in H.
  destruct (ensure_dir P (dirname P (target_path path)) w)
    as [[rd wd] trd] eqn:Hd.
  destruct (ensure_dir_quiet _ _ _ _ _ Hd) as (Hpd & Hqd & _).
  destruct rd as [u|e].
  2: { inversion H; subst. split; [intros; assumption|].
       intros t n Hin. rewrite Hpd in Hin. destruct Hin. }
  unfold xbind at 1, call at 1 in H.
  destruct (ExcelWriter P (target_path path)) as [u'|e].
  2: { inversion H; subst. split.
       - intros. apply quiet_app; [assumption|repeat constructor].
       - intros t n Hin. rewrite sheets_placed_app, Hpd in Hin.
         destruct Hin. }
  unfold xbind at 1 in H.
  match type of H with
  | context [for_each P ?body O dfs wd] =>
      destruct (for_each P body O dfs wd) as [[rf wf] trf] eqn:Hf
  end.
  apply sheets_loop_placed in Hf. destruct Hf as (Hqf & Hpf).
  assert (Hplaced : forall tl,
             sheets_placed tl = [] ->
             forall t n,
               In (t, n) (sheets_placed
                            (trd ++ Writer (target_path path) (Ret u')
                                 :: trf ++ tl)) ->
               t = ToWriter (target_path path)
               \/ ((exists q, t = ToPath q)
                   /\ exists f m kw e,
                       In (ToExcel f (ToWriter (target_path path)) m kw
                                   (Raise e))
                          (trd ++ Writer (target_path path) (Ret u')
                               :: trf ++ tl)
                       /\ is_PermissionError e = true
                       /\ dict_get "sheet_name" kw = n)).
  { intros tl Htl t n Hin.
    rewrite sheets_placed_app, Hpd in Hin. cbn [app sheets_placed] in Hin.
    rewrite sheets_placed_app, Htl, app_nil_r in Hin.
    destruct (Hpf _ _ Hin) as [->|(Hq & f & m & kw & e & He & Hr)];
      [now left|right]. split; [assumption|].
    exists f, m, kw, e. split; [|assumption].
    apply in_or_app. right. right. apply in_or_app. now left. }
  destruct rf as [[]|e].
  2: { inversion H; subst. split.
       - intros. apply quiet_app; [assumption|].
         constructor; [reflexivity|assumption].
       - intros t n Hin.
         specialize (Hplaced [] eq_refl t n). rewrite app_nil_r in Hplaced.
         now apply Hplaced. }
  unfold call in H.
  destruct (save P (target_path path)) as [[]|e]; inversion H; subst.
  - split; [discriminate|]. now apply Hplaced.
  - split; [|now apply Hplaced].
    intros. apply quiet_app; [assumption|].
    constructor; [reflexivity|]. apply quiet_app; [assumption|].
    repeat constructor.
Qed.

End ExcelFacts.

Section ExcelTheorems.

Import Excel.

Variable P : Pandas.

(** X24: The sheets of a workbook: when a call on a sequence of frames
    returns, the attempt that returned has written one sheet for every
    frame, in order, the sheet of the frame at position [i] named
    [str(sheet_names[i])] when [sheet_names] reaches that far and [str(i)]
    otherwise, and has saved the workbook at its path.  Every sheet is in
    that workbook, but for a sheet whose write into it ended on a
    [PermissionError]: that sheet is in a file of its own.  The path is
    the one of the call when there was no attempt before; otherwise the
    attempt before ended on a [PermissionError] and named the path in its
    place, and no attempt before has saved a workbook. *)
Theorem sheets_are_named (fuel : nat) :
  forall (dfs : list (frame P)) path sheet_names styles merge_cells check
         kwargs w w' tr,
    df_to_excel P fuel (Several dfs) path sheet_names styles merge_cells
                check kwargs w = (Ret tt, w', tr) ->
    exists before last p,
      tr = before ++ last
      /\ ((before = [] /\ p = target_path path)
          \/ (check = true
              /\ exists pre e,
                  before = pre ++ [LogCritical e; LogInstead p]
                  /\ is_PermissionError e = true))
      /\ (forall q, ~ In (Save q (Ret tt)) before)
      /\ In (Save p (Ret tt)) last
      /\ map snd (sheets_placed last)
         = map (fun i => Some (PStr (sheet_for sheet_names i)))
               (seq 0 (List.length dfs))
      /\ forall t n,
          In (t, n) (sheets_placed last) ->
          t = ToWriter p
          \/ ((exists q, t = ToPath q)
              /\ exists f m kw e,
                  In (ToExcel f (ToWriter p) m kw (Raise e)) last
                  /\ is_PermissionError e = true
                  /\ dict_get "sheet_name" kw = n).
Proof.
  induction fuel as [|fuel IH];
    intros dfs path sheet_names styles merge_cells check kwargs w w' tr H.
  - cbn [df_to_excel] in H. unfold xraise in H. discriminate H.
  - assert (Hone : forall fuel0 w0 w1 tr1,
               df_to_excel P fuel0 (Several dfs) path sheet_names styles
                           merge_cells false kwargs w0 = (Ret tt, w1, tr1) ->
               In (Save (target_path path) (Ret tt)) tr1
               /\ map snd (sheets_placed tr1)
                  = map (fun i => Some (PStr (sheet_for sheet_names i)))
                        (seq 0 (List.length dfs))
               /\ forall t n,
                   In (t, n) (sheets_placed tr1) ->
                   t = ToWriter (target_path path)
                   \/ ((exists q, t = ToPath q)
                       /\ exists f m kw e,
                           In (ToExcel f (ToWriter (target_path path)) m kw
                                       (Raise e)) tr1
                           /\ is_PermissionError e = true
                           /\ dict_get "sheet_name" kw = n)).
    { intros fuel0 w0 w1 tr1 H1.
      destruct (several_frames_once _ _ _ _ _ _ _ _ _ _ _ H1) as (Hs & Hsave).
      destruct (several_frames_attempt _ _ _ _ _ _ _ _ _ _ _ _ H1)
        as (_ & Hp).
      split; [assumption|]. split; [|assumption].
      now rewrite sheets_placed_names. }
    destruct check.
    + cbn [df_to_excel] in H.
      destruct (df_to_excel P fuel (Several dfs) path sheet_names styles
                            merge_cells false kwargs w)
        as [[r1 w1] tr1] eqn:H1.
      destruct r1 as [[]|e].
      * inversion H; subst.
        destruct (Hone _ _ _ _ H1) as (Hsave & Hs & Hp).
        exists [], tr, (target_path path).
        split; [reflexivity|]. split; [now left|].
        split; [intros q []|]. auto.
      * destruct (is_PermissionError e) eqn:He; [|discriminate H].
        destruct (several_frames_attempt _ _ _ _ _ _ _ _ _ _ _ _ H1)
          as (Hq1 & _).
        specialize (Hq1 _ eq_refl). rewrite Forall_forall in Hq1.
        destruct (df_to_excel P fuel (Several dfs) _ sheet_names styles
                              merge_cells true kwargs (tick w1))
          as [[r2 w2] tr2] eqn:H2.
        inversion H; subst.
        destruct (IH _ _ _ _ _ _ _ _ _ _ H2)
          as (before & last & p & -> & Hpath & Hnone & Hrest).
        exists (tr1 ++ LogCritical e
                    :: LogInstead (path_time P (target_path path)
                                             (strftime P (clock w1)))
                    :: before), last, p.
        split; [now rewrite <- app_assoc|]. split.
        { right. split; [reflexivity|].
          destruct Hpath as [(-> & ->)|(_ & pre & e' & -> & He')].
          - exists tr1, e. split; [reflexivity|assumption].
          - exists (tr1 ++ LogCritical e
                        :: LogInstead (path_time P (target_path path)
                                                 (strftime P (clock w1)))
                        :: pre), e'.
            split; [|assumption].
            rewrite <- app_assoc. reflexivity. }
        split; [|assumption].
        intros q Hin. apply in_app_or in Hin. destruct Hin as [Hin|Hin].
        -- apply Hq1 in Hin. discriminate Hin.
        -- in_cases Hin. now apply (Hnone q).
    + destruct (Hone _ _ _ _ H) as (Hsave & Hs & Hp).
      exists [], tr, (target_path path).
      split; [reflexivity|]. split; [now left|].
      split; [intros q []|]. auto.
Qed.

(** X25: The panes frozen in a sheet: every [to_excel] of a call on one frame
    gets the frame's keyword parameters with [freeze_panes] settled.  Left
    out or [True], it is the cell below the header rows (one row, or the
    levels of the columns and one more with [merge_cells]) and right of the
    index columns; [False] is taken out; any other value, and every other
    parameter, is handed on as it came. *)
Theorem freeze_panes_settled (fuel : nat) (df : frame P) path sheet_names
        styles merge_cells check kwargs w r w' tr f t m kw rr :
  df_to_excel P fuel (One df) path sheet_names styles merge_cells check
              kwargs w = (r, w', tr) ->
  In (ToExcel f t m kw rr) tr ->
  let default :=
    PList [PInt (if merge_cells then len (columns_names P df) + 1 else 1);
           PInt (len (index_names P df))] in
  f = df /\ m = merge_cells
  /\ dict_get "freeze_panes" kw
     = match dict_get "freeze_panes" kwargs with
       | None => Some default
       | Some (PBool true) => Some default
       | Some (PBool false) => None
       | Some v => Some v
       end
  /\ forall k, k <> "freeze_panes" -> dict_get k kw = dict_get k kwargs.
Proof.
  intros H Hin default.
  destruct (one_frame_calls P _ _ _ _ _ _ _ _ _ _ _ _ H) as (Hev & _).
  destruct (Hev _ _ _ _ _ Hin) as (-> & -> & ->).
  split; [reflexivity|]. split; [reflexivity|]. split.
  - unfold freeze. fold default.
    destruct (dict_get "freeze_panes" kwargs) as [[| [|] | | | | |]|] eqn:E;
      try assumption;
      first [ apply dict_get_set_same | apply dict_get_del_same ].
  - intros k Hk. now apply freeze_other.
Qed.

(** X26: A file that cannot be written for want of permission is written next
    to itself: the frame goes to the path with the time stamp put before
    the extension, and the call returns. *)
Theorem locked_file_gets_time_stamp (fuel : nat) (df : frame P) (p : string)
        sheet_names styles merge_cells kwargs w :
  let kw := freeze P df merge_cells kwargs in
  let p' := path_time P p (strftime P (clock w)) in
  dirname P p <> "" ->
  dirname P p' = dirname P p ->
  to_excel P df p false merge_cells kw = Raise PermissionError ->
  to_excel P df p' false merge_cells kw = Ret tt ->
  exists w' made,
    df_to_excel P (4 + fuel) (One df) (ToPath p) sheet_names styles
                merge_cells true kwargs w
    = (Ret tt, w',
       made ++ [ToExcel df (ToPath p) merge_cells kw (Raise PermissionError);
                LogCritical PermissionError; LogInstead p';
                ToExcel df (ToPath p') merge_cells kw (Ret tt)])
    /\ clock w' = S (clock w)
    /\ (made = [] \/ made = [Makedirs (dirname P p) (Ret tt)]).
Proof.
  intros kw p' Hdir Hsame Hlocked Hfree.
  cbn [Nat.add df_to_excel target_path into_writer].
  unfold xbind, call. fold kw.
  assert (Hne : String.eqb (dirname P p) "" = false)
    by now apply String.eqb_neq.
  assert (Hens : exists w1 made,
             ensure_dir P (dirname P p) w = (Ret tt, w1, made)
             /\ clock w1 = clock w
             /\ path_exists (dirname P p) w1 = true
             /\ (made = [] \/ made = [Makedirs (dirname P p) (Ret tt)])).
  { unfold ensure_dir. destruct (path_exists (dirname P p) w) eqn:He.
    - exists w, []. auto.
    - rewrite Hne. eexists _, _. split; [reflexivity|].
      split; [reflexivity|]. split; [|auto].
      unfold path_exists. cbn [dirs existsb].
      now rewrite Hne, String.eqb_refl. }
  destruct Hens as (w1 & made & Hens & Hclock & Hex & Hmade).
  rewrite Hens, Hlocked. cbn [is_PermissionError PermissionError].
  rewrite String.eqb_refl. rewrite Hclock. fold p'.
  assert (Hens' : ensure_dir P (dirname P p') (tick w1) = (Ret tt, tick w1, [])).
  { unfold ensure_dir. rewrite Hsame.
    replace (path_exists (dirname P p) (tick w1)) with true; reflexivity. }
  rewrite Hens', Hfree. exists (tick w1), made.
  split; [|split; [cbn [tick clock]; now rewrite Hclock|assumption]].
  cbn [app]. now rewrite <- !app_assoc.
Qed.

(** X27: A path without a directory part cannot be written: [os.makedirs('')]
    raises [FileNotFoundError] before anything is written, for one frame as
    for several, with the permission check or without. *)
Theorem bare_file_name_fails (fuel : nat) (df : frames (frame P)) path
        sheet_names styles merge_cells check kwargs w :
  dirname P (target_path path) = "" ->
  df_to_excel P (2 + fuel) df path sheet_names styles merge_cells check
              kwargs w
  = (Raise FileNotFoundError, w, [Makedirs "" (Raise FileNotFoundError)]).
Proof.
  intros Hdir.
  assert (Hens : ensure_dir P (dirname P (target_path path)) w
                 = (Raise FileNotFoundError, w,
                    [Makedirs "" (Raise FileNotFoundError)])).
  { rewrite Hdir. reflexivity. }
  destruct check; cbn [Nat.add df_to_excel]; unfold xbind; rewrite Hens;
    reflexivity.
Qed.

(** X28: [sheet_name] cannot be passed on with several frames: the function
    gives every sheet a name of its own, so the call for the first frame is
    a [TypeError] (two values for one keyword); the workbook is opened but
    no sheet is written and it is not saved. *)
Theorem sheet_name_with_several_frames (fuel : nat) (df : frame P)
        (dfs : list (frame P)) path sheet_names styles merge_cells check
        kwargs w v :
  dirname P (target_path path) <> "" ->
  ExcelWriter P (target_path path) = Ret tt ->
  dict_get "sheet_name" kwargs = Some v ->
  exists w' tr,
    df_to_excel P (2 + fuel) (Several (df :: dfs)) path sheet_names styles
                merge_cells check kwargs w
    = (Raise TypeError, w', tr)
    /\ In (Writer (target_path path) (Ret tt)) tr
    /\ (forall f t m kw rr, ~ In (ToExcel f t m kw rr) tr)
    /\ forall p rr, ~ In (Save p rr) tr.
Proof.
  intros Hdir Hwriter Hname.
  assert (Hne : String.eqb (dirname P (target_path path)) "" = false)
    by now apply String.eqb_neq.
  assert (Hens : exists w1 made,
             ensure_dir P (dirname P (target_path path)) w = (Ret tt, w1, made)
             /\ (made = []
                 \/ made = [Makedirs (dirname P (target_path path)) (Ret tt)])).
  { unfold ensure_dir.
    destruct (path_exists (dirname P (target_path path)) w).
    - exists w, []. auto.
    - rewrite Hne. eexists _, _. split; [reflexivity|]. auto. }
  destruct Hens as (w1 & made & Hens & Hmade).
  assert (Hinner : forall n,
             df_to_excel P (S n) (Several (df :: dfs)) path sheet_names styles
                         merge_cells false kwargs w
             = (Raise TypeError, w1,
                made ++ [Writer (target_path path) (Ret tt)])).
  { intros n. cbn [df_to_excel for_each]. unfold xbind, call, xraise.
    rewrite Hens, Hwriter, Hname. reflexivity. }
  exists w1, (made ++ [Writer (target_path path) (Ret tt)]). split.
  - destruct check.
    + apply df_to_excel_checked; [apply Hinner|reflexivity].
    + apply Hinner.
  - split; [in_solve|].
    split; [intros f t m kw rr Hin|intros p rr Hin];
      apply in_app_or in Hin as [Hin|Hin]; try (in_cases Hin; fail);
      destruct Hmade as [->| ->]; in_cases Hin.
Qed.

(** X29: A frame that no path lets itself be written to is never given up
    on: every [PermissionError] sends the function to the next time-stamped
    path, until Python's recursion limit ends the call with a
    [RecursionError]; the [PermissionError] itself is never the outcome. *)
Theorem permission_never_reported (df : frame P) sheet_names styles
        merge_cells kwargs :
  (forall p, dirname P p <> "") ->
  (forall p into mc kw, to_excel P df p into mc kw = Raise PermissionError) ->
  forall fuel path w,
    fst (fst (df_to_excel P fuel (One df) path sheet_names styles merge_cells
                          true kwargs w))
    = Raise RecursionError.
Proof.
  intros Hdir Hlocked. induction fuel as [|fuel IH]; intros path w;
    [reflexivity|].
  destruct fuel as [|fuel]; [reflexivity|].
  assert (Hinner : exists w1 tr1,
             df_to_excel P (S fuel) (One df) path sheet_names styles
                         merge_cells false kwargs w
             = (Raise PermissionError, w1, tr1)).
  { rewrite df_to_excel_one. unfold xbind, call, ensure_dir.
    rewrite Hlocked.
    destruct (path_exists (dirname P (target_path path)) w);
      [eexists _, _; reflexivity|].
    replace (String.eqb (dirname P (target_path path)) "") with false
      by (symmetry; apply String.eqb_neq, Hdir).
    eexists _, _; reflexivity. }
  destruct Hinner as (w1 & tr1 & Hinner).
  rewrite (df_to_excel_fallback P _ _ _ _ _ _ _ _ _ _ _ Hinner eq_refl).
  cbv zeta.
  specialize (IH (ToPath (path_time P (target_path path)
                                    (strftime P (clock w1)))) (tick w1)).
  destruct (df_to_excel P (S fuel) (One df) _ sheet_names styles merge_cells
                        true kwargs (tick w1)) as [[r w2] tr2].
  exact IH.
Qed.

End ExcelTheorems.

(** ** The further properties at work *)

Lemma grid_tell_keeps_names xs ys (o : optimizer Toy.engine) b p o' :
  tell Toy.engine xs ys o = Ret (b, p, o') ->
  dimension_names Toy.engine o' = dimension_names Toy.engine o.
Proof.
  cbn [tell Toy.engine dimension_names]. unfold Toy.grid_tell.
  cbn [Toy.values Toy.points].
  destruct (Toy.values o ++ ys) as [|y rest]; [discriminate|].
  destruct (nth_error (Toy.points o ++ xs) (fst (Toy.argmin rest 1 0 y)));
    [|discriminate].
  intros E. inversion E; subst. reflexivity.
Qed.

Lemma run_ends_within_budget_witness :
  fst (fst (skopt_optimize Toy.env no_control_file 10
                           (Toy.args_x 10 (Some "out")) Toy.empty_world))
  <> Unfinished.
Proof.
  pose (out := skopt_optimize Toy.env no_control_file 10
                              (Toy.args_x 10 (Some "out")) Toy.empty_world).
  refine (@run_ends_within_budget
            Toy.engine Toy.env no_control_file (Toy.args_x 10 (Some "out"))
            Toy.empty_world 10%nat (fst (fst out)) (snd (fst out)) (snd out)
            _ _ _ _).
  - reflexivity.
  - exact (le_n 10).
  - apply (no_event_sound table_failed); [vm_compute|]; reflexivity.
  - intros n.
    apply (no_event_sound asks_nothing); [vm_compute|]; reflexivity.
Defined.

Lemma rejected_user_batch_repeats_witness :
  loop Toy.env no_control_file 3 (Toy.args_x 4 (Some "out"))
       Samples.wide_batch Toy.empty_world
  = (Running Samples.wide_batch, Toy.empty_world,
     List.concat (repeat (rejected_round 1 0 4 [[1; 2]]) 3)).
Proof.
  refine (@rejected_user_batch_repeats
            Toy.engine Toy.env no_control_file (Toy.args_x 4 (Some "out"))
            Samples.wide_batch Toy.empty_world _ _ _ _ 3%nat).
  - reflexivity.
  - reflexivity.
  - discriminate.
  - reflexivity.
Defined.

Lemma no_budget_left_witness :
  skopt_optimize Toy.env no_control_file 5 (Toy.args_x 0 None)
                 Toy.empty_world
  = (Failed UnboundLocalError, Toy.empty_world, []).
Proof.
  refine (proj1 (@no_budget_left
                   Toy.engine Toy.env no_control_file (Toy.args_x 0 None)
                   Toy.empty_world
                   (Build_locals Toy.engine 1 0 (PInt 2) [] (PBool false)
                                 (PDict []) None None
                                 {| Toy.names := ["x"]; Toy.points := [];
                                    Toy.values := []; Toy.origin := 0 |})
                   Toy.empty_world [] _ _ 5%nat)).
  - reflexivity.
  - discriminate.
Defined.

Lemma unreadable_document_ignored_witness :
  let out := round_body Toy.env Toy.idle_operator (Toy.args_x 6 (Some "out"))
                        (Toy.start 0) (Toy.world_with (PStr "kill: true")) in
  exists l',
    fst (fst out) = Ret (Next l')
    /\ (forall d, ~ In (EvWrite d) (snd out)) /\ ~ In EvKilled (snd out)
    /\ n_cores l' = PInt 2 /\ user_ask l' = PBool false
    /\ user_next_x l' = [] /\ eval_func_kwargs l' = PDict [].
Proof.
  intros out.
  refine (@unreadable_document_ignored
            Toy.engine Toy.env Toy.idle_operator (Toy.args_x 6 (Some "out"))
            (Toy.start 0) (Toy.world_with (PStr "kill: true"))
            (fst (fst out)) (snd (fst out)) (snd out)
            (Some (PStr "kill: true")) _ _ _).
  - reflexivity.
  - apply (nth_error_In _ 7). reflexivity.
  - intros d. discriminate.
Defined.

Lemma user_batch_follows_document_witness :
  let out := round_body Toy.env Toy.idle_operator (Toy.args_x 6 (Some "out"))
                        Samples.earlier_batch
                        (Toy.world_with (PDict Samples.zero_step_document)) in
  exists c,
    fst (fst out) = Ret c
    /\ user_ask (ctl_locals c) = PBool true
    /\ In (EvWrite (rewritten (PInt 2) Samples.zero_step_document)) (snd out)
    /\ user_next_x (ctl_locals c) = [[7]]
    /\ In (EvLogException ValueError) (snd out).
Proof.
  intros out.
  refine (@user_batch_follows_document
            Toy.engine Toy.env Toy.idle_operator (Toy.args_x 6 (Some "out"))
            Samples.earlier_batch
            (Toy.world_with (PDict Samples.zero_step_document))
            (fst (fst out)) (snd (fst out)) (snd out)
            Samples.zero_step_document _ _).
  - reflexivity.
  - apply (nth_error_In _ 7). reflexivity.
Defined.

Lemma checkpoint_restarts_witness :
  let out := round_body Toy.env no_control_file (Toy.args_x 6 (Some "out"))
                        (Toy.start 0) Toy.empty_world in
  exists l0,
    init Toy.env Samples.args_restart (snd (fst out))
    = (Ret l0, snd (fst out), [EvLoaded "out/optimizer.pkl"])
    /\ sk_optimizer l0
       = {| Toy.names := ["x"]; Toy.points := [[PInt 0]; [PInt 1]];
            Toy.values := [2%float; 2%float]; Toy.origin := 0 |}
    /\ result l0
       = Some {| r_fun := 2%float; r_x := [PInt 0]; r_nit := Some 2;
                 r_success := Some false;
                 r_self := {| Toy.names := ["x"];
                              Toy.points := [[PInt 0]; [PInt 1]];
                              Toy.values := [2%float; 2%float];
                              Toy.origin := 0 |} |}
    /\ count l0 = 2
    /\ round_ l0 = 1.
Proof.
  intros out.
  refine (@checkpoint_restarts
            Toy.engine Toy.env no_control_file (Toy.args_x 6 (Some "out"))
            Samples.args_restart (Toy.start 0) Toy.empty_world
            (Next (Build_locals
                     Toy.engine 2 2 (PInt 2) [] (PBool false) (PDict [])
                     (Some "out")
                     (Some {| r_fun := 2%float; r_x := [PInt 0];
                              r_nit := Some 2; r_success := Some false;
                              r_self := {| Toy.names := ["x"];
                                           Toy.points := [[PInt 0]; [PInt 1]];
                                           Toy.values := [2%float; 2%float];
                                           Toy.origin := 0 |} |})
                     {| Toy.names := ["x"];
                        Toy.points := [[PInt 0]; [PInt 1]];
                        Toy.values := [2%float; 2%float];
                        Toy.origin := 0 |}))
            (snd (fst out)) (snd out)
            [[PInt 0]; [PInt 1]] [2%float; 2%float] 2%float [PInt 0] "out"
            _ _ _ _ _).
  - reflexivity.
  - apply (nth_error_In _ 4). reflexivity.
  - reflexivity.
  - reflexivity.
  - reflexivity.
Defined.

Lemma plots_need_directory_witness :
  let out := round_body Toy.env no_control_file (Toy.args_xy 6 None)
                        Samples.start_xy Toy.empty_world in
  fst (fst out) = Raise TypeError /\ snd (fst out) = Toy.empty_world
  /\ forall e, In e (snd out) ->
               from_files e = false /\ touches_control e = false.
Proof.
  intros out.
  refine (@plots_need_directory
            Toy.engine Toy.env no_control_file (Toy.args_xy 6 None)
            Samples.start_xy Toy.empty_world
            (fst (fst out)) (snd (fst out)) (snd out)
            [[PInt 0; PInt 0]; [PInt 1; PInt 1]] [2%float; 2%float]
            2%float [PInt 0; PInt 0]
            {| columns := ["x"; "y"];
               records := [[PInt 0; PInt 0]; [PInt 1; PInt 1]] |}
            grid_tell_keeps_names _ _ _ _ _ _).
  - reflexivity.
  - reflexivity.
  - apply (nth_error_In _ 2). reflexivity.
  - reflexivity.
  - apply (nth_error_In _ 4). reflexivity.
  - reflexivity.
Defined.

Lemma returned_result_flags_witness :
  let out := skopt_optimize Toy.env no_control_file 10
                            (Toy.args_x 10 (Some "out")) Toy.empty_world in
  let r := {| r_fun := 0%float; r_x := [PInt 3]; r_nit := Some 4;
              r_success := Some true;
              r_self := {| Toy.names := ["x"];
                           Toy.points := [[PInt 0]; [PInt 1]; [PInt 2];
                                          [PInt 3]];
                           Toy.values := [2%float; 2%float; 1%float; 0%float];
                           Toy.origin := 0 |} |} in
  (exists n,
      r_nit r = Some n /\ r_success r = Some (converged Converged)
      /\ In (EvBest n (r_fun r) (r_x r)) (snd out))
  \/ (Converged = Exhausted
      /\ exists path,
          optimizer_pickle (Toy.args_x 10 (Some "out")) = Some path
          /\ lookup_pickle path (w_pickles Toy.empty_world) = Some r).
Proof.
  intros out r.
  refine (@returned_result_flags
            Toy.engine Toy.env no_control_file (Toy.args_x 10 (Some "out"))
            Toy.empty_world 10%nat Converged r (snd (fst out)) (snd out) _).
  reflexivity.
Defined.

Lemma document_sets_batch_width_witness :
  PInt 3 = field "n_cores" (PInt 2) Samples.width_document.
Proof.
  pose (a := Toy.args_x 10 (Some "out")).
  pose (out := round_body Toy.env Toy.idle_operator a (Toy.start 0)
                          (Toy.world_with (PDict Samples.width_document))).
  pose (l' := Build_locals
                Toy.engine 2 2 (PInt 3) [] (PBool false) (PDict [])
                (Some "out")
                (Some {| r_fun := 2%float; r_x := [PInt 0];
                         r_nit := Some 2; r_success := Some false;
                         r_self := {| Toy.names := ["x"];
                                      Toy.points := [[PInt 0]; [PInt 1]];
                                      Toy.values := [2%float; 2%float];
                                      Toy.origin := 0 |} |})
                {| Toy.names := ["x"]; Toy.points := [[PInt 0]; [PInt 1]];
                   Toy.values := [2%float; 2%float]; Toy.origin := 0 |}).
  pose (next := round_body Toy.env Toy.idle_operator a l' (snd (fst out))).
  refine (@document_sets_batch_width
            Toy.engine Toy.env Toy.idle_operator a (Toy.start 0)
            (Toy.world_with (PDict Samples.width_document))
            l' (snd (fst out)) (snd out) Samples.width_document
            (fst (fst next)) (snd (fst next)) (snd next)
            (PInt 3) (Ret [[PInt 2]; [PInt 3]; [PInt 4]]) _ _ _ _).
  - reflexivity.
  - apply (nth_error_In _ 7). reflexivity.
  - reflexivity.
  - apply (nth_error_In _ 1). reflexivity.
Defined.

Lemma open_serves_first_free_port_witness :
  exists tr,
    DataExplorer_open Samples.index_only (fun df => df) Samples.rename_to
                      (fun _ _ => Ret tt) Samples.join3 Samples.main_busy
                      false 5 [PStr "hash"; PStr "TIME"] "Results" 80 "app"
                      true "webgl" true
    = (Some (Ret tt), tr)
    /\ served tr
       = map (fun p => call_list "app" p true "Results"
                                 "app/upload/Results.xlsx" "webgl")
             [80; 81; 82]
    /\ In (DeToExcel "app/upload/Results.xlsx" (Ret tt)) tr.
Proof.
  refine (@open_serves_first_free_port
            Samples.index_only (fun df => df) Samples.rename_to
            (fun _ _ => Ret tt) Samples.join3 Samples.main_busy false
            "app" "Results" "webgl" true 5%nat 2%nat
            [PStr "hash"; PStr "TIME"] [PStr "!hash"; PStr "TIME"] 80 true
            _ _ _ _ _).
  - reflexivity.
  - reflexivity.
  - intros i Hi. assert (E : i = 0 \/ i = 1) by lia.
    destruct E as [-> | ->]; reflexivity.
  - reflexivity.
  - apply le_S, le_S, le_n.
Defined.

Lemma open_never_gives_up_witness :
  exists tr,
    DataExplorer_open Samples.index_only (fun df => df) Samples.rename_to
                      (fun _ _ => Ret tt) Samples.join3 Samples.main_never
                      false 3 [PStr "hash"] "Results" 80 "app" false "webgl"
                      false
    = (None, tr)
    /\ served tr
       = map (fun p => call_list "app" p false "Results"
                                 "app/upload/Results.xlsx" "webgl")
             [80; 81; 82].
Proof.
  refine (@open_never_gives_up
            Samples.index_only (fun df => df) Samples.rename_to
            (fun _ _ => Ret tt) Samples.join3 Samples.main_never false
            "app" "Results" "webgl" false 3%nat
            [PStr "hash"] [PStr "hash"] 80 false _ _ _).
  - reflexivity.
  - reflexivity.
  - intros i Hi. reflexivity.
Defined.

Lemma open_saves_before_serving_witness :
  let out := DataExplorer_open Samples.index_only (fun df => df)
                               Samples.rename_to (fun _ _ => Ret tt)
                               Samples.join3 Samples.main_busy false 5
                               [PStr "hash"] "Results" 82 "app" true "webgl"
                               true in
  exists df1,
    DataExplorer_mark_index Samples.index_only (fun df => df)
                            Samples.rename_to [PStr "hash"] = Ret df1
    /\ Ret tt = Ret tt
    /\ In (DeToExcel "app/upload/Results.xlsx" (Ret tt)) (snd out).
Proof.
  intros out.
  refine (@open_saves_before_serving
            Samples.index_only (fun df => df) Samples.rename_to
            (fun _ _ => Ret tt) Samples.join3 Samples.main_busy false
            "app" "Results" "webgl" true 5%nat [PStr "hash"] 82 true
            (fst out) (snd out) _ _).
  - reflexivity.
  - discriminate.
Defined.

Lemma filters_select_columns_witness :
  let out := df_set_filtered_to_NaN
               Samples.column_log unit unit fst Samples.log_assignment
               ([LStr "Q_boiler"; LStr "T_amb"; LStr "Q_pump"], [])
               ["Q_"; "boiler"] tt tt in
  snd out = map LStr (filter (filtered ["Q_"; "boiler"])
                             ["Q_boiler"; "T_amb"; "Q_pump"])
  /\ forall c,
      In (LStr c) (snd out)
      <-> In c ["Q_boiler"; "T_amb"; "Q_pump"]
          /\ exists f pre post,
              In f ["Q_"; "boiler"]
              /\ c = String.append pre (String.append f post).
Proof.
  intros out.
  refine (@filters_select_columns
            Samples.column_log unit unit fst Samples.log_assignment
            ([LStr "Q_boiler"; LStr "T_amb"; LStr "Q_pump"], [])
            (snd (fst out)) ["Q_"; "boiler"] tt tt (snd out)
            ["Q_boiler"; "T_amb"; "Q_pump"] _ _).
  - reflexivity.
  - reflexivity.
Defined.

Lemma filters_match_whole_parts_witness :
  let out := df_set_filtered_to_NaN
               Samples.column_log unit unit fst Samples.log_assignment
               ([LTuple ["boiler"; "Q"]; LTuple ["boiler_2"; "Q"]], [])
               ["boiler"] tt tt in
  In (LTuple ["boiler_2"; "Q"]) (snd out)
  <-> In ["boiler_2"; "Q"] [["boiler"; "Q"]; ["boiler_2"; "Q"]]
      /\ exists f, In f ["boiler"] /\ In f ["boiler_2"; "Q"].
Proof.
  intros out.
  refine (@filters_match_whole_parts
            Samples.column_log unit unit fst Samples.log_assignment
            ([LTuple ["boiler"; "Q"]; LTuple ["boiler_2"; "Q"]], [])
            (snd (fst out)) ["boiler"] tt tt (snd out)
            [["boiler"; "Q"]; ["boiler_2"; "Q"]] _ _ ["boiler_2"; "Q"]).
  - reflexivity.
  - reflexivity.
Defined.

Lemma empty_filter_selects_all_witness :
  snd (df_set_filtered_to_NaN
         Samples.column_log unit unit fst Samples.log_assignment
         ([LStr "Q_boiler"; LStr "T_amb"], []) ["pump"; ""] tt tt)
  = [LStr "Q_boiler"; LStr "T_amb"].
Proof.
  pose (out := df_set_filtered_to_NaN
                 Samples.column_log unit unit fst Samples.log_assignment
                 ([LStr "Q_boiler"; LStr "T_amb"], []) ["pump"; ""] tt tt).
  refine (@empty_filter_selects_all
            Samples.column_log unit unit fst Samples.log_assignment
            ([LStr "Q_boiler"; LStr "T_amb"], [])
            (snd (fst out)) ["pump"; ""] tt tt (snd out)
            ["Q_boiler"; "T_amb"] _ _ _).
  - right. left. reflexivity.
  - reflexivity.
  - reflexivity.
Defined.

Lemma integer_label_is_an_error_witness :
  fst (fst (df_set_filtered_to_NaN
              Samples.column_log unit unit fst Samples.log_assignment
              ([LStr "Q_boiler"; LInt 0], []) ["Q_"] tt tt))
  = Raise TypeError.
Proof.
  refine (@integer_label_is_an_error
            Samples.column_log unit unit fst Samples.log_assignment
            ([LStr "Q_boiler"; LInt 0], []) ["Q_"] tt tt 0 _ _ _).
  - discriminate.
  - intros c d. eexists. reflexivity.
  - right. left. reflexivity.
Defined.

(** A workbook whose file is open in another program: every sheet ends in
    the time-stamped file and the workbook is saved without it. *)
Example locked_workbook_diverts_sheets :
  let tr := snd (Excel.df_to_excel Samples.pandas 6
                   (Excel.Several ["a"; "b"]) (Excel.ToPath "out/results.xlsx")
                   [] [] false true [] Samples.disk) in
  Excel.sheets_placed tr
  = [(Excel.ToPath "out/results_2020-01-01_00-00-00.xlsx", Some (PStr "0"));
     (Excel.ToPath "out/results_2020-01-01_00-00-00.xlsx", Some (PStr "1"))]
  /\ In (Excel.Save "out/results.xlsx" (Ret tt)) tr.
Proof. vm_compute. split; [reflexivity|auto 20]. Qed.

Lemma sheets_are_named_witness :
  let names := [Excel.SheetInt 7; Excel.SheetStr "base"] in
  let out := Excel.df_to_excel Samples.pandas 6
               (Excel.Several ["a"; "b"; "c"]) (Excel.ToPath "out/curves.xlsx")
               names [] false true [] Samples.disk in
  exists before last p,
    snd out = before ++ last
    /\ ((before = [] /\ p = "out/curves.xlsx")
        \/ (true = true
            /\ exists pre e,
                before = pre ++ [Excel.LogCritical e; Excel.LogInstead p]
                /\ Excel.is_PermissionError e = true))
    /\ (forall q, ~ In (Excel.Save q (Ret tt)) before)
    /\ In (Excel.Save p (Ret tt)) last
    /\ map snd (Excel.sheets_placed last)
       = map (fun i => Some (PStr (Excel.sheet_for names i))) (seq 0 3)
    /\ forall t n,
        In (t, n) (Excel.sheets_placed last) ->
        t = Excel.ToWriter p
        \/ ((exists q, t = Excel.ToPath q)
            /\ exists f m kw e,
                In (Excel.ToExcel f (Excel.ToWriter p) m kw (Raise e)) last
                /\ Excel.is_PermissionError e = true
                /\ dict_get "sheet_name" kw = n).
Proof.
  intros names out.
  refine (@sheets_are_named
            Samples.pandas 6%nat ["a"; "b"; "c"]
            (Excel.ToPath "out/curves.xlsx")
            names [] false true []
            Samples.disk (snd (fst out)) (snd out) _).
  reflexivity.
Defined.

Lemma freeze_panes_settled_witness :
  let kw := [("sheet_name", PStr "s"); ("freeze_panes", PList [PInt 2; PInt 2])]
  in
  "a" = "a" /\ true = true
  /\ dict_get "freeze_panes" kw = Some (PList [PInt 2; PInt 2])
  /\ forall k, k <> "freeze_panes" ->
               dict_get k kw = dict_get k [("sheet_name", PStr "s")].
Proof.
  intros kw.
  pose (out := Excel.df_to_excel Samples.pandas 4 (Excel.One "a")
                                 (Excel.ToPath "out/a.xlsx") [] [] true true
                                 [("sheet_name", PStr "s")] Samples.disk).
  refine (@freeze_panes_settled
            Samples.pandas 4%nat "a" (Excel.ToPath "out/a.xlsx") [] [] true
            true [("sheet_name", PStr "s")] Samples.disk
            (fst (fst out)) (snd (fst out)) (snd out)
            "a" (Excel.ToPath "out/a.xlsx") true kw (Ret tt) _ _).
  - reflexivity.
  - apply (nth_error_In _ 0). reflexivity.
Defined.

Lemma locked_file_gets_time_stamp_witness :
  exists w' made,
    Excel.df_to_excel Samples.pandas 4 (Excel.One "a")
                      (Excel.ToPath "out/results.xlsx") [] [] false true []
                      Samples.disk
    = (Ret tt, w',
       made
       ++ [Excel.ToExcel "a" (Excel.ToPath "out/results.xlsx") false
                         [("freeze_panes", PList [PInt 1; PInt 2])]
                         (Raise Excel.PermissionError);
           Excel.LogCritical Excel.PermissionError;
           Excel.LogInstead "out/results_2020-01-01_00-00-00.xlsx";
           Excel.ToExcel "a"
                         (Excel.ToPath "out/results_2020-01-01_00-00-00.xlsx")
                         false [("freeze_panes", PList [PInt 1; PInt 2])]
                         (Ret tt)])
    /\ Excel.clock w' = 1%nat
    /\ (made = [] \/ made = [Excel.Makedirs "out" (Ret tt)]).
Proof.
  refine (@locked_file_gets_time_stamp
            Samples.pandas 0%nat "a" "out/results.xlsx" [] [] false []
            Samples.disk _ _ _ _).
  - discriminate.
  - reflexivity.
  - reflexivity.
  - reflexivity.
Defined.

Lemma bare_file_name_fails_witness :
  Excel.df_to_excel Samples.pandas 2 (Excel.One "a")
                    (Excel.ToPath "results.xlsx") [] [] false true []
                    Samples.disk
  = (Raise Excel.FileNotFoundError, Samples.disk,
     [Excel.Makedirs "" (Raise Excel.FileNotFoundError)]).
Proof.
  refine (@bare_file_name_fails
            Samples.pandas 0%nat (Excel.One "a") (Excel.ToPath "results.xlsx")
            [] [] false true [] Samples.disk _).
  reflexivity.
Defined.

Lemma sheet_name_with_several_frames_witness :
  exists w' tr,
    Excel.df_to_excel Samples.pandas 2 (Excel.Several ["a"; "b"])
                      (Excel.ToPath "out/curves.xlsx") [] [] false true
                      [("sheet_name", PStr "curves")] Samples.disk
    = (Raise TypeError, w', tr)
    /\ In (Excel.Writer "out/curves.xlsx" (Ret tt)) tr
    /\ (forall f t m kw rr, ~ In (Excel.ToExcel f t m kw rr) tr)
    /\ forall p rr, ~ In (Excel.Save p rr) tr.
Proof.
  refine (@sheet_name_with_several_frames
            Samples.pandas 0%nat "a" ["b"] (Excel.ToPath "out/curves.xlsx")
            [] [] false true [("sheet_name", PStr "curves")] Samples.disk
            (PStr "curves") _ _ _).
  - discriminate.
  - reflexivity.
  - reflexivity.
Defined.

Lemma permission_never_reported_witness :
  fst (fst (Excel.df_to_excel Samples.pandas_read_only 7 (Excel.One "a")
                              (Excel.ToPath "out/a.xlsx") [] [] false true []
                              Samples.disk))
  = Raise Excel.RecursionError.
Proof.
  refine (@permission_never_reported
            Samples.pandas_read_only "a" [] [] false [] _ _ 7%nat
            (Excel.ToPath "out/a.xlsx") Samples.disk).
  - intros p. discriminate.
  - intros p into mc kw. reflexivity.
Defined.
